(** * Notion Analyzer Gateway: a shallow embedding of the read-only pipeline

    The development follows the TypeScript sources file by file:

    - [api/_lib/notion.ts]    write guard, gateway, bounded recursive fetcher
    - [api/_lib/text.ts]      rich text and block rendering
    - [api/_lib/normalize.ts] property normalisation and content assembly
    - [api/_lib/validate.ts]  request validation and keyword guard
    - [api/_lib/auth.ts]      bearer authentication
    - [api/analyze.ts]        the request handler and the analysis builder

    JavaScript strings are sequences of UTF-16 code units, JSON data is an
    inductive type of values, objects are association lists in insertion
    order, and exceptions are an explicit result type.  The outside of the
    program is a pair of functions: the URL parser of the platform, and
    [fetch] with the external store behind it, a function from the history
    of requests and the current request to what the call comes to.  Every
    call that reaches the network is appended to a log, so that "no request
    was sent" is a statement about that log.

    Boundaries of the model, stated once:
    - numbers are integers or NaN (no fractions, no infinities, no rounding);
    - case mapping changes the letters a-z and A-Z only;
    - property access sees own properties only (nothing inherited from
      [Object.prototype]); an assignment under the key [__proto__] makes no
      own property, and the change of prototype that it can bring about is
      not followed; objects keep plain insertion order (integer-like keys
      are not moved to the front);
    - the URL parser of the platform is not defined here, nor what [fetch]
      accepts beyond its refusal of a body with GET or HEAD: they are part
      of the outside that every statement quantifies over, and a request is
      kept as the origin, the path and the query that the parser made of
      the path handed to it. *)

From Stdlib Require Import List ZArith NArith Bool String Ascii Lia.
From Stdlib Require Import DecimalString.
Import ListNotations.

Set Implicit Arguments.
Set Warnings "-register-all".

Open Scope Z_scope.

(* ================================================================== *)
(** * JavaScript strings *)
(* ================================================================== *)

Module JS.

(** A string is its list of UTF-16 code units. *)
Definition jsstring := list N.

(** An ASCII literal of the source. *)
Definition lit (s : string) : jsstring :=
  map N_of_ascii (list_ascii_of_string s).

(** The double quote character, kept out of literals. *)
Definition dquote : jsstring := [34%N].

Definition len (s : jsstring) : Z := Z.of_nat (List.length s).

(** [a === b] on strings. *)
Fixpoint jseqb (a b : jsstring) : bool :=
  match a, b with
  | [], [] => true
  | x :: a', y :: b' => N.eqb x y && jseqb a' b'
  | _, _ => false
  end.

(** [s.startsWith(p)], also a regular expression [^p]. *)
Fixpoint startsWith (p s : jsstring) : bool :=
  match p, s with
  | [], _ => true
  | x :: p', y :: s' => N.eqb x y && startsWith p' s'
  | _ :: _, [] => false
  end.

(** [s.includes(needle)]. *)
Fixpoint includes (needle s : jsstring) : bool :=
  startsWith needle s ||
  match s with
  | [] => false
  | _ :: s' => includes needle s'
  end.

(** [s.endsWith(p)], stated as a proposition. *)
Definition endsWith (p s : jsstring) : Prop := exists front, s = front ++ p.

Definition upper_unit (c : N) : N :=
  if (97 <=? c)%N && (c <=? 122)%N then (c - 32)%N else c.

Definition lower_unit (c : N) : N :=
  if (65 <=? c)%N && (c <=? 90)%N then (c + 32)%N else c.

Definition toUpperCase (s : jsstring) : jsstring := map upper_unit s.
Definition toLowerCase (s : jsstring) : jsstring := map lower_unit s.

(** [s.slice(0, n)] for [n >= 0]. *)
Definition slice0 (n : nat) (s : jsstring) : jsstring := firstn n s.

(** [s.repeat(n)]. *)
Fixpoint repeat_str (s : jsstring) (n : nat) : jsstring :=
  match n with
  | O => []
  | S n' => s ++ repeat_str s n'
  end.

(** [parts.join(sep)] on an array of strings. *)
Fixpoint join (sep : jsstring) (parts : list jsstring) : jsstring :=
  match parts with
  | [] => []
  | [p] => p
  | p :: rest => p ++ sep ++ join sep rest
  end.

(** White space in the sense of [\s] and of [parseInt]. *)
Definition is_space (c : N) : bool :=
  existsb (N.eqb c)
    [9; 10; 11; 12; 13; 32; 160; 5760; 8232; 8233; 8239; 8287; 12288; 65279]%N
  || ((8192 <=? c)%N && (c <=? 8202)%N).

(** Line terminators, which [.] does not match. *)
Definition is_line_terminator (c : N) : bool :=
  existsb (N.eqb c) [10; 13; 8232; 8233]%N.

(** Decimal rendering of an integer, as [String(n)] gives it. *)
Definition num_to_string (z : Z) : jsstring :=
  lit (NilZero.string_of_int (Z.to_int z)).

Definition is_digit (c : N) : bool := (48 <=? c)%N && (c <=? 57)%N.

Fixpoint skip_spaces (s : jsstring) : jsstring :=
  match s with
  | c :: s' => if is_space c then skip_spaces s' else s
  | [] => []
  end.

(** The digits at the front of [s], folded into [acc]; [seen] records whether
    there was one. *)
Fixpoint read_digits (s : jsstring) (acc : Z) (seen : bool) : option Z :=
  match s with
  | c :: s' =>
      if is_digit c then read_digits s' (10 * acc + Z.of_N (c - 48)) true
      else if seen then Some acc else None
  | [] => if seen then Some acc else None
  end.

(** [parseInt(s, 10)]; [None] is NaN. *)
Definition parseInt10 (s : jsstring) : option Z :=
  match skip_spaces s with
  | 45%N :: s' => option_map Z.opp (read_digits s' 0 false)
  | 43%N :: s' => read_digits s' 0 false
  | s' => read_digits s' 0 false
  end.

(** Four lower-case hexadecimal digits, for [\uXXXX] escapes. *)
Definition hex_digit (n : N) : N :=
  if (n <? 10)%N then (48 + n)%N else (87 + n)%N.

Definition hex4 (c : N) : jsstring :=
  [hex_digit (N.modulo (N.div c 4096) 16); hex_digit (N.modulo (N.div c 256) 16);
   hex_digit (N.modulo (N.div c 16) 16); hex_digit (N.modulo c 16)].

Definition is_high_surrogate (c : N) : bool := (55296 <=? c)%N && (c <=? 56319)%N.
Definition is_low_surrogate (c : N) : bool := (56320 <=? c)%N && (c <=? 57343)%N.

Definition escape_unit (c : N) : jsstring :=
  if N.eqb c 8 then lit "\b"
  else if N.eqb c 9 then lit "\t"
  else if N.eqb c 10 then lit "\n"
  else if N.eqb c 12 then lit "\f"
  else if N.eqb c 13 then lit "\r"
  else if N.eqb c 34 then 92%N :: dquote
  else if N.eqb c 92 then lit "\\"
  else if (c <? 32)%N || is_high_surrogate c || is_low_surrogate c
       then lit "\u" ++ hex4 c
  else [c].

(** The body of a JSON string: a well-formed surrogate pair is copied, every
    other unit goes through [escape_unit]. *)
Fixpoint escape_units (s : jsstring) : jsstring :=
  match s with
  | [] => []
  | c :: s' =>
      match s' with
      | d :: s'' =>
          if is_high_surrogate c && is_low_surrogate d
          then c :: d :: escape_units s''
          else escape_unit c ++ escape_units s'
      | [] => escape_unit c
      end
  end.

(** [JSON.stringify] of a string. *)
Definition quoteJSON (s : jsstring) : jsstring := dquote ++ escape_units s ++ dquote.

(** The code points of a string, as [for ... of] yields them. *)
Fixpoint code_points (s : jsstring) : list jsstring :=
  match s with
  | [] => []
  | c :: s' =>
      match s' with
      | d :: s'' =>
          if is_high_surrogate c && is_low_surrogate d
          then [c; d] :: code_points s''
          else [c] :: code_points s'
      | [] => [[c]]
      end
  end.

End JS.

Import JS.

(* ================================================================== *)
(** * JSON values, exceptions and the two monads *)
(* ================================================================== *)

Module Json.

(** What [JSON.parse] can produce, together with [undefined] and NaN, which
    the code itself introduces. *)
Inductive Value : Type :=
| VUndefined
| VNull
| VBool (b : bool)
| VNum (z : Z)
| VNaN
| VStr (s : jsstring)
| VArr (items : list Value)
| VObj (entries : list (jsstring * Value)).

(** Thrown values.  All of them are instances of [Error]; the wording of the
    engine's own [TypeError], [SyntaxError] and [RangeError] messages is not
    modelled. *)
Inductive exn : Type :=
| Error (message : jsstring)
| TypeError
| SyntaxError
| RangeError.

Definition exn_message (e : exn) : jsstring :=
  match e with
  | Error m => m
  | TypeError => lit "TypeError"
  | SyntaxError => lit "SyntaxError"
  | RangeError => lit "RangeError"
  end.

(** A computation that returns or throws. *)
Inductive result (A : Type) : Type :=
| Ok (a : A)
| Throw (e : exn).
Arguments Ok {A} a.
Arguments Throw {A} e.

Definition bindR {A B} (r : result A) (k : A -> result B) : result B :=
  match r with
  | Ok a => k a
  | Throw e => Throw e
  end.

(** [xs.map(f)] where [f] may throw: the first exception wins. *)
Fixpoint mapR {A B} (f : A -> result B) (xs : list A) : result (list B) :=
  match xs with
  | [] => Ok []
  | x :: xs' =>
      bindR (f x) (fun y => bindR (mapR f xs') (fun ys => Ok (y :: ys)))
  end.

Definition nullish (v : Value) : bool :=
  match v with
  | VUndefined | VNull => true
  | _ => false
  end.

(** [ToBoolean]. *)
Definition truthy (v : Value) : bool :=
  match v with
  | VUndefined | VNull | VNaN => false
  | VBool b => b
  | VNum z => negb (z =? 0)
  | VStr s => match s with [] => false | _ => true end
  | VArr _ | VObj _ => true
  end.

(** [a ?? b]. *)
Definition orElse (a b : Value) : Value := if nullish a then b else a.

(** [typeof v === "object"]. *)
Definition typeof_object (v : Value) : bool :=
  match v with
  | VNull | VArr _ | VObj _ => true
  | _ => false
  end.

Definition typeof_string (v : Value) : bool :=
  match v with
  | VStr _ => true
  | _ => false
  end.

Definition isArray (v : Value) : bool :=
  match v with
  | VArr _ => true
  | _ => false
  end.

(** [v === "literal"]. *)
Definition is_str (v : Value) (s : jsstring) : bool :=
  match v with
  | VStr x => jseqb x s
  | _ => false
  end.

(** The first entry under key [k], or [undefined]. *)
Fixpoint lookup (k : jsstring) (o : list (jsstring * Value)) : Value :=
  match o with
  | [] => VUndefined
  | (k', v) :: o' => if jseqb k' k then v else lookup k o'
  end.

(** [o[k] = v]: in place when the key exists, at the end otherwise. *)
Fixpoint obj_set (k : jsstring) (v : Value) (o : list (jsstring * Value))
  : list (jsstring * Value) :=
  match o with
  | [] => [(k, v)]
  | (k', v') :: o' =>
      if jseqb k' k then (k', v) :: o' else (k', v') :: obj_set k v o'
  end.

Definition keys (o : list (jsstring * Value)) : list jsstring := map fst o.

(** [v.k] on a value that is neither [null] nor [undefined]. *)
Definition prop (v : Value) (k : jsstring) : Value :=
  match v with
  | VObj o => lookup k o
  | VArr items =>
      if jseqb k (lit "length") then VNum (Z.of_nat (List.length items))
      else VUndefined
  | VStr s => if jseqb k (lit "length") then VNum (len s) else VUndefined
  | _ => VUndefined
  end.

(** [v.k]: a [TypeError] on [null] and [undefined]. *)
Definition get (v : Value) (k : jsstring) : result Value :=
  if nullish v then Throw TypeError else Ok (prop v k).

(** [v?.k]. *)
Definition getOpt (v : Value) (k : jsstring) : Value :=
  if nullish v then VUndefined else prop v k.

(** [String(v)], which is also what a template literal does. *)
Fixpoint toStringJS (v : Value) : jsstring :=
  match v with
  | VUndefined => lit "undefined"
  | VNull => lit "null"
  | VBool true => lit "true"
  | VBool false => lit "false"
  | VNum z => num_to_string z
  | VNaN => lit "NaN"
  | VStr s => s
  | VArr items =>
      join (lit ",")
        (map (fun x => if nullish x then [] else toStringJS x) items)
  | VObj _ => lit "[object Object]"
  end.

(** [values.join(sep)] on an array of arbitrary values. *)
Definition joinValues (sep : jsstring) (values : list Value) : jsstring :=
  join sep (map (fun x => if nullish x then [] else toStringJS x) values).

(** [JSON.stringify(v)]; [None] is [undefined]. *)
Fixpoint JSON_stringify (v : Value) : option jsstring :=
  match v with
  | VUndefined => None
  | VNull | VNaN => Some (lit "null")
  | VBool true => Some (lit "true")
  | VBool false => Some (lit "false")
  | VNum z => Some (num_to_string z)
  | VStr s => Some (quoteJSON s)
  | VArr items =>
      Some (lit "[" ++
            join (lit ",")
              (map (fun x => match JSON_stringify x with
                             | Some s => s
                             | None => lit "null"
                             end) items)
            ++ lit "]")
  | VObj entries =>
      Some (lit "{" ++
            join (lit ",")
              (flat_map (fun kv => match JSON_stringify (snd kv) with
                                   | Some s => [quoteJSON (fst kv) ++ lit ":" ++ s]
                                   | None => []
                                   end) entries)
            ++ lit "}")
  end.

(** What [for (const x of v)] iterates over; anything but an array or a
    string is not iterable. *)
Definition iterate (v : Value) : result (list Value) :=
  match v with
  | VArr items => Ok items
  | VStr s => Ok (map VStr (code_points s))
  | _ => Throw TypeError
  end.

(** [arr.map(f)] called on an arbitrary value: only arrays have [map]. *)
Definition mapArray {B} (f : Value -> result B) (v : Value) : result (list B) :=
  match v with
  | VArr items => mapR f items
  | _ => Throw TypeError
  end.

(** [Object.entries(v)], which is also what [{...v}] copies. *)
Definition indexed {A} (xs : list A) : list (Z * A) :=
  combine (map Z.of_nat (seq 0 (List.length xs))) xs.

Definition entries_of (v : Value) : list (jsstring * Value) :=
  match v with
  | VObj o => o
  | VArr items => map (fun iv => (num_to_string (fst iv), snd iv)) (indexed items)
  | VStr s => map (fun ic => (num_to_string (fst ic), VStr [snd ic])) (indexed s)
  | _ => []
  end.

(** [{...base, ...v}]. *)
Definition spread_into (base : list (jsstring * Value)) (v : Value)
  : list (jsstring * Value) :=
  fold_left (fun o kv => obj_set (fst kv) (snd kv) o) (entries_of v) base.

End Json.

Import Json.

Declare Scope js_scope.
Delimit Scope js_scope with js.
Notation "'try!' x <- e ; k" := (bindR e (fun x => k))
  (at level 10, x name, e at level 100, k at level 200) : js_scope.
Open Scope js_scope.

(* ================================================================== *)
(** * api/_lib/notion.ts: the read-only client *)
(* ================================================================== *)

Module Notion.

(** [process.env], for the variables the sources read. *)
Record Env : Type := {
  GATEWAY_API_KEY : option jsstring;
  NOTION_TOKEN : option jsstring;
  NOTION_VERSION : option jsstring;
  MAX_BLOCKS : option jsstring;
  MAX_DEPTH : option jsstring;
  DB_PAGE_LIMIT : option jsstring
}.

(** [process.env.X ?? fallback]. *)
Definition env_or (x : option jsstring) (fallback : jsstring) : jsstring :=
  match x with
  | Some s => s
  | None => fallback
  end.

(** The base that every path is resolved against. *)
Definition NOTION_BASE : jsstring := lit "https://api.notion.com".

(** A URL object as [new URL(path, NOTION_BASE)] returns it: the origin it
    points to, its path and the pairs of its query.  The fragment is left
    out: the code never reads it and [fetch] does not send it. *)
Record Url : Type := {
  url_origin : jsstring;
  url_pathname : jsstring;
  url_query : list (jsstring * jsstring)
}.

(** [url.searchParams.set(k, v)]: the first pair named [k] takes the value
    and the other pairs of that name go; without such a pair, one is
    appended. *)
Fixpoint search_set (k v : jsstring) (query : list (jsstring * jsstring))
  : list (jsstring * jsstring) :=
  match query with
  | [] => [(k, v)]
  | (k', v') :: query' =>
      if jseqb k' k
      then (k', v) :: filter (fun kv => negb (jseqb (fst kv) k)) query'
      else (k', v') :: search_set k v query'
  end.

(** One call of [fetch], as it leaves: the method, the URL after resolution
    (origin, path and query), two of the headers and the body. *)
Record Request : Type := {
  rq_method : jsstring;
  rq_origin : jsstring;
  rq_path : jsstring;
  rq_params : list (jsstring * jsstring);
  rq_authorization : jsstring;
  rq_version : jsstring;
  rq_body : option jsstring
}.

(** What a call of [fetch] comes to.  [Refused]: [fetch] throws a
    [TypeError] before anything is sent, as it does for a method or a header
    value that it does not accept.  [NetworkFailure]: the request left and
    no response came.  [Http]: a status, the body as [res.text()] gives it
    and as [res.json()] gives it ([None]: not JSON). *)
Inductive HttpResponse : Type :=
| Refused
| NetworkFailure
| Http (status : Z) (text : jsstring) (json : option Value).

Definition Log : Type := list Request.

(** What lies outside the program.  [resolve] is the URL parser of the
    platform, [new URL(path, NOTION_BASE)]: it removes dot segments, cuts
    the query and the fragment off the path, encodes what a URL cannot
    hold, and throws a [TypeError] ([None]) when no URL results.  [respond]
    is [fetch] with the external store behind it: it sees the requests sent
    so far and the current one, so the same request may be answered
    differently over time. *)
Record Upstream : Type := {
  resolve : jsstring -> option Url;
  respond : Log -> Request -> HttpResponse
}.

(** An [async] function: it may send requests, and returns or throws. *)
Definition M (A : Type) : Type := Log -> result A * Log.

Definition retM {A} (a : A) : M A := fun log => (Ok a, log).

Definition throwM {A} (e : exn) : M A := fun log => (Throw e, log).

Definition liftR {A} (r : result A) : M A := fun log => (r, log).

Definition bindM {A B} (m : M A) (k : A -> M B) : M B :=
  fun log =>
    match m log with
    | (Ok a, log') => k a log'
    | (Throw e, log') => (Throw e, log')
    end.

Notation "'await!' x <- e ; k" := (bindM e (fun x => k))
  (at level 10, x name, e at level 100, k at level 200) : js_scope.

(** ** Write-endpoint patterns *)

Record WritePattern : Type := {
  wp_method : jsstring;
  wp_pattern : jsstring -> bool
}.

(** The regular expression [^base/?$]: [$] has no [m] flag, so it is the end
    of the input. *)
Definition re_exact_opt_slash (base path : jsstring) : bool :=
  jseqb path base || jseqb path (base ++ lit "/").

Definition WRITE_PATTERNS : list WritePattern :=
  [ {| wp_method := lit "POST"; wp_pattern := re_exact_opt_slash (lit "/v1/pages") |};
    {| wp_method := lit "PATCH"; wp_pattern := startsWith (lit "/v1/pages/") |};
    {| wp_method := lit "PATCH"; wp_pattern := startsWith (lit "/v1/blocks/") |};
    {| wp_method := lit "DELETE"; wp_pattern := startsWith (lit "/v1/blocks/") |};
    {| wp_method := lit "POST"; wp_pattern := re_exact_opt_slash (lit "/v1/comments") |} ].

Definition isWriteCall (method path : jsstring) : bool :=
  let upper := toUpperCase method in
  if jseqb upper (lit "PATCH") || jseqb upper (lit "DELETE") then true
  else existsb (fun wp => jseqb upper (wp_method wp) && wp_pattern wp path)
         WRITE_PATTERNS.

(** ** Core fetcher *)

Record NotionFetchOptions : Type := {
  opt_method : option jsstring;
  opt_body : Value;
  opt_params : option (list (jsstring * Value))
}.

Definition no_options : NotionFetchOptions :=
  {| opt_method := None; opt_body := VUndefined; opt_params := None |}.

(** The message of the hard guard; 8212 is the dash of the source. *)
Definition blocked_message (method path : jsstring) : jsstring :=
  lit "BLOCKED: Write operation attempted " ++ [8212%N] ++ lit " " ++ method
  ++ lit " " ++ path ++ lit ". This API is read-only.".

Definition res_ok (status : Z) : bool := (200 <=? status) && (status <=? 299).

Definition upstream_error_message (status : Z) (text : jsstring) : jsstring :=
  lit "Notion API error " ++ num_to_string status ++ lit ": " ++ text.

(** The query of the URL after the loop over [options.params]. *)
Definition with_params (query : list (jsstring * jsstring))
    (params : option (list (jsstring * Value))) : list (jsstring * jsstring) :=
  match params with
  | Some ps =>
      fold_left (fun q kv => search_set (fst kv) (toStringJS (snd kv)) q) ps query
  | None => query
  end.

(** What is handed to [fetch]: [url.toString()], the method, the headers and
    the body. *)
Definition fetch_call (method : jsstring) (url : Url) (options : NotionFetchOptions)
    (token version : jsstring) : Request :=
  {| rq_method := method;
     rq_origin := url_origin url;
     rq_path := url_pathname url;
     rq_params := with_params (url_query url) (opt_params options);
     rq_authorization := lit "Bearer " ++ token;
     rq_version := version;
     rq_body :=
       if truthy (opt_body options)
       then JSON_stringify (opt_body options)
       else None |}.

(** [fetch] does not take a body with GET or HEAD: it throws a [TypeError]
    and sends nothing. *)
Definition body_refused (rq : Request) : bool :=
  match rq_body rq with
  | Some _ => jseqb (rq_method rq) (lit "GET") || jseqb (rq_method rq) (lit "HEAD")
  | None => false
  end.

Section Client.

Variable env : Env.
Variable upstream : Upstream.

Definition notionFetch (path : jsstring) (options : NotionFetchOptions) : M Value :=
  fun log =>
    let method := toUpperCase (env_or (opt_method options) (lit "GET")) in
    if isWriteCall method path
    then (Throw (Error (blocked_message method path)), log)
    else
      let version := env_or (NOTION_VERSION env) (lit "2022-06-28") in
      match NOTION_TOKEN env with
      | None | Some [] =>
          (Throw (Error (lit "Server misconfiguration: NOTION_TOKEN not set")), log)
      | Some token =>
          match resolve upstream path with
          | None => (Throw TypeError, log)
          | Some url =>
              let rq := fetch_call method url options token version in
              if body_refused rq then (Throw TypeError, log)
              else
                match respond upstream log rq with
                | Refused => (Throw TypeError, log)
                | NetworkFailure => (Throw TypeError, log ++ [rq])
                | Http status text json =>
                    if negb (res_ok status)
                    then (Throw (Error (upstream_error_message status text)),
                          log ++ [rq])
                    else
                      match json with
                      | Some v => (Ok v, log ++ [rq])
                      | None => (Throw SyntaxError, log ++ [rq])
                      end
                end
          end
      end.

(** ** High-level read operations *)

Definition page_path (pageId : Value) : jsstring :=
  lit "/v1/pages/" ++ toStringJS pageId.

Definition children_path (blockId : Value) : jsstring :=
  lit "/v1/blocks/" ++ toStringJS blockId ++ lit "/children".

Definition query_path (databaseId : Value) : jsstring :=
  lit "/v1/databases/" ++ toStringJS databaseId ++ lit "/query".

Definition retrievePage (pageId : Value) : M Value :=
  notionFetch (page_path pageId) no_options.

Definition retrieveBlockChildren (blockId : Value) (pageSize : Z) : M Value :=
  notionFetch (children_path blockId)
    {| opt_method := None;
       opt_body := VUndefined;
       opt_params := Some [(lit "page_size", VNum pageSize)] |}.

(** A number that [parseInt] returned. *)
Definition num_value (n : option Z) : Value :=
  match n with
  | Some z => VNum z
  | None => VNaN
  end.

Definition dbPageLimit : option Z :=
  parseInt10 (env_or (DB_PAGE_LIMIT env) (lit "50")).

Definition query_body (query : Value) : Value :=
  VObj (spread_into [(lit "page_size", num_value dbPageLimit)] query).

Definition queryDatabase (databaseId : Value) (query : Value) : M Value :=
  let query := match query with VUndefined => VObj [] | q => q end in
  notionFetch (query_path databaseId)
    {| opt_method := Some (lit "POST");
       opt_body := query_body query;
       opt_params := None |}.

(** ** Recursive block fetcher *)

Record FlatBlock : Type := {
  fb_id : Value;
  fb_type : Value;
  fb_depth : Z;
  fb_data : Value
}.

Definition maxDepth : option Z := parseInt10 (env_or (MAX_DEPTH env) (lit "2")).
Definition maxBlocks : option Z := parseInt10 (env_or (MAX_BLOCKS env) (lit "400")).

(** Comparisons against a configured number; every comparison with NaN is
    false. *)
Definition gtN (a : Z) (b : option Z) : bool :=
  match b with Some b' => a >? b' | None => false end.
Definition geN (a : Z) (b : option Z) : bool :=
  match b with Some b' => a >=? b' | None => false end.
Definition ltN (a : Z) (b : option Z) : bool :=
  match b with Some b' => a <? b' | None => false end.

(** The state of one traversal after a call of [recurse]: whether it
    returned or threw, the [result] array, and the requests sent. *)
Definition Fetched : Type := (result unit * list FlatBlock * Log)%type.

Definition flat (b : Value) (depth : Z) : FlatBlock :=
  {| fb_id := prop b (lit "id");
     fb_type := prop b (lit "type");
     fb_depth := depth;
     fb_data := b |}.

(** The [for] loop of [recurse] over the listed blocks; [self] is the
    recursive call. *)
Fixpoint each_block (self : Value -> Z -> list FlatBlock -> Log -> option Fetched)
    (depth : Z) (blocks : list Value) (acc : list FlatBlock) (log : Log)
  : option Fetched :=
  match blocks with
  | [] => Some (Ok tt, acc, log)
  | b :: rest =>
      if geN (Z.of_nat (List.length acc)) maxBlocks then Some (Ok tt, acc, log)
      else if nullish b then Some (Throw TypeError, acc, log)
      else
        let acc1 := acc ++ [flat b depth] in
        if truthy (prop b (lit "has_children")) && ltN depth maxDepth
        then
          match self (prop b (lit "id")) (depth + 1) acc1 log with
          | Some (Ok _, acc2, log2) => each_block self depth rest acc2 log2
          | other => other
          end
        else each_block self depth rest acc1 log
  end.

Definition recurse_body (self : Value -> Z -> list FlatBlock -> Log -> option Fetched)
    (parentId : Value) (depth : Z) (acc : list FlatBlock) (log : Log)
  : option Fetched :=
  if gtN depth maxDepth || geN (Z.of_nat (List.length acc)) maxBlocks
  then Some (Ok tt, acc, log)
  else
    match retrieveBlockChildren parentId 100 log with
    | (Throw e, log1) => Some (Throw e, acc, log1)
    | (Ok resp, log1) =>
        match (try! results <- get resp (lit "results"); iterate results) with
        | Throw e => Some (Throw e, acc, log1)
        | Ok blocks => each_block self depth blocks acc log1
        end
    end.

(** [recurse], with the nesting of calls bounded by [fuel]; [None] means the
    bound was too small. *)
Fixpoint recurse (fuel : nat) : Value -> Z -> list FlatBlock -> Log -> option Fetched :=
  match fuel with
  | O => fun _ _ _ _ => None
  | S fuel' => recurse_body (recurse fuel')
  end.

(** Calls nest at depths 0, 1, ..., [maxDepth], and not at all below a
    NaN ceiling. *)
Definition nesting_bound : nat :=
  match maxDepth with
  | Some D => S (Z.to_nat D)
  | None => 1%nat
  end.

(** The whole traversal of one page, with the [result] array it built even
    when it threw. *)
Definition traverse (pageId : Value) (log : Log) : option Fetched :=
  recurse nesting_bound pageId 0 [] log.

Definition fetchPageBlocks (pageId : Value) : M (list FlatBlock) :=
  fun log =>
    match traverse pageId log with
    | Some (Ok _, acc, log') => (Ok acc, log')
    | Some (Throw e, _, log') => (Throw e, log')
    | None => (Throw (Error (lit "nesting bound exceeded")), log)
    end.

End Client.

End Notion.

Import Notion.

(* ================================================================== *)
(** * api/_lib/text.ts: blocks to plain text *)
(* ================================================================== *)

Module Text.

(** One span of rich text: [rt.plain_text ?? rt.text?.content ?? ""]. *)
Definition span_text (rt : Value) : result Value :=
  if nullish rt then Throw TypeError
  else Ok (orElse (orElse (prop rt (lit "plain_text"))
                          (getOpt (prop rt (lit "text")) (lit "content")))
                  (VStr [])).

Definition richTextToPlain (richTexts : Value) : result jsstring :=
  match richTexts with
  | VArr items =>
      try! parts <- mapR span_text items;
      Ok (joinValues [] parts)
  | _ => Ok []
  end.

Definition newline : jsstring := [10%N].

(** The indented bracketed tag [`${indent}[${type}]`]. *)
Definition tag_line (indent : jsstring) (type : Value) : jsstring :=
  indent ++ lit "[" ++ toStringJS type ++ lit "]".

(** [s.repeat(n)] for any integer: a negative count is a [RangeError]. *)
Definition repeat_count (s : jsstring) (n : Z) : result jsstring :=
  if n <? 0 then Throw RangeError else Ok (repeat_str s (Z.to_nat n)).

Definition blockToText (block : Value) (depth : Z) : result jsstring :=
  try! indent <- repeat_count (lit "  ") depth;
  try! type <- get block (lit "type");
  let content := prop block (toStringJS type) in
  if negb (truthy content) then Ok (tag_line indent type)
  else
    let richText := prop content (lit "rich_text") in
    try! text <- richTextToPlain richText;
    if is_str type (lit "paragraph") then
      Ok (match text with [] => [] | _ => indent ++ text end)
    else if is_str type (lit "heading_1") then Ok (indent ++ lit "# " ++ text)
    else if is_str type (lit "heading_2") then Ok (indent ++ lit "## " ++ text)
    else if is_str type (lit "heading_3") then Ok (indent ++ lit "### " ++ text)
    else if is_str type (lit "bulleted_list_item") then
      Ok (indent ++ [8226%N] ++ lit " " ++ text)
    else if is_str type (lit "numbered_list_item") then
      Ok (indent ++ lit "1. " ++ text)
    else if is_str type (lit "to_do") then
      let checked := if truthy (prop content (lit "checked")) then lit "x" else lit " " in
      Ok (indent ++ lit "[" ++ checked ++ lit "] " ++ text)
    else if is_str type (lit "toggle") then
      Ok (indent ++ [9656%N] ++ lit " " ++ text)
    else if is_str type (lit "quote") then Ok (indent ++ lit "> " ++ text)
    else if is_str type (lit "callout") then
      let icon := prop content (lit "icon") in
      let emoji :=
        if is_str (getOpt icon (lit "type")) (lit "emoji")
        then toStringJS (prop icon (lit "emoji")) ++ lit " "
        else [] in
      Ok (indent ++ emoji ++ text)
    else if is_str type (lit "code") then
      let lang := orElse (prop content (lit "language")) (VStr []) in
      Ok (indent ++ lit "```" ++ toStringJS lang ++ newline
          ++ indent ++ text ++ newline ++ indent ++ lit "```")
    else if is_str type (lit "divider") then Ok (indent ++ lit "---")
    else if is_str type (lit "table_row") then
      let cells := prop content (lit "cells") in
      if negb (truthy cells) then Ok (indent ++ lit "[table_row]")
      else
        try! rendered <- mapArray richTextToPlain cells;
        Ok (indent ++ lit "| " ++ join (lit " | ") rendered ++ lit " |")
    else if is_str type (lit "child_page") then
      Ok (indent ++ [55357%N; 56516%N] ++ lit " "
          ++ toStringJS (orElse (prop content (lit "title")) (VStr (lit "Untitled"))))
    else if is_str type (lit "child_database") then
      Ok (indent ++ [55357%N; 56771%N; 65039%N] ++ lit " "
          ++ toStringJS (orElse (prop content (lit "title")) (VStr (lit "Untitled DB"))))
    else if is_str type (lit "image") || is_str type (lit "video")
            || is_str type (lit "file") || is_str type (lit "pdf") then
      Ok (tag_line indent type)
    else if is_str type (lit "bookmark") then
      let url := prop content (lit "url") in
      Ok (indent ++ [55357%N; 56599%N] ++ lit " "
          ++ toStringJS (orElse url (VStr (lit "[bookmark]"))))
    else if is_str type (lit "embed") then
      let url := prop content (lit "url") in
      Ok (indent ++ lit "[embed: " ++ toStringJS (orElse url (VStr (lit "unknown")))
          ++ lit "]")
    else
      Ok (match text with [] => tag_line indent type | _ => indent ++ text end).

End Text.

Import Text.

(* ================================================================== *)
(** * api/_lib/normalize.ts: content normalisation *)
(* ================================================================== *)

Module Normalize.

Definition MAX_CONTENT_CHARS : Z := 20000.

Record NormalizedDatabaseItem : Type := {
  item_id : Value;
  item_title : jsstring;
  item_properties : list (jsstring * Value);
  item_properties_raw : Value
}.

Record NormalizedTarget : Type := {
  target_type : jsstring;
  target_id : Value;
  title : jsstring;
  properties : list (jsstring * Value);
  content_text : jsstring;
  blocks_count : Z;
  items : option (list NormalizedDatabaseItem)
}.

(** ** Page normalisation *)

(** [x > 0] for the [length] of a title payload.  Numbers and booleans are
    compared as JavaScript does; a [length] that is itself a string or an
    array would first be parsed as a number, which is left out: it counts
    as not positive. *)
Definition gt_zero (v : Value) : bool :=
  match v with
  | VNum z => 0 <? z
  | VBool b => b
  | _ => false
  end.

(** The body of the two loops of [extractPageTitle] for one property:
    [Some title] when the function returns from it. *)
Definition title_of_property (p : Value) : result (option jsstring) :=
  if is_str (getOpt p (lit "type")) (lit "title") then
    let titleArr := prop p (lit "title") in
    if truthy titleArr && gt_zero (prop titleArr (lit "length")) then
      try! parts <- mapArray
                      (fun t => if nullish t then Throw TypeError
                                else Ok (orElse (prop t (lit "plain_text")) (VStr [])))
                      titleArr;
      Ok (Some (joinValues [] parts))
    else Ok None
  else Ok None.

(** A loop that returns from the first property that yields a title. *)
Fixpoint first_title (ps : list Value) : result (option jsstring) :=
  match ps with
  | [] => Ok None
  | p :: ps' =>
      try! found <- title_of_property p;
      match found with
      | Some t => Ok (Some t)
      | None => first_title ps'
      end
  end.

Definition title_keys : list jsstring :=
  [lit "title"; lit "Title"; lit "Name"; lit "name"].

Definition extractPageTitle (page : Value) : result jsstring :=
  try! props <- get page (lit "properties");
  if negb (truthy props) then Ok (lit "Untitled")
  else
    try! named <- first_title (map (prop props) title_keys);
    match named with
    | Some t => Ok t
    | None =>
        try! scanned <- first_title (map snd (entries_of props));
        match scanned with
        | Some t => Ok t
        | None => Ok (lit "Untitled")
        end
    end.

(** [(v ?? []).map(f)], the shape of three of the cases below. *)
Definition map_or_empty (f : Value -> result Value) (v : Value) : result Value :=
  try! xs <- mapArray f (orElse v (VArr []));
  Ok (VArr xs).

Definition name_of (x : Value) : result Value := get x (lit "name").

(** [f?.[f?.type] ?? null]. *)
Definition nested_by_type (f : Value) : Value :=
  orElse (if nullish f then VUndefined
          else prop f (toStringJS (prop f (lit "type"))))
         VNull.

(** The [switch] of [extractSimpleProperties] for one property. *)
Definition simple_property (p : Value) : result Value :=
  try! type <- get p (lit "type");
  if is_str type (lit "title") then
    try! s <- richTextToPlain (prop p (lit "title")); Ok (VStr s)
  else if is_str type (lit "rich_text") then
    try! s <- richTextToPlain (prop p (lit "rich_text")); Ok (VStr s)
  else if is_str type (lit "number") then Ok (prop p (lit "number"))
  else if is_str type (lit "select") then
    Ok (orElse (getOpt (prop p (lit "select")) (lit "name")) VNull)
  else if is_str type (lit "multi_select") then
    map_or_empty name_of (prop p (lit "multi_select"))
  else if is_str type (lit "status") then
    Ok (orElse (getOpt (prop p (lit "status")) (lit "name")) VNull)
  else if is_str type (lit "date") then
    let d := prop p (lit "date") in
    Ok (if truthy d
        then VObj [(lit "start", prop d (lit "start"));
                   (lit "end", orElse (prop d (lit "end")) VNull)]
        else VNull)
  else if is_str type (lit "checkbox") then Ok (prop p (lit "checkbox"))
  else if is_str type (lit "url") then Ok (prop p (lit "url"))
  else if is_str type (lit "email") then Ok (prop p (lit "email"))
  else if is_str type (lit "phone_number") then Ok (prop p (lit "phone_number"))
  else if is_str type (lit "people") then
    map_or_empty
      (fun x => try! n <- name_of x; Ok (orElse n (VStr (lit "Unknown"))))
      (prop p (lit "people"))
  else if is_str type (lit "relation") then
    map_or_empty (fun r => get r (lit "id")) (prop p (lit "relation"))
  else if is_str type (lit "formula") then Ok (nested_by_type (prop p (lit "formula")))
  else if is_str type (lit "rollup") then Ok (nested_by_type (prop p (lit "rollup")))
  else if is_str type (lit "created_time") then Ok (prop p (lit "created_time"))
  else if is_str type (lit "last_edited_time") then Ok (prop p (lit "last_edited_time"))
  else if is_str type (lit "created_by") then
    Ok (orElse (getOpt (prop p (lit "created_by")) (lit "name")) VNull)
  else if is_str type (lit "last_edited_by") then
    Ok (orElse (getOpt (prop p (lit "last_edited_by")) (lit "name")) VNull)
  else Ok (VStr (lit "[" ++ toStringJS type ++ lit "]")).

(** [result[key] = v] on an object that an object literal made.  Under
    every key but one this sets an own property.  Under [__proto__] the
    setter inherited from [Object.prototype] runs instead, and the object
    gets no property of that name. *)
Definition assign (key : jsstring) (v : Value) (result : list (jsstring * Value))
  : list (jsstring * Value) :=
  if jseqb key (lit "__proto__") then result else obj_set key v result.

(** The loop of [extractSimpleProperties], from the [result] built so far. *)
Fixpoint simple_entries (es : list (jsstring * Value)) (result : list (jsstring * Value))
  : Json.result (list (jsstring * Value)) :=
  match es with
  | [] => Ok result
  | (key, val) :: es' =>
      try! v <- simple_property val;
      simple_entries es' (assign key v result)
  end.

Definition extractSimpleProperties (props : Value) : result (list (jsstring * Value)) :=
  simple_entries (entries_of props) [].

(** The truncation statement that both normalisers end with. *)
Definition truncation_marker : jsstring := newline ++ lit "... [truncated]".

Definition truncate (contentText : jsstring) : jsstring :=
  if len contentText >? MAX_CONTENT_CHARS
  then slice0 (Z.to_nat MAX_CONTENT_CHARS) contentText ++ truncation_marker
  else contentText.

(** The text of a page before truncation: the non-empty lines of its
    blocks, joined by newlines. *)
Definition page_text (blocks : list FlatBlock) : result jsstring :=
  try! lines <- mapR (fun b => blockToText (fb_data b) (fb_depth b)) blocks;
  Ok (join newline (filter (fun line => len line >? 0) lines)).

(** ** Database normalisation *)

Definition normalize_item (item : Value) : result NormalizedDatabaseItem :=
  try! raw <- get item (lit "properties");
  let props := orElse raw (VObj []) in
  try! t <- extractPageTitle item;
  try! simple <- extractSimpleProperties props;
  Ok {| item_id := prop item (lit "id");
        item_title := t;
        item_properties := simple;
        item_properties_raw := props |}.

(** [`  ${k}: ${JSON.stringify(v)}`]. *)
Definition prop_line (kv : jsstring * Value) : jsstring :=
  lit "  " ++ fst kv ++ lit ": "
  ++ match JSON_stringify (snd kv) with
     | Some s => s
     | None => lit "undefined"
     end.

(** [`${i + 1}. ${item.title}\n${propLines}`]. *)
Definition item_text (ix : Z * NormalizedDatabaseItem) : jsstring :=
  num_to_string (fst ix + 1) ++ lit ". " ++ item_title (snd ix) ++ newline
  ++ join newline (map prop_line (item_properties (snd ix))).

(** The text of a database before truncation. *)
Definition database_text (its : list NormalizedDatabaseItem) : jsstring :=
  join (newline ++ newline) (map item_text (indexed its)).

Definition database_title (its : list NormalizedDatabaseItem) : jsstring :=
  lit "Database (" ++ num_to_string (Z.of_nat (List.length its)) ++ lit " items)".

Section Targets.

Variable env : Env.
Variable upstream : Upstream.

Definition normalizePageTarget (pageId : Value) : M NormalizedTarget :=
  await! page <- retrievePage env upstream pageId;
  await! blocks <- fetchPageBlocks env upstream pageId;
  await! t <- liftR (extractPageTitle page);
  await! props <- liftR (extractSimpleProperties
                           (orElse (prop page (lit "properties")) (VObj [])));
  await! contentText <- liftR (page_text blocks);
  retM {| target_type := lit "page";
          target_id := pageId;
          title := t;
          properties := props;
          content_text := truncate contentText;
          blocks_count := Z.of_nat (List.length blocks);
          items := None |}.

Definition normalizeDatabaseTarget (target : Value) : M NormalizedTarget :=
  await! response <- queryDatabase env upstream (prop target (lit "id"))
                       (orElse (prop target (lit "query")) (VObj []));
  await! results <- liftR (get response (lit "results"));
  await! its <- liftR (mapArray normalize_item (orElse results (VArr [])));
  retM {| target_type := lit "database";
          target_id := prop target (lit "id");
          title := database_title its;
          properties := [];
          content_text := truncate (database_text its);
          blocks_count := 0;
          items := Some its |}.

End Targets.

End Normalize.

Import Normalize.

(* ================================================================== *)
(** * api/_lib/validate.ts: request validation and keyword guard *)
(* ================================================================== *)

Module Validate.

Record AnalyzeRequest : Type := {
  targets : list Value;
  mode : Value;
  instructions : Value;
  focus : Value
}.

(** [{ ok: true, data }] or [{ ok: false, message }]. *)
Inductive Validation : Type :=
| Valid (data : AnalyzeRequest)
| Invalid (message : jsstring).

Definition WRITE_KEYWORDS : list jsstring :=
  [lit "commit"; lit "create"; lit "update"; lit "delete";
   lit "append"; lit "write"; lit "remove"; lit "insert"].

(** The keyword between double quotes, as the guard searches for it. *)
Definition quoted (keyword : jsstring) : jsstring := dquote ++ keyword ++ dquote.

Definition write_rejected_message (keyword : jsstring) : jsstring :=
  lit "Write operation rejected: request contains forbidden keyword "
  ++ quoted keyword ++ lit ". This API is read-only.".

Definition not_object_message : jsstring := lit "Request body must be a JSON object".

(** The first keyword of the vocabulary that the serialised body contains. *)
Definition first_keyword (bodyStr : jsstring) : option jsstring :=
  find (fun keyword => includes (quoted keyword) bodyStr) WRITE_KEYWORDS.

Definition target_message (i : Z) (rest : jsstring) : jsstring :=
  lit "targets[" ++ num_to_string i ++ lit "]" ++ rest.

(** The checks on [targets[i]]: [Some message] when one of them fails. *)
Definition check_target (it : Z * Value) : option jsstring :=
  let i := fst it in
  let t := snd it in
  if negb (truthy t) || negb (typeof_object t) then
    Some (target_message i (lit " must be an object"))
  else if negb (is_str (prop t (lit "type")) (lit "page"))
          && negb (is_str (prop t (lit "type")) (lit "database")) then
    Some (target_message i
            (lit ".type must be " ++ quoted (lit "page") ++ lit " or "
             ++ quoted (lit "database")))
  else if negb (truthy (prop t (lit "id"))) || negb (typeof_string (prop t (lit "id"))) then
    Some (target_message i (lit ".id must be a non-empty string"))
  else None.

Fixpoint first_failure (ts : list (Z * Value)) : option jsstring :=
  match ts with
  | [] => None
  | t :: ts' =>
      match check_target t with
      | Some message => Some message
      | None => first_failure ts'
      end
  end.

Definition is_undefined (v : Value) : bool :=
  match v with
  | VUndefined => true
  | _ => false
  end.

Definition validateRequest (body : Value) : result Validation :=
  if negb (truthy body) || negb (typeof_object body) then
    Ok (Invalid not_object_message)
  else
    let b := body in
    match JSON_stringify b with
    | None => Throw TypeError
    | Some serialized =>
        let bodyStr := toLowerCase serialized in
        match first_keyword bodyStr with
        | Some keyword => Ok (Invalid (write_rejected_message keyword))
        | None =>
            match prop b (lit "targets") with
            | VArr (t :: ts) =>
                match first_failure (indexed (t :: ts)) with
                | Some message => Ok (Invalid message)
                | None =>
                    let mode := prop b (lit "mode") in
                    let instructions := prop b (lit "instructions") in
                    let focus := prop b (lit "focus") in
                    if negb (is_undefined mode) && negb (is_str mode (lit "project"))
                       && negb (is_str mode (lit "generic")) then
                      Ok (Invalid (quoted (lit "mode") ++ lit " must be "
                                   ++ quoted (lit "project") ++ lit " or "
                                   ++ quoted (lit "generic")))
                    else if negb (is_undefined instructions)
                            && negb (typeof_string instructions) then
                      Ok (Invalid (quoted (lit "instructions") ++ lit " must be a string"))
                    else if negb (is_undefined focus)
                            && negb (match focus with
                                     | VArr fs => forallb typeof_string fs
                                     | _ => false
                                     end) then
                      Ok (Invalid (quoted (lit "focus") ++ lit " must be an array of strings"))
                    else
                      Ok (Valid {| targets := t :: ts;
                                   mode := orElse mode (VStr (lit "project"));
                                   instructions := instructions;
                                   focus := focus |})
                end
            | _ => Ok (Invalid (quoted (lit "targets") ++ lit " must be a non-empty array"))
            end
        end
    end.

End Validate.

Import Validate.

(* ================================================================== *)
(** * api/_lib/auth.ts: bearer authentication *)
(* ================================================================== *)

Module Auth.

(** [req.headers["authorization"]]: absent, one value or several. *)
Inductive Header : Type :=
| HMissing
| HSingle (value : jsstring)
| HMany (values : list jsstring).

Inductive AuthResult : Type :=
| AuthOk
| AuthFail (status : Z) (message : jsstring).

(** The longest prefix of white space, and what follows it. *)
Fixpoint span_spaces (s : jsstring) : jsstring * jsstring :=
  match s with
  | c :: s' =>
      if is_space c
      then let (w, t) := span_spaces s' in (c :: w, t)
      else ([], s)
  | [] => ([], [])
  end.

Definition no_line_terminator (s : jsstring) : bool :=
  forallb (fun c => negb (is_line_terminator c)) s.

(** The capture of [/^Bearer\s+(.+)$/i].  After the six letters, [\s+] takes
    the white space [w] and [(.+)] must reach the end of the input [t]
    without a line terminator; when nothing follows the white space, [\s+]
    gives its last unit back to the capture. *)
Definition bearer_capture (header : jsstring) : option jsstring :=
  if startsWith (lit "BEARER") (toUpperCase (firstn 6 header)) then
    let (w, t) := span_spaces (skipn 6 header) in
    match t with
    | _ :: _ =>
        match w with
        | [] => None
        | _ :: _ => if no_line_terminator t then Some t else None
        end
    | [] =>
        match rev w with
        | c :: _ :: _ => if is_line_terminator c then None else Some [c]
        | _ => None
        end
    end
  else None.

Definition authenticate (env : Env) (authHeader : Header) : AuthResult :=
  match GATEWAY_API_KEY env with
  | None | Some [] =>
      AuthFail 500 (lit "Server misconfiguration: GATEWAY_API_KEY not set")
  | Some key =>
      match authHeader with
      | HMissing | HMany _ | HSingle [] =>
          AuthFail 401 (lit "Missing Authorization header")
      | HSingle header =>
          match bearer_capture header with
          | None =>
              AuthFail 401
                (lit "Invalid Authorization header format. Expected: Bearer <token>")
          | Some token =>
              if negb (jseqb token key) then AuthFail 401 (lit "Invalid API key")
              else AuthOk
          end
      end
  end.

End Auth.

Import Auth.

(* ================================================================== *)
(** * api/analyze.ts: the request handler *)
(* ================================================================== *)

Module Analyze.

Record VercelRequest : Type := {
  req_method : jsstring;
  req_authorization : Header;
  req_body : Value
}.

(** What the handler answers: an empty response, [{ ok: false, error }],
    the success payload, or an exception that nothing caught. *)
Inductive Response : Type :=
| Ended (status : Z)
| JsonError (status : Z) (error : jsstring)
| JsonOk (summary : jsstring) (analysis : Value) (snapshot : list NormalizedTarget)
| Uncaught (e : exn).

Definition total_blocks (ts : list NormalizedTarget) : Z :=
  fold_left (fun sum t => sum + blocks_count t) ts 0.

Definition items_length (t : NormalizedTarget) : Z :=
  match items t with
  | Some its => Z.of_nat (List.length its)
  | None => 0
  end.

Definition total_items (ts : list NormalizedTarget) : Z :=
  fold_left (fun sum t => items_length t + sum) ts 0.

Definition buildSummary (ts : list NormalizedTarget) (mode : Value) : jsstring :=
  let titles := join (lit ", ") (map title ts) in
  let totalBlocks := total_blocks ts in
  let totalItems := total_items ts in
  join (lit " | ")
    ([toStringJS mode ++ lit " analysis of: " ++ titles]
     ++ (if totalBlocks >? 0 then [num_to_string totalBlocks ++ lit " blocks"] else [])
     ++ (if totalItems >? 0 then [num_to_string totalItems ++ lit " database items"] else [])).

Definition default_focus : Value :=
  VArr [VStr (lit "sprint"); VStr (lit "tasks"); VStr (lit "risks");
        VStr (lit "next_actions")].

Section Handler.

Variable env : Env.
Variable upstream : Upstream.

(** [buildAnalysis(targets, focus, instructions)]: a pure function of the
    normalised targets that sends nothing and throws nothing.  The handler
    is stated for any such function; the function of the source is
    [Builder.buildAnalysis] further down. *)
Variable buildAnalysis : list NormalizedTarget -> Value -> Value -> Value.

(** One turn of the loop over [request.targets]. *)
Definition process_target (target : Value) : M (list NormalizedTarget) :=
  if is_str (prop target (lit "type")) (lit "page") then
    await! result <- normalizePageTarget env upstream (prop target (lit "id"));
    retM [result]
  else if is_str (prop target (lit "type")) (lit "database") then
    await! result <- normalizeDatabaseTarget env upstream target;
    retM [result]
  else retM [].

(** The loop, from the [normalizedTargets] pushed so far. *)
Fixpoint process_targets (ts : list Value) (normalizedTargets : list NormalizedTarget)
  : M (list NormalizedTarget) :=
  match ts with
  | [] => retM normalizedTargets
  | target :: ts' =>
      await! pushed <- process_target target;
      process_targets ts' (normalizedTargets ++ pushed)
  end.

Definition handler (req : VercelRequest) (log : Log) : Response * Log :=
  if jseqb (req_method req) (lit "OPTIONS") then (Ended 200, log)
  else if negb (jseqb (req_method req) (lit "POST")) then
    (JsonError 405 (lit "Method not allowed. Use POST."), log)
  else
    match authenticate env (req_authorization req) with
    | AuthFail status message => (JsonError status message, log)
    | AuthOk =>
        match validateRequest (req_body req) with
        | Throw e => (Uncaught e, log)
        | Ok (Invalid message) => (JsonError 400 message, log)
        | Ok (Valid request) =>
            match process_targets (targets request) [] log with
            | (Ok normalizedTargets, log') =>
                let focus := orElse (focus request) default_focus in
                let analysis :=
                  buildAnalysis normalizedTargets focus (instructions request) in
                let summary :=
                  buildSummary normalizedTargets
                    (orElse (mode request) (VStr (lit "project"))) in
                (JsonOk summary analysis normalizedTargets, log')
            | (Throw e, log') => (JsonError 500 (exn_message e), log')
            end
        end
    end.

End Handler.

End Analyze.

Import Analyze.

(* ================================================================== *)
(** * Vocabulary of the properties *)
(* ================================================================== *)

(** The gateway refused the call: it threw the BLOCKED error and sent
    nothing. *)
Definition Blocked (env : Env) (upstream : Upstream) (path : jsstring)
    (options : NotionFetchOptions) (log : Log) : Prop :=
  notionFetch env upstream path options log
  = (Throw (Error (blocked_message
                     (toUpperCase (env_or (opt_method options) (lit "GET"))) path)),
     log).

(** The method of a call, as the gateway reads it. *)
Definition method_of (options : NotionFetchOptions) : jsstring :=
  toUpperCase (env_or (opt_method options) (lit "GET")).

(** The request is addressed to the URL that the platform makes of [path]. *)
Definition addressed (upstream : Upstream) (path : jsstring) (rq : Request) : Prop :=
  exists url,
    resolve upstream path = Some url
    /\ rq_origin rq = url_origin url
    /\ rq_path rq = url_pathname url.

(** The request is for the URL that the platform makes of [path], with
    [params] set in its query. *)
Definition request_for (upstream : Upstream) (path : jsstring)
    (params : option (list (jsstring * Value))) (rq : Request) : Prop :=
  exists url,
    resolve upstream path = Some url
    /\ rq_origin rq = url_origin url
    /\ rq_path rq = url_pathname url
    /\ rq_params rq = with_params (url_query url) params.

(** The platform takes the call: it makes a URL of the path, the call has no
    body with GET or HEAD, and [fetch] refuses nothing at this point. *)
Definition taken (upstream : Upstream) (path : jsstring)
    (options : NotionFetchOptions) (log : Log) : Prop :=
  (exists url, resolve upstream path = Some url)
  /\ (truthy (opt_body options) = true ->
      method_of options <> lit "GET" /\ method_of options <> lit "HEAD")
  /\ (forall rq, respond upstream log rq <> Refused).

(** The gateway let the call through: it did not throw the BLOCKED error;
    it sent one request at most, with the method of the call, for the URL
    that the platform makes of its path; and it did send one when the
    platform took the call. *)
Definition Forwarded (env : Env) (upstream : Upstream) (path : jsstring)
    (options : NotionFetchOptions) (log : Log) : Prop :=
  ~ Blocked env upstream path options log
  /\ exists new,
      snd (notionFetch env upstream path options log) = log ++ new
      /\ (List.length new <= 1)%nat
      /\ Forall (fun rq => rq_method rq = method_of options
                          /\ request_for upstream path (opt_params options) rq) new
      /\ (taken upstream path options log -> new <> []).

(** ** Plain paths *)

(** The units of a plain path: letters, digits, [-], [_] and [/]. *)
Definition plain_unit (c : N) : bool :=
  ((97 <=? c)%N && (c <=? 122)%N) || ((65 <=? c)%N && (c <=? 90)%N)
  || ((48 <=? c)%N && (c <=? 57)%N)
  || (c =? 45)%N || (c =? 95)%N || (c =? 47)%N.

(** A plain path starts with one slash, not with two, and has plain units
    only: no dot, no question mark, no hash, nothing to encode. *)
Definition plain_path (p : jsstring) : bool :=
  match p with
  | 47%N :: rest =>
      match rest with
      | 47%N :: _ => false
      | _ => true
      end && forallb plain_unit rest
  | _ => false
  end.

(** The URL of a plain path below the base. *)
Definition plain_url (p : jsstring) : Url :=
  {| url_origin := NOTION_BASE; url_pathname := p; url_query := [] |}.

(** The parser leaves plain paths as they are, which the URL parser of the
    platform does. *)
Definition resolves_plain (upstream : Upstream) : Prop :=
  forall p, plain_path p = true -> resolve upstream p = Some (plain_url p).

Definition with_method (m : jsstring) (body : Value)
    (params : option (list (jsstring * Value))) : NotionFetchOptions :=
  {| opt_method := Some m; opt_body := body; opt_params := params |}.

(** The upstream credential is configured. *)
Definition token_set (env : Env) : Prop :=
  exists c token, NOTION_TOKEN env = Some (c :: token).

(** ** Request bodies *)

(** The body is what [typeof] calls an object, and not [null]. *)
Definition is_object (body : Value) : bool := truthy body && typeof_object body.

(** The page targets of a snapshot. *)
Definition page_targets (ts : list NormalizedTarget) : list NormalizedTarget :=
  filter (fun t => jseqb (target_type t) (lit "page")) ts.

(** ** Typed properties *)



(** A rich-text payload: when it is an array, its spans are records. *)
Definition rich_text_ok (v : Value) : Prop :=
  match v with
  | VArr items => Forall (fun x => nullish x = false) items
  | _ => True
  end.

(** A list payload: absent, or an array of records. *)
Definition record_list_ok (v : Value) : Prop :=
  match orElse v (VArr []) with
  | VArr items => Forall (fun x => nullish x = false) items
  | _ => False
  end.

(** A typed property, as far as the casts in [extractSimpleProperties] rely
    on it: a record whose payload, for the five discriminants that are
    mapped over, has the array shape the cast declares.  Nothing is asked
    of a property with any other discriminant, recognised or not. *)
Definition typed_property (p : Value) : Prop :=
  nullish p = false
  /\ (is_str (prop p (lit "type")) (lit "title") = true ->
      rich_text_ok (prop p (lit "title")))
  /\ (is_str (prop p (lit "type")) (lit "rich_text") = true ->
      rich_text_ok (prop p (lit "rich_text")))
  /\ (is_str (prop p (lit "type")) (lit "multi_select") = true ->
      record_list_ok (prop p (lit "multi_select")))
  /\ (is_str (prop p (lit "type")) (lit "people") = true ->
      record_list_ok (prop p (lit "people")))
  /\ (is_str (prop p (lit "type")) (lit "relation") = true ->
      record_list_ok (prop p (lit "relation"))).


(** ** Trees of content *)

(** The content below a page as the external store holds it: a block and
    the trees of its children, in listing order. *)
Inductive Tree : Type :=
| Node (block : Value) (children : list Tree).

Definition root_block (t : Tree) : Value :=
  match t with
  | Node b _ => b
  end.

(** Induction on a tree with the hypothesis for every child. *)
Section TreeInduction.

Variable P : Tree -> Prop.
Hypothesis step : forall b kids, Forall P kids -> P (Node b kids).

Fixpoint Tree_forest_ind (t : Tree) : P t :=
  match t with
  | Node b kids =>
      step b
        ((fix all (ks : list Tree) : Forall P ks :=
            match ks with
            | [] => Forall_nil P
            | k :: ks' => Forall_cons k (Tree_forest_ind k) (all ks')
            end) kids)
  end.

End TreeInduction.

(** The pre-order walk of a tree whose root is at depth [d]: the root, then
    the whole subtree of each child in turn. *)
Fixpoint walk (d : Z) (t : Tree) : list FlatBlock :=
  match t with
  | Node b kids => flat b d :: flat_map (walk (d + 1)) kids
  end.

(** Every descendant of a page lying within depth [D], in pre-order; the
    children of the page are at depth 0. *)
Definition descendants_within (D : Z) (forest : list Tree) : list FlatBlock :=
  filter (fun fb => fb_depth fb <=? D) (flat_map (walk 0) forest).

(** The same walk, not descending below depth [D]. *)
Fixpoint walk_within (D d : Z) (t : Tree) : list FlatBlock :=
  match t with
  | Node b kids =>
      flat b d :: (if d <? D then flat_map (walk_within D (d + 1)) kids else [])
  end.

(** The store lists [blocks] as the children of [id], whenever asked: the
    path of the listing makes a URL, and every GET addressed to it is
    answered with these blocks. *)
Definition lists_children (upstream : Upstream) (id : Value) (blocks : list Value)
  : Prop :=
  (exists url, resolve upstream (children_path id) = Some url)
  /\ forall log rq,
      rq_method rq = lit "GET" ->
      addressed upstream (children_path id) rq ->
      exists status text resp,
        respond upstream log rq = Http status text (Some resp)
        /\ res_ok status = true
        /\ get resp (lit "results") = Ok (VArr blocks).

(** The store holds the tree [t]: its blocks are records, a block flagged
    [has_children] lists exactly the roots of its subtrees, and a block
    without the flag has none. *)
Fixpoint served (upstream : Upstream) (t : Tree) : Prop :=
  match t with
  | Node b kids =>
      nullish b = false
      /\ (if truthy (prop b (lit "has_children"))
          then lists_children upstream (prop b (lit "id")) (map root_block kids)
          else kids = [])
      /\ (fix all (ks : list Tree) : Prop :=
            match ks with
            | [] => True
            | k :: ks' => served upstream k /\ all ks'
            end) kids
  end.

(** The blocks of one page of a listing: the traversal asks for pages of
    100 and reads the first one only. *)
Definition LISTING_PAGE : nat := 100.

(** The store holds the tree [t] and lists children a page at a time: a
    block flagged [has_children] is answered with the first page of the
    roots of its subtrees. *)
Fixpoint held (upstream : Upstream) (t : Tree) : Prop :=
  match t with
  | Node b kids =>
      nullish b = false
      /\ (if truthy (prop b (lit "has_children"))
          then lists_children upstream (prop b (lit "id"))
                 (firstn LISTING_PAGE (map root_block kids))
          else kids = [])
      /\ (fix all (ks : list Tree) : Prop :=
            match ks with
            | [] => True
            | k :: ks' => held upstream k /\ all ks'
            end) kids
  end.

(** No block of the tree has more children than one page of a listing
    holds. *)
Fixpoint narrow (t : Tree) : bool :=
  match t with
  | Node _ kids =>
      (List.length kids <=? LISTING_PAGE)%nat
      && (fix all (ks : list Tree) : bool :=
            match ks with
            | [] => true
            | k :: ks' => narrow k && all ks'
            end) kids
  end.

(** ** Invariants of the traversal *)

Section TraversalInvariants.

Variable env : Env.
Variable upstream : Upstream.

(** What one call of [recurse] at depth [d] may do to the [result] array:
    append blocks at depth [d] or deeper, none of them beyond the ceiling,
    and never grow the array beyond the budget. *)
Definition extends_within (d : Z) (acc acc' : list FlatBlock) : Prop :=
  exists new,
    acc' = acc ++ new
    /\ Forall (fun b => d <= fb_depth b /\ gtN (fb_depth b) (maxDepth env) = false) new
    /\ (forall N, maxBlocks env = Some N ->
                  Z.of_nat (List.length acc') <= Z.max (Z.of_nat (List.length acc)) N).

Definition call_bounded
    (f : Value -> Z -> list FlatBlock -> Log -> option Fetched) : Prop :=
  forall pid d acc log r acc' log',
    f pid d acc log = Some (r, acc', log') -> extends_within d acc acc'.

(** The number of levels still below the ceiling at depth [d]. *)
Definition levels_left (d : Z) : nat :=
  match maxDepth env with
  | Some D => Z.to_nat (D - d)
  | None => 0%nat
  end.

Definition call_returns (d : Z)
    (f : Value -> Z -> list FlatBlock -> Log -> option Fetched) : Prop :=
  forall pid acc log, f pid d acc log <> None.

Variables D N : Z.

(** The budget leaves room for the blocks still to come. *)
Definition room (acc : list FlatBlock) (d : Z) (kids : list Tree) : Prop :=
  Z.of_nat (List.length acc)
  + Z.of_nat (List.length (flat_map (walk_within D d) kids)) <= N.

Definition call_exact (d : Z)
    (f : Value -> Z -> list FlatBlock -> Log -> option Fetched) : Prop :=
  forall pid kids acc log,
    lists_children upstream pid (map root_block kids) ->
    Forall (served upstream) kids ->
    room acc d kids ->
    exists log',
      f pid d acc log = Some (Ok tt, acc ++ flat_map (walk_within D d) kids, log').

End TraversalInvariants.



(** A page target within the budget, or a database target without blocks. *)
Definition target_bounded (N : Z) (t : NormalizedTarget) : Prop :=
  (target_type t = lit "page" /\ 0 <= blocks_count t <= N)
  \/ (target_type t = lit "database" /\ blocks_count t = 0).

(* ================================================================== *)
(** * Scenarios *)
(* ================================================================== *)

Module Scenario.

Definition env0 : Env :=
  {| GATEWAY_API_KEY := Some (lit "k");
     NOTION_TOKEN := Some (lit "secret");
     NOTION_VERSION := None;
     MAX_BLOCKS := None;
     MAX_DEPTH := None;
     DB_PAGE_LIMIT := None |}.

(** ** The URL parser of the scenarios *)

(** The units that this parser reads: those of a plain path and
    [. ~ ? # = &]. *)
Definition url_unit (c : N) : bool :=
  plain_unit c || existsb (N.eqb c) [46; 126; 63; 35; 61; 38]%N.

(** [s] up to the first [c], and what follows that [c]. *)
Fixpoint cut (c : N) (s : jsstring) : jsstring * option jsstring :=
  match s with
  | [] => ([], None)
  | x :: s' =>
      if (x =? c)%N then ([], Some s')
      else
        match cut c s' with
        | (before, after) => (x :: before, after)
        end
  end.

(** [s.split(c)]. *)
Fixpoint split (c : N) (s : jsstring) : list jsstring :=
  match s with
  | [] => [[]]
  | x :: s' =>
      if (x =? c)%N then [] :: split c s'
      else
        match split c s' with
        | seg :: rest => (x :: seg) :: rest
        | [] => [[x]]
        end
  end.

(** The segments of a path, one after the other: [..] takes the last
    segment away, [.] adds none, and either leaves an empty segment behind
    when it is the last one. *)
Fixpoint path_segments (segs path : list jsstring) : list jsstring :=
  match segs with
  | [] => path
  | seg :: rest =>
      let last := match rest with [] => true | _ => false end in
      if jseqb seg (lit "..") then
        path_segments rest (removelast path ++ (if last then [[]] else []))
      else if jseqb seg (lit ".") then
        path_segments rest (path ++ (if last then [[]] else []))
      else path_segments rest (path ++ [seg])
  end.

Definition pathname_of (path : list jsstring) : jsstring :=
  flat_map (fun seg => 47%N :: seg) path.

(** The pairs of a query string: its pieces between [&], the empty ones
    left out, each cut at its first [=]. *)
Definition query_pairs (query : jsstring) : list (jsstring * jsstring) :=
  flat_map (fun piece =>
              match piece with
              | [] => []
              | _ => [(fst (cut 61 piece),
                       match snd (cut 61 piece) with
                       | Some v => v
                       | None => []
                       end)]
              end)
    (split 38 query).

(** The URL parser of the scenarios.  It reads the references that the read
    operations build from ids written in letters, digits and
    [- _ . ~ / ? # = &]: one slash first, then such units.  On these it
    does what the parser of the platform does: the fragment is cut off at
    the first [#], the query at the first [?], and the dot segments of the
    path are resolved.  Any other reference is outside of it, and it gives
    no URL. *)
Definition parse_url (reference : jsstring) : option Url :=
  match reference with
  | 47%N :: rest =>
      if match rest with
         | 47%N :: _ => true
         | _ => false
         end
      then None
      else if negb (forallb url_unit rest) then None
      else
        let before_hash := fst (cut 35 rest) in
        Some {| url_origin := NOTION_BASE;
                url_pathname :=
                  pathname_of (path_segments (split 47 (fst (cut 63 before_hash))) []);
                url_query :=
                  match snd (cut 63 before_hash) with
                  | Some query => query_pairs query
                  | None => []
                  end |}
  | _ => None
  end.

(** An external store that answers every request with an empty listing. *)
Definition empty_store : Upstream :=
  {| resolve := parse_url;
     respond := fun _ _ => Http 200 [] (Some (VObj [(lit "results", VArr [])])) |}.

(** A paragraph block whose text is its own id. *)
Definition block (id : string) (has_children : bool) : Value :=
  VObj [(lit "id", VStr (lit id));
        (lit "type", VStr (lit "paragraph"));
        (lit "has_children", VBool has_children);
        (lit "paragraph",
         VObj [(lit "rich_text", VArr [VObj [(lit "plain_text", VStr (lit id))]])])].

Definition listing (blocks : list Value) : HttpResponse :=
  Http 200 [] (Some (VObj [(lit "results", VArr blocks)])).

Definition page_json : Value :=
  VObj [(lit "id", VStr (lit "root"));
        (lit "properties",
         VObj [(lit "Name",
                VObj [(lit "type", VStr (lit "title"));
                      (lit "title", VArr [VObj [(lit "plain_text", VStr (lit "Plan"))]])])])].

(** A store holding one page [root] with children [a] and [b], where [a]
    has one child [a1]; every other page id resolves to the same page
    record, and nothing else exists. *)
Definition small_store : Upstream :=
  {| resolve := parse_url;
     respond := fun _ rq =>
       if jseqb (rq_path rq) (children_path (VStr (lit "root")))
       then listing [block "a" true; block "b" false]
       else if jseqb (rq_path rq) (children_path (VStr (lit "a")))
       then listing [block "a1" false]
       else if startsWith (lit "/v1/pages/") (rq_path rq)
       then Http 200 [] (Some page_json)
       else Http 404 (lit "not found") None |}.

(** A block without children, numbered [i]. *)
Definition leaf (i : nat) : Value :=
  VObj [(lit "id", VStr (lit "c" ++ num_to_string (Z.of_nat i)));
        (lit "type", VStr (lit "divider"));
        (lit "has_children", VBool false);
        (lit "divider", VObj [])].

(** The 101 children of a wide page, and the page as a forest. *)
Definition wide_blocks : list Value := map leaf (seq 0 101).

Definition wide_forest : list Tree := map (fun b => Node b []) wide_blocks.

(** A store holding one page [root] with these 101 children.  Asked for
    them, it answers as the external store does: with the first page of
    100 and the announcement of more. *)
Definition wide_store : Upstream :=
  {| resolve := parse_url;
     respond := fun _ rq =>
       if jseqb (rq_path rq) (children_path (VStr (lit "root")))
       then Http 200 []
              (Some (VObj [(lit "results", VArr (firstn 100 wide_blocks));
                           (lit "has_more", VBool true);
                           (lit "next_cursor", VStr (lit "c100"))]))
       else Http 404 (lit "not found") None |}.

(** The tree that [small_store] holds below [root]. *)
Definition small_forest : list Tree :=
  [Node (block "a" true) [Node (block "a1" false) []];
   Node (block "b" false) []].

(** A number property. *)
Definition number_property (n : Z) : Value :=
  VObj [(lit "type", VStr (lit "number")); (lit "number", VNum n)].

(** Three properties, the second of them named [__proto__]. *)
Definition proto_properties : list (jsstring * Value) :=
  [(lit "a", number_property 1);
   (lit "__proto__", number_property 2);
   (lit "b", number_property 3)].

(** A database row with these properties. *)
Definition proto_row : Value :=
  VObj [(lit "id", VStr (lit "r1")); (lit "properties", VObj proto_properties)].


(** The letter [a], [n] times. *)
Definition letters (n : Z) : jsstring := List.repeat 97%N (Z.to_nat n).

(** A database row with a title and a status. *)
Definition row (id name : string) : Value :=
  VObj [(lit "id", VStr (lit id));
        (lit "properties",
         VObj [(lit "Name",
                VObj [(lit "type", VStr (lit "title"));
                      (lit "title", VArr [VObj [(lit "plain_text", VStr (lit name))]])]);
               (lit "Status",
                VObj [(lit "type", VStr (lit "select"));
                      (lit "select", VObj [(lit "name", VStr (lit "Done"))])])])].

(** [small_store], with every database query answered by two rows. *)
Definition db_store : Upstream :=
  {| resolve := parse_url;
     respond := fun log rq =>
       if startsWith (lit "/v1/databases/") (rq_path rq)
       then listing [row "r1" "Write plan"; row "r2" "Ship"]
       else respond small_store log rq |}.

(** A POST request carrying the key of [env0]. *)
Definition post (body : Value) : VercelRequest :=
  {| req_method := lit "POST";
     req_authorization := HSingle (lit "Bearer k");
     req_body := body |}.

Definition page_target (id : string) : Value :=
  VObj [(lit "type", VStr (lit "page")); (lit "id", VStr (lit id))].

Definition database_target (id : string) (extra : list (jsstring * Value)) : Value :=
  VObj ([(lit "type", VStr (lit "database")); (lit "id", VStr (lit id))] ++ extra).

Definition body_of (ts : list Value) : Value := VObj [(lit "targets", VArr ts)].

(** A request whose target carries a key named [delete]. *)
Definition delete_body : Value :=
  body_of [VObj [(lit "type", VStr (lit "page")); (lit "id", VStr (lit "root"));
                 (lit "delete", VBool true)]].

(** A page that exists, then a database that the store does not have. *)
Definition page_then_missing : Value :=
  body_of [page_target "root"; database_target "db1" []].

(** A budget of one block per traversal. *)
Definition env_one_block : Env :=
  {| GATEWAY_API_KEY := Some (lit "k");
     NOTION_TOKEN := Some (lit "secret");
     NOTION_VERSION := None;
     MAX_BLOCKS := Some (lit "1");
     MAX_DEPTH := None;
     DB_PAGE_LIMIT := None |}.

Definition two_pages : Value := body_of [page_target "root"; page_target "a"].

(** A database target whose query asks for pages of 100. *)
Definition greedy_query : Value := VObj [(lit "page_size", VNum 100)].

Definition greedy_database : Value :=
  body_of [database_target "db1" [(lit "query", greedy_query)]].

(** The analysis builder is irrelevant to what is shown here. *)
Definition no_analysis : list NormalizedTarget -> Value -> Value -> Value :=
  fun _ _ _ => VObj [].

End Scenario.

(* ================================================================== *)
(** * Further vocabulary: what goes over the network *)
(* ================================================================== *)

(** A request that the gateway has let through: the path it was made of
    passed the guard under the method of the request, and it carries the
    configured credential and the protocol version.  The guard saw that
    path, not the path of the URL that the platform made of it. *)
Definition guarded_request (env : Env) (upstream : Upstream) (rq : Request) : Prop :=
  (exists path,
      isWriteCall (rq_method rq) path = false
      /\ addressed upstream path rq)
  /\ (exists c token,
        NOTION_TOKEN env = Some (c :: token)
        /\ rq_authorization rq = lit "Bearer " ++ c :: token)
  /\ rq_version rq = env_or (NOTION_VERSION env) (lit "2022-06-28").

(** The parameters of a listing call. *)
Definition listing_params : option (list (jsstring * Value)) :=
  Some [(lit "page_size", VNum 100)].

(** The three calls that the read operations make, each for the URL that
    the platform makes of the path of the operation. *)
Definition page_request (upstream : Upstream) (rq : Request) : Prop :=
  rq_method rq = lit "GET"
  /\ (exists id, request_for upstream (page_path id) None rq)
  /\ rq_body rq = None.

Definition children_request (upstream : Upstream) (rq : Request) : Prop :=
  rq_method rq = lit "GET"
  /\ (exists id, request_for upstream (children_path id) listing_params rq)
  /\ rq_body rq = None.

Definition query_request (env : Env) (upstream : Upstream) (rq : Request) : Prop :=
  rq_method rq = lit "POST"
  /\ exists id query,
      request_for upstream (query_path id) None rq
      /\ rq_body rq = JSON_stringify (query_body env query).

Definition read_request (env : Env) (upstream : Upstream) (rq : Request) : Prop :=
  page_request upstream rq \/ children_request upstream rq
  \/ query_request env upstream rq.

(** The path of one of the three read operations, under the method that
    goes with it. *)
Definition read_path (method path : jsstring) : Prop :=
  (method = lit "GET" /\ exists id, path = page_path id)
  \/ (method = lit "GET" /\ exists id, path = children_path id)
  \/ (method = lit "POST" /\ exists id, path = query_path id).

(** The request was made of the path of a read operation, and when that
    path is plain and the platform leaves plain paths as they are, it goes
    to that very path below the base and is no write call by its own method
    and path. *)
Definition lands_on_read (upstream : Upstream) (rq : Request) : Prop :=
  exists path,
    read_path (rq_method rq) path
    /\ addressed upstream path rq
    /\ (resolves_plain upstream ->
        plain_path path = true ->
        rq_origin rq = NOTION_BASE
        /\ rq_path rq = path
        /\ isWriteCall (rq_method rq) (rq_path rq) = false).

(** A count that stays within a bound, where [None] is no bound at all. *)
Definition within (n : nat) (bound : option nat) : Prop :=
  match bound with
  | Some b => (n <= b)%nat
  | None => True
  end.

Definition plus_bound (a b : option nat) : option nat :=
  match a, b with
  | Some x, Some y => Some (x + y)%nat
  | _, _ => None
  end.

Definition times_bound (n : nat) (b : option nat) : option nat :=
  option_map (Nat.mul n) b.

(** An [async] function sends requests that are all [P], at most [bound] of
    them, after the requests sent before it. *)
Definition sends_within {A} (P : Request -> Prop) (bound : option nat) (m : M A)
  : Prop :=
  forall log,
    exists new,
      snd (m log) = log ++ new
      /\ Forall P new
      /\ within (List.length new) bound.

(** The listing calls one traversal can make: one for the page and one for
    each block it has emitted. *)
Definition traversal_calls (env : Env) : option nat :=
  match maxBlocks env with
  | Some N => Some (S (Z.to_nat N))
  | None => None
  end.

(** The calls one target can cost: the page record and its traversal. *)
Definition target_calls (env : Env) : option nat :=
  plus_bound (Some 1%nat) (traversal_calls env).

(** Each block is at most one level deeper than the block before it, and
    the first one at most one level deeper than [prev]. *)
Fixpoint steps_ok (prev : Z) (blocks : list FlatBlock) : Prop :=
  match blocks with
  | [] => True
  | b :: rest => fb_depth b <= prev + 1 /\ steps_ok (fb_depth b) rest
  end.

(** A listing call as the gateway lets it through. *)
Definition listing_call (env : Env) (upstream : Upstream) (rq : Request) : Prop :=
  children_request upstream rq /\ guarded_request env upstream rq.

(** What a call of [recurse] at depth [d] adds: blocks at depth [d] or
    deeper that go down one level at a time, and listing calls, at most
    [spare] more of them than blocks. *)
Definition traversal_step (env : Env) (upstream : Upstream) (spare : nat) (d : Z)
    (acc acc' : list FlatBlock) (log log' : Log) : Prop :=
  exists blocks calls,
    acc' = acc ++ blocks
    /\ log' = log ++ calls
    /\ Forall (listing_call env upstream) calls
    /\ (List.length calls <= spare + List.length blocks)%nat
    /\ Forall (fun b => d <= fb_depth b) blocks
    /\ steps_ok (d - 1) blocks.

(** Every call of [f] is such a step, with one call to spare. *)
Definition call_steps (env : Env) (upstream : Upstream)
    (f : Value -> Z -> list FlatBlock -> Log -> option Fetched) : Prop :=
  forall pid d acc log r acc' log',
    f pid d acc log = Some (r, acc', log') ->
    traversal_step env upstream 1 d acc acc' log log'.

(** [a] is at most [b], with [None] above every number. *)
Definition bound_le (a b : option nat) : Prop :=
  match b with
  | None => True
  | Some y => match a with Some x => (x <= y)%nat | None => False end
  end.

(** A request of one of the three read shapes that went through the guard. *)
Definition safe_request (env : Env) (upstream : Upstream) (rq : Request) : Prop :=
  read_request env upstream rq /\ guarded_request env upstream rq.

(** The walk of [kids] at depth [d], cut where the budget [N] is used up,
    after the blocks in [acc]. *)
Definition walk_in_budget (D N d : Z) (acc : list FlatBlock) (kids : list Tree)
  : list FlatBlock :=
  acc ++ firstn (Z.to_nat (N - Z.of_nat (List.length acc)))
           (flat_map (walk_within D d) kids).

(** Every call of [f] at depth [d] on a block whose children the store
    lists returns that cut walk. *)
Definition call_prefix (upstream : Upstream) (D N d : Z)
    (f : Value -> Z -> list FlatBlock -> Log -> option Fetched) : Prop :=
  forall pid kids acc log,
    lists_children upstream pid (map root_block kids) ->
    Forall (served upstream) kids ->
    exists log',
      f pid d acc log = Some (Ok tt, walk_in_budget D N d acc kids, log').

(* ================================================================== *)
(** * Further scenarios *)
(* ================================================================== *)

Module Sample.

(** A budget of two blocks per traversal. *)
Definition env_two_blocks : Env :=
  {| GATEWAY_API_KEY := Some (lit "k");
     NOTION_TOKEN := Some (lit "secret");
     NOTION_VERSION := None;
     MAX_BLOCKS := Some (lit "2");
     MAX_DEPTH := None;
     DB_PAGE_LIMIT := None |}.

(** [env0] with other traversal limits. *)
Definition with_limits (depth blocks : option jsstring) : Env :=
  {| GATEWAY_API_KEY := Some (lit "k");
     NOTION_TOKEN := Some (lit "secret");
     NOTION_VERSION := None;
     MAX_BLOCKS := blocks;
     MAX_DEPTH := depth;
     DB_PAGE_LIMIT := None |}.

(** [env0] without the upstream credential. *)
Definition env_no_token : Env :=
  {| GATEWAY_API_KEY := Some (lit "k");
     NOTION_TOKEN := None;
     NOTION_VERSION := None;
     MAX_BLOCKS := None;
     MAX_DEPTH := None;
     DB_PAGE_LIMIT := None |}.

(** A store whose every answer is one row and the promise of more. *)
Definition paged_store : Upstream :=
  {| resolve := Scenario.parse_url;
     respond := fun _ _ =>
       Http 200 []
         (Some (VObj [(lit "results", VArr [Scenario.row "r1" "First"]);
                      (lit "has_more", VBool true);
                      (lit "next_cursor", VStr (lit "c2"))])) |}.

(** The request that the retrieval of page [abc] sends under [env0]. *)
Definition page_call : Request :=
  fetch_call (lit "GET") (plain_url (lit "/v1/pages/abc")) no_options
    (lit "secret") (lit "2022-06-28").

(** A checked to-do item. *)
Definition todo_block : Value :=
  VObj [(lit "type", VStr (lit "to_do"));
        (lit "to_do",
         VObj [(lit "rich_text", VArr [VObj [(lit "plain_text", VStr (lit "Ship"))]]);
               (lit "checked", VBool true)])].

(** A page whose title property has an unconventional name. *)
Definition task_title : Value :=
  VObj [(lit "type", VStr (lit "title"));
        (lit "title", VArr [VObj [(lit "plain_text", VStr (lit "Fix "))];
                            VObj [(lit "plain_text", VStr (lit "login"))]])].

Definition task_properties : list (jsstring * Value) :=
  [(lit "Status",
    VObj [(lit "type", VStr (lit "select"));
          (lit "select", VObj [(lit "name", VStr (lit "Done"))])]);
   (lit "Task", task_title)].

Definition task_page : Value :=
  VObj [(lit "id", VStr (lit "p1")); (lit "properties", VObj task_properties)].

(** Two to-do items, the second one open and one level down. *)
Definition open_block : Value :=
  VObj [(lit "type", VStr (lit "to_do"));
        (lit "to_do",
         VObj [(lit "rich_text", VArr [VObj [(lit "plain_text", VStr (lit "Test it"))]]);
               (lit "checked", VBool false)])].

Definition todo_page : list FlatBlock :=
  [{| fb_id := VStr (lit "b1"); fb_type := VStr (lit "to_do");
      fb_depth := 0; fb_data := todo_block |};
   {| fb_id := VStr (lit "b2"); fb_type := VStr (lit "to_do");
      fb_depth := 1; fb_data := open_block |}].

Definition todo_page_text : jsstring :=
  lit "[x] Ship" ++ newline ++ lit "  [ ] Test it".

(** A database target with three rows, and a page target. *)
Definition plain_item (name : string) : NormalizedDatabaseItem :=
  {| item_id := VStr (lit name); item_title := lit name;
     item_properties := [(lit "status", VStr (lit "Open"))];
     item_properties_raw := VObj [] |}.

Definition rows_target : NormalizedTarget :=
  {| target_type := lit "database"; target_id := VStr (lit "d1");
     title := lit "Database (3 items)"; properties := [];
     content_text := lit "1. a"; blocks_count := 0;
     items := Some [plain_item "a"; plain_item "b"; plain_item "c"] |}.

Definition todo_target : NormalizedTarget :=
  {| target_type := lit "page"; target_id := VStr (lit "p1");
     title := lit "Plan"; properties := [];
     content_text := todo_page_text; blocks_count := 2;
     items := None |}.

(** A database row whose status is set. *)
Definition status_done : Value :=
  VObj [(lit "type", VStr (lit "status"));
        (lit "status", VObj [(lit "name", VStr (lit "Done"))])].

Definition done_row : Value :=
  VObj [(lit "id", VStr (lit "r1"));
        (lit "properties",
         VObj [(lit "Name", task_title); (lit "Status", status_done)])].

Definition done_item : NormalizedDatabaseItem :=
  {| item_id := VStr (lit "r1");
     item_title := lit "Fix login";
     item_properties := [(lit "Name", VStr (lit "Fix login"));
                         (lit "Status", VStr (lit "Done"))];
     item_properties_raw := VObj [(lit "Name", task_title); (lit "Status", status_done)] |}.

(** A database id with a dot segment and a question mark, and the URL that
    the platform makes of the query path built from it: the path of page
    creation, the rest of the query path in the query. *)
Definition dotted_id : Value := VStr (lit "../pages?x=").

Definition dotted_url : Url :=
  {| url_origin := NOTION_BASE;
     url_pathname := lit "/v1/pages";
     url_query := [(lit "x", lit "/query")] |}.

End Sample.

(* ================================================================== *)
(** * Further vocabulary: requests that were accepted *)
(* ================================================================== *)

(** A target as validation leaves it: a record of type [page] or
    [database] whose id is a non-empty string. *)
Definition valid_target (t : Value) : Prop :=
  truthy t = true
  /\ typeof_object t = true
  /\ (prop t (lit "type") = VStr (lit "page")
      \/ prop t (lit "type") = VStr (lit "database"))
  /\ exists c id, prop t (lit "id") = VStr (c :: id).

(** A normalised target stands for the requested target [t]. *)
Definition answers (t : Value) (nt : NormalizedTarget) : Prop :=
  prop t (lit "type") = VStr (target_type nt)
  /\ prop t (lit "id") = target_id nt.

Definition no_token_message : jsstring :=
  lit "Server misconfiguration: NOTION_TOKEN not set".

(* ================================================================== *)
(** * Further vocabulary: blocks and titles *)
(* ================================================================== *)



(** The indentation of a line at depth [d]. *)
Definition indentation (depth : Z) : jsstring :=
  List.repeat 32%N (2 * Z.to_nat depth).

(** A title property with at least one span, all of them records. *)
Definition title_property (p : Value) (spans : list Value) : Prop :=
  nullish p = false
  /\ prop p (lit "type") = VStr (lit "title")
  /\ prop p (lit "title") = VArr spans
  /\ spans <> []
  /\ Forall (fun t => nullish t = false) spans.

(** The text of a title: the [plain_text] of its spans, one after the
    other, a span without one counting as empty. *)
Definition title_text (spans : list Value) : jsstring :=
  joinValues [] (map (fun t => orElse (prop t (lit "plain_text")) (VStr [])) spans).

(** A property that is not of type [title]. *)
Definition not_a_title (p : Value) : Prop :=
  is_str (getOpt p (lit "type")) (lit "title") = false.

(* ================================================================== *)
(** * The analysis builder *)
(* ================================================================== *)

Module Builder.

(** ** The to-do pattern [/\[[ x]\]\s+(.+)/g] *)

(** The units that [.] takes from the head of [s]: all of them up to the
    first line terminator. *)
Fixpoint dot_run (s : jsstring) : jsstring :=
  match s with
  | c :: s' => if is_line_terminator c then [] else c :: dot_run s'
  | [] => []
  end.

(** [(.+)] at the head of [s]: the group is greedy and must not be empty. *)
Definition dots (s : jsstring) : option jsstring :=
  match dot_run s with
  | [] => None
  | run => Some run
  end.

(** [\s*(.+)] at the head of [s].  The star is greedy: one more blank is
    tried first and given back when the rest does not match.  The result is
    the blanks taken and the group. *)
Fixpoint blanks_then_dots (s : jsstring) : option (jsstring * jsstring) :=
  let here := option_map (fun group => ([], group)) (dots s) in
  match s with
  | c :: s' =>
      if is_space c then
        match blanks_then_dots s' with
        | Some (blanks, group) => Some (c :: blanks, group)
        | None => here
        end
      else here
  | [] => here
  end.

(** The whole pattern at the head of [s]: the matched text [match[0]] and
    the group [match[1]]. *)
Definition match_here (s : jsstring) : option (jsstring * jsstring) :=
  match s with
  | opening :: box :: closing :: c :: s' =>
      if (opening =? 91)%N && ((box =? 32)%N || (box =? 120)%N) && (closing =? 93)%N
         && is_space c
      then
        match blanks_then_dots s' with
        | Some (blanks, group) =>
            Some (opening :: box :: closing :: c :: blanks ++ group, group)
        | None => None
        end
      else None
  | _ => None
  end.

(** The loop [while ((match = todoPattern.exec(allContent)) !== null)]: the
    pattern is tried at each position from [lastIndex] on, the leftmost
    match is taken and the search resumes behind it.  [skip] counts the
    units of the last match that are still to be passed over. *)
Fixpoint matches (skip : nat) (s : jsstring) : list (jsstring * jsstring) :=
  match s with
  | [] => []
  | _ :: s' =>
      match skip with
      | S k => matches k s'
      | O =>
          match match_here s with
          | Some (whole, group) =>
              (whole, group) :: matches (Nat.pred (List.length whole)) s'
          | None => matches 0 s'
          end
      end
  end.

(** [{ task: match[1], done: match[0].startsWith("[x]") }]. *)
Definition task_of (m : jsstring * jsstring) : Value :=
  VObj [(lit "task", VStr (snd m));
        (lit "done", VBool (startsWith (lit "[x]") (fst m)))].

(** The to-do items of a text. *)
Definition tasks_in (allContent : jsstring) : list Value :=
  map task_of (matches 0 allContent).

(** [{ title: item.title,
       status: item.properties["Status"] ?? item.properties["status"] ?? "unknown" }]. *)
Definition db_task_of (item : NormalizedDatabaseItem) : Value :=
  VObj [(lit "title", VStr (item_title item));
        (lit "status",
         orElse (orElse (lookup (lit "Status") (item_properties item))
                        (lookup (lit "status") (item_properties item)))
                (VStr (lit "unknown")))].

(** [targets.flatMap((t) => t.items ?? [])]. *)
Definition all_items (targets : list NormalizedTarget) : list NormalizedDatabaseItem :=
  flat_map (fun t => match items t with
                     | Some its => its
                     | None => []
                     end) targets.

(** [focus.includes(name)] on an array of strings. *)
Definition focus_includes (focus : list jsstring) (name : jsstring) : bool :=
  existsb (jseqb name) focus.

Definition count {A} (xs : list A) : Z := Z.of_nat (List.length xs).

(** [buildAnalysis(targets, focus, instructions)], with the types of its
    signature: [focus] is an array of strings and [instructions] a string
    or absent.  The result is the object [result], its keys in the order in
    which they are set. *)
Definition buildAnalysis (targets : list NormalizedTarget) (focus : list jsstring)
           (instructions : option jsstring) : Value :=
  let allContent := join newline (map content_text targets) in
  let allItems := all_items targets in
  let totalBlocks := total_blocks targets in
  let tasks := tasks_in allContent in
  let dbTasks := map db_task_of allItems in
  VObj
    ([(lit "status",
       VStr (lit "Analyzed " ++ num_to_string (count targets) ++ lit " target(s): "
             ++ num_to_string totalBlocks ++ lit " blocks, "
             ++ num_to_string (count allItems) ++ lit " database items"))]
     ++ (if focus_includes focus (lit "tasks") || focus_includes focus (lit "sprint")
         then [(lit "tasks_found", VNum (count tasks + count dbTasks));
               (lit "tasks_sample", VArr (firstn 10 tasks ++ firstn 10 dbTasks))]
         else [])
     ++ (if focus_includes focus (lit "risks")
         then [(lit "risks",
                VArr [VStr (lit "Review the notion_snapshot for full context to identify project risks.");
                      VStr (lit "Content includes " ++ num_to_string totalBlocks
                            ++ lit " blocks and " ++ num_to_string (count allItems)
                            ++ lit " database items to analyze.")])]
         else [])
     ++ (if focus_includes focus (lit "open_questions")
         then [(lit "open_questions",
                VArr [VStr (lit "See notion_snapshot.targets for full content "
                            ++ [8212%N]
                            ++ lit " use this data to identify open questions.")])]
         else [])
     ++ (if focus_includes focus (lit "next_actions")
         then [(lit "next_actions",
                VArr [VStr (lit "Review the tasks and content in notion_snapshot to determine next actions.")])]
         else [])
     ++ [(lit "suggested_updates_for_humans_to_apply",
          VArr [VStr (lit "Analyze the notion_snapshot content to generate specific update suggestions.")])]
     ++ match instructions with
        | Some (c :: s) => [(lit "custom_instructions", VStr (c :: s))]
        | _ => []
        end).

End Builder.

Import Builder.

(** ** Vocabulary for the analysis builder *)

(** A to-do block with the given text and check mark. *)
Definition todo_item (block : Value) (text : jsstring) (checked : bool) : Prop :=
  nullish block = false
  /\ prop block (lit "type") = VStr (lit "to_do")
  /\ truthy (prop block (lit "to_do")) = true
  /\ richTextToPlain (prop (prop block (lit "to_do")) (lit "rich_text")) = Ok text
  /\ truthy (prop (prop block (lit "to_do")) (lit "checked")) = checked.

(** A text that fills one line: it begins with a unit that is no blank and
    holds no line terminator. *)
Definition one_line (text : jsstring) : bool :=
  match text with
  | c :: _ => negb (is_space c)
  | [] => false
  end
  && forallb (fun c => negb (is_line_terminator c)) text.

(** The task that the analysis reports for a to-do item. *)
Definition task_value (task : jsstring * bool) : Value :=
  VObj [(lit "task", VStr (fst task)); (lit "done", VBool (snd task))].

(** The line of a to-do item at some depth. *)
Definition todo_line (depth : nat) (task : jsstring * bool) : jsstring :=
  repeat_str (lit "  ") depth
  ++ [91; (if snd task then 120 else 32); 93; 32]%N ++ fst task.

(** The rest of a text behind a line: nothing, or a newline and more. *)
Definition behind (rest : jsstring) : jsstring :=
  match rest with
  | [] => []
  | _ :: more => more
  end.

(** A match of the pattern in place: a check box, blanks, and a group that
    stays on one line. *)
Definition box_match (s : jsstring) (m : jsstring * jsstring) : Prop :=
  exists before after box blanks,
    s = before ++ fst m ++ after
    /\ fst m = [91%N; box; 93%N] ++ blanks ++ snd m
    /\ (box = 32%N \/ box = 120%N)
    /\ blanks <> []
    /\ Forall (fun c => is_space c = true) blanks
    /\ snd m <> []
    /\ Forall (fun c => is_line_terminator c = false) (snd m)
    /\ (startsWith (lit "[x]") (fst m) = true <-> box = 120%N).

(* ================================================================== *)
(** * Properties of the write guard *)
(* ================================================================== *)

(** Every way a call of the gateway can go. *)
Ltac gateway_cases :=
  unfold notionFetch;
  match goal with
  | |- context [isWriteCall ?m ?p] => destruct (isWriteCall m p) eqn:?Hguard
  end;
  [| destruct (NOTION_TOKEN _) as [[|?c ?token]|] eqn:?Htoken;
     [| destruct (resolve _ _) as [?url|] eqn:?Hurl;
        [ destruct (body_refused _) eqn:?Hbody;
          [| match goal with
             | |- context [respond ?u ?l ?r] =>
                 destruct (respond u l r) as [| |?status ?text [?v|]] eqn:?Hresp;
                 [| | destruct (negb (res_ok status)) | destruct (negb (res_ok status))]
             end ]
        |]
     |] ].

Lemma jseqb_eq a b : jseqb a b = true <-> a = b.
Proof.
  revert b. induction a as [|x a IH]; destruct b as [|y b]; simpl; split;
    try discriminate; try reflexivity.
  - intros H. apply andb_true_iff in H. destruct H as [H1 H2].
    apply N.eqb_eq in H1. apply IH in H2. now subst.
  - intros H. inversion H; subst. rewrite N.eqb_refl. simpl. now apply IH.
Qed.

Lemma jseqb_refl a : jseqb a a = true.
Proof. now apply jseqb_eq. Qed.

Lemma jseqb_neq a b : a <> b -> jseqb a b = false.
Proof.
  intros H. destruct (jseqb a b) eqn:E; [|reflexivity].
  apply jseqb_eq in E. contradiction.
Qed.

Section Gateway.

Variable env : Env.
Variable upstream : Upstream.

Lemma notionFetch_blocked path options log :
  isWriteCall (toUpperCase (env_or (opt_method options) (lit "GET"))) path = true ->
  Blocked env upstream path options log.
Proof.
  intros H. unfold Blocked, notionFetch. now rewrite H.
Qed.

Lemma app_one_neq {A} (l : list A) (x : A) : l ++ [x] <> l.
Proof.
  intros H. apply (f_equal (@List.length A)) in H.
  rewrite length_app in H. simpl in H. lia.
Qed.

Lemma notionFetch_not_blocked path options log :
  isWriteCall (toUpperCase (env_or (opt_method options) (lit "GET"))) path = false ->
  ~ Blocked env upstream path options log.
Proof.
  intros H. unfold Blocked. gateway_cases; try discriminate;
    intros E; inversion E as [[E1 E2]];
    match goal with
    | E2 : _ ++ [_] = _ |- _ => now apply app_one_neq in E2
    | _ => idtac
    end.
Qed.

(** What a call that passes the guard sends: nothing, with an exception,
    or the one request that [fetch_call] builds. *)
Lemma notionFetch_cases path options log :
  (snd (notionFetch env upstream path options log) = log
   /\ exists e, fst (notionFetch env upstream path options log) = Throw e)
  \/ (exists c token url,
        isWriteCall (method_of options) path = false
        /\ NOTION_TOKEN env = Some (c :: token)
        /\ resolve upstream path = Some url
        /\ snd (notionFetch env upstream path options log)
           = log ++ [fetch_call (method_of options) url options (c :: token)
                       (env_or (NOTION_VERSION env) (lit "2022-06-28"))]).
Proof.
  unfold method_of. gateway_cases; simpl;
    try (left; split; [reflexivity | eauto]; fail);
    right; eexists _, _, _; repeat split; eauto.
Qed.

Lemma fetch_call_request_for method url options token version path :
  resolve upstream path = Some url ->
  request_for upstream path (opt_params options)
    (fetch_call method url options token version).
Proof. intros H. exists url. repeat split. exact H. Qed.

Lemma body_refused_false method url options token version :
  (truthy (opt_body options) = true ->
   method <> lit "GET" /\ method <> lit "HEAD") ->
  body_refused (fetch_call method url options token version) = false.
Proof.
  intros H. unfold body_refused, fetch_call. simpl.
  destruct (truthy (opt_body options)); [|reflexivity].
  destruct (H eq_refl) as [H1 H2].
  destruct (JSON_stringify (opt_body options)); [|reflexivity].
  rewrite !jseqb_neq by assumption. reflexivity.
Qed.

Lemma notionFetch_forwarded path options log :
  token_set env ->
  isWriteCall (toUpperCase (env_or (opt_method options) (lit "GET"))) path = false ->
  Forwarded env upstream path options log.
Proof.
  intros (c & token & Ht) H. split; [now apply notionFetch_not_blocked|].
  destruct (notionFetch_cases path options log)
    as [[Hlog _] | (c' & token' & url & _ & _ & Hurl & Hlog)].
  - exists []. rewrite app_nil_r. repeat split; auto.
    intros ((url & Hurl) & Hbody & Hresp). exfalso.
    revert Hlog. unfold notionFetch. rewrite H, Ht, Hurl.
    rewrite body_refused_false by exact Hbody.
    match goal with
    | |- context [respond ?u ?l ?r] =>
        pose proof (Hresp r) as Hr;
        destruct (respond u l r) as [| |status text [v|]]
    end; try contradiction; try destruct (negb (res_ok status)); simpl;
      apply app_one_neq.
  - eexists. split; [exact Hlog|]. split; [simpl; lia|]. split.
    + constructor; [|constructor]. split; [reflexivity|].
      now apply fetch_call_request_for.
    + discriminate.
Qed.

End Gateway.

Example blocks_patch_of_a_page :
  isWriteCall (lit "patch") (lit "/v1/pages/abc") = true.
Proof. reflexivity. Qed.

Example blocks_page_creation_with_slash :
  isWriteCall (lit "POST") (lit "/v1/pages/") = true.
Proof. reflexivity. Qed.

Example permits_post_below_pages :
  isWriteCall (lit "POST") (lit "/v1/pages/abc") = false.
Proof. reflexivity. Qed.

(** C1. The gateway classifies every call from its method and path alone,
    before anything is sent: PATCH and DELETE are blocked on every path,
    POST to [/v1/pages] and to [/v1/comments] is blocked with the BLOCKED
    error and an unchanged request log, whatever the body, the parameters,
    the environment and the outside are, and a call is blocked exactly when
    the guard says so of its method and path.  GET of a page or of a
    block's children and POST to a database query or to the search endpoint
    are permitted: the guard passes them, they are not answered with the
    BLOCKED error, and with a credential configured they send one request at
    most, with that method, for the URL that the platform makes of the
    path, and exactly one when the platform takes the call.  The path that
    is classified is the path of the call as written; the URL is made of it
    afterwards. *)
Theorem C1_gateway_classification :
  forall (env : Env) (upstream : Upstream) (log : Log),
    (forall path body params,
        Blocked env upstream path (with_method (lit "PATCH") body params) log
        /\ Blocked env upstream path (with_method (lit "DELETE") body params) log)
    /\ (forall body params,
        Blocked env upstream (lit "/v1/pages") (with_method (lit "POST") body params) log
        /\ Blocked env upstream (lit "/v1/comments") (with_method (lit "POST") body params) log)
    /\ (forall path options,
        Blocked env upstream path options log
        <-> isWriteCall (toUpperCase (env_or (opt_method options) (lit "GET"))) path = true)
    /\ (forall method path, startsWith (lit "BLOCKED: ") (blocked_message method path) = true)
    /\ (forall id,
        isWriteCall (lit "GET") (page_path id) = false
        /\ isWriteCall (lit "GET") (children_path id) = false
        /\ isWriteCall (lit "POST") (query_path id) = false
        /\ isWriteCall (lit "POST") (lit "/v1/search") = false)
    /\ (token_set env ->
        forall id body params,
          Forwarded env upstream (page_path id) (with_method (lit "GET") body params) log
          /\ Forwarded env upstream (children_path id) (with_method (lit "GET") body params) log
          /\ Forwarded env upstream (query_path id) (with_method (lit "POST") body params) log
          /\ Forwarded env upstream (lit "/v1/search") (with_method (lit "POST") body params) log).
Proof.
  intros env upstream log.
  assert (Hread : forall id,
             isWriteCall (lit "GET") (page_path id) = false
             /\ isWriteCall (lit "GET") (children_path id) = false
             /\ isWriteCall (lit "POST") (query_path id) = false
             /\ isWriteCall (lit "POST") (lit "/v1/search") = false).
  { intros id. repeat split; reflexivity. }
  split; [|split; [|split; [|split; [|split]]]].
  - intros path body params. split; apply notionFetch_blocked; reflexivity.
  - intros body params. split; apply notionFetch_blocked; reflexivity.
  - intros path options. split.
    + intros HB.
      destruct (isWriteCall (toUpperCase (env_or (opt_method options) (lit "GET"))) path) eqn:E;
        [reflexivity|].
      exfalso. revert HB. now apply notionFetch_not_blocked.
    + apply notionFetch_blocked.
  - reflexivity.
  - exact Hread.
  - intros Ht id body params.
    destruct (Hread id) as (H1 & H2 & H3 & H4).
    repeat split; apply notionFetch_forwarded; assumption.
Qed.

(** The guard lets a page retrieval through in a configured environment. *)
Lemma C1_gateway_classification_witness :
  token_set Scenario.env0
  /\ Forwarded Scenario.env0 Scenario.empty_store (page_path (VStr (lit "abc")))
       (with_method (lit "GET") VUndefined None) [].
Proof.
  assert (Ht : token_set Scenario.env0).
  { exists 115%N, (lit "ecret"). reflexivity. }
  split; [exact Ht|].
  destruct (C1_gateway_classification Scenario.env0 Scenario.empty_store [])
    as (_ & _ & _ & _ & _ & Hf).
  exact (proj1 (Hf Ht (VStr (lit "abc")) VUndefined None)).
Defined.

(* ================================================================== *)
(** * Properties of the bounded recursive fetcher *)
(* ================================================================== *)

Lemma geb_false a b : a < b -> (a >=? b) = false.
Proof. intros H. rewrite Z.geb_leb. apply Z.leb_gt. lia. Qed.

Lemma geb_true a b : b <= a -> (a >=? b) = true.
Proof. intros H. rewrite Z.geb_leb. apply Z.leb_le. lia. Qed.

Lemma gtb_false a b : a <= b -> (a >? b) = false.
Proof. intros H. rewrite Z.gtb_ltb. apply Z.ltb_ge. lia. Qed.

Lemma gtb_true a b : b < a -> (a >? b) = true.
Proof. intros H. rewrite Z.gtb_ltb. apply Z.ltb_lt. lia. Qed.

Section FetcherBounds.

Variable env : Env.
Variable upstream : Upstream.

Lemma extends_refl d acc : extends_within env d acc acc.
Proof.
  exists []. rewrite app_nil_r. repeat split; [constructor | intros; lia].
Qed.

Lemma extends_trans d d' a b c :
  d <= d' -> extends_within env d a b -> extends_within env d' b c -> extends_within env d a c.
Proof.
  intros Hd (n1 & -> & F1 & L1) (n2 & -> & F2 & L2).
  exists (n1 ++ n2). rewrite app_assoc. repeat split.
  - apply Forall_app. split; [assumption|].
    eapply Forall_impl; [|exact F2]. simpl. intros ? [? ?]. split; [lia | assumption].
  - intros N HN. specialize (L1 N HN). specialize (L2 N HN). lia.
Qed.

Lemma extends_push d acc b :
  gtN d (maxDepth env) = false ->
  geN (Z.of_nat (List.length acc)) (maxBlocks env) = false ->
  extends_within env d acc (acc ++ [flat b d]).
Proof.
  intros Hd Hlen. exists [flat b d]. repeat split.
  - constructor; [simpl; split; [lia | exact Hd] | constructor].
  - intros N HN. rewrite HN in Hlen. simpl in Hlen.
    rewrite Z.geb_leb in Hlen. apply Z.leb_gt in Hlen.
    rewrite length_app. simpl. lia.
Qed.

Lemma each_block_bounded self :
  call_bounded env self ->
  forall blocks depth acc log r acc' log',
    gtN depth (maxDepth env) = false ->
    each_block env self depth blocks acc log = Some (r, acc', log') ->
    extends_within env depth acc acc'.
Proof.
  intros Hself. induction blocks as [|b rest IH]; intros depth acc log r acc' log' Hd H.
  - simpl in H. inversion H; subst. apply extends_refl.
  - simpl in H.
    destruct (geN (Z.of_nat (List.length acc)) (maxBlocks env)) eqn:Hfull.
    { inversion H; subst. apply extends_refl. }
    destruct (nullish b).
    { inversion H; subst. apply extends_refl. }
    assert (Hpush : extends_within env depth acc (acc ++ [flat b depth]))
      by now apply extends_push.
    destruct (truthy (prop b (lit "has_children")) && ltN depth (maxDepth env)) eqn:Hrec.
    + destruct (self (prop b (lit "id")) (depth + 1) (acc ++ [flat b depth]) log)
        as [[[r1 acc1] log1]|] eqn:Hcall; [|discriminate].
      apply Hself in Hcall.
      assert (Hsub : extends_within env depth acc acc1)
        by (eapply extends_trans; [| exact Hpush | exact Hcall]; lia).
      destruct r1.
      * eapply extends_trans; [| exact Hsub | eapply IH; eauto]. lia.
      * inversion H; subst. exact Hsub.
    + eapply extends_trans; [| exact Hpush | eapply IH; eauto]. lia.
Qed.

Lemma recurse_bounded fuel : call_bounded env (recurse env upstream fuel).
Proof.
  induction fuel as [|fuel IH]; intros pid d acc log r acc' log' H.
  - discriminate.
  - simpl in H. unfold recurse_body in H.
    destruct (gtN d (maxDepth env) || geN (Z.of_nat (List.length acc)) (maxBlocks env))
      eqn:Hstop.
    { inversion H; subst. apply extends_refl. }
    apply orb_false_iff in Hstop. destruct Hstop as [Hd _].
    destruct (retrieveBlockChildren env upstream pid 100 log) as [[resp|e] log1].
    + destruct (try! results <- get resp (lit "results"); iterate results) as [blocks|e].
      * eapply each_block_bounded; eauto.
      * inversion H; subst. apply extends_refl.
    + inversion H; subst. apply extends_refl.
Qed.

(** Whatever one traversal has put into its array, from an empty one. *)
Lemma traverse_bounded pageId log outcome emitted log' :
  traverse env upstream pageId log = Some (outcome, emitted, log') ->
  Forall (fun b => 0 <= fb_depth b /\ gtN (fb_depth b) (maxDepth env) = false) emitted
  /\ (forall N, maxBlocks env = Some N -> Z.of_nat (List.length emitted) <= Z.max 0 N).
Proof.
  intros H. apply recurse_bounded in H. destruct H as (new & -> & Hdepth & Hlen).
  simpl in *. split; assumption.
Qed.

End FetcherBounds.

Section FetcherTermination.

Variable env : Env.
Variable upstream : Upstream.

Lemma each_block_returns self depth :
  (ltN depth (maxDepth env) = true -> call_returns (depth + 1) self) ->
  forall blocks acc log, each_block env self depth blocks acc log <> None.
Proof.
  intros Hself. induction blocks as [|b rest IH]; intros acc log; simpl.
  - discriminate.
  - destruct (geN _ _); [discriminate|].
    destruct (nullish b); [discriminate|].
    destruct (truthy _ && ltN depth (maxDepth env)) eqn:Hrec.
    + apply andb_true_iff in Hrec. destruct Hrec as [_ Hlt].
      specialize (Hself Hlt (prop b (lit "id")) (acc ++ [flat b depth]) log).
      destruct (self _ _ _ _) as [[[[u|e] acc1] log1]|]; [apply IH | discriminate | congruence].
    + apply IH.
Qed.

Lemma recurse_returns fuel :
  forall d, (levels_left env d < fuel)%nat -> call_returns d (recurse env upstream fuel).
Proof.
  induction fuel as [|fuel IH]; intros d Hfuel pid acc log; [lia|].
  simpl. unfold recurse_body.
  destruct (gtN d (maxDepth env) || geN _ _); [discriminate|].
  destruct (retrieveBlockChildren env upstream pid 100 log) as [[resp|e] log1];
    [|discriminate].
  destruct (try! results <- get resp (lit "results"); iterate results) as [blocks|e];
    [|discriminate].
  apply each_block_returns. intros Hlt. apply IH.
  unfold levels_left, ltN in *. destruct (maxDepth env) as [D|]; [|discriminate].
  apply Z.ltb_lt in Hlt. lia.
Qed.

(** The nesting bound of [traverse] is never exceeded. *)
Lemma traverse_returns pageId log : traverse env upstream pageId log <> None.
Proof.
  unfold traverse. apply recurse_returns.
  unfold levels_left, nesting_bound. destruct (maxDepth env) as [D|]; lia.
Qed.

End FetcherTermination.

(** C2. With a depth ceiling [D >= 0] and a node budget [N > 0] configured,
    one traversal of [fetchPageBlocks] always comes to an end, whatever the
    external store answers; the array it has built by then, whether it
    returns it or throws, holds at most [N] blocks, each at a depth between
    0 and [D]. *)
Theorem C2_fetch_bounded :
  forall (env : Env) (upstream : Upstream) (D N : Z) (pageId : Value) (log : Log),
    maxDepth env = Some D ->
    maxBlocks env = Some N ->
    0 <= D ->
    0 < N ->
    exists outcome emitted log',
      traverse env upstream pageId log = Some (outcome, emitted, log')
      /\ fetchPageBlocks env upstream pageId log
         = (match outcome with Ok _ => Ok emitted | Throw e => Throw e end, log')
      /\ Z.of_nat (List.length emitted) <= N
      /\ Forall (fun b => 0 <= fb_depth b <= D) emitted.
Proof.
  intros env upstream D N pageId log HD HN HD0 HN0.
  destruct (traverse env upstream pageId log) as [[[outcome emitted] log']|] eqn:Ht.
  - exists outcome, emitted, log'. split; [reflexivity|].
    split.
    { unfold fetchPageBlocks. rewrite Ht. now destruct outcome. }
    apply traverse_bounded in Ht. destruct Ht as [Hdepth Hlen].
    specialize (Hlen N HN). split; [lia|].
    eapply Forall_impl; [|exact Hdepth]. simpl. intros b [H0 Hgt].
    rewrite HD in Hgt. simpl in Hgt. rewrite Z.gtb_ltb in Hgt.
    apply Z.ltb_ge in Hgt. lia.
  - now apply traverse_returns in Ht.
Qed.

(** The bounds on the walk of the three-block page of [small_store] under
    the default configuration. *)
Lemma C2_fetch_bounded_witness :
  exists outcome emitted log',
    traverse Scenario.env0 Scenario.small_store (VStr (lit "root")) []
    = Some (outcome, emitted, log')
    /\ fetchPageBlocks Scenario.env0 Scenario.small_store (VStr (lit "root")) []
       = (match outcome with Ok _ => Ok emitted | Throw e => Throw e end, log')
    /\ Z.of_nat (List.length emitted) <= 400
    /\ Forall (fun b => 0 <= fb_depth b <= 2) emitted.
Proof.
  apply (@C2_fetch_bounded Scenario.env0 Scenario.small_store 2 400 (VStr (lit "root")) []);
    [reflexivity | reflexivity | lia | lia].
Defined.

(** ** The fetcher against a tree *)

Lemma filter_flat_map {A B} (f : B -> bool) (g : A -> list B) (l : list A) :
  filter f (flat_map g l) = flat_map (fun x => filter f (g x)) l.
Proof.
  induction l as [|x l IH]; simpl; [reflexivity|].
  now rewrite filter_app, IH.
Qed.

Lemma flat_map_nil {A B} (l : list A) : flat_map (fun _ : A => @nil B) l = [].
Proof. induction l; simpl; auto. Qed.

Lemma flat_map_Forall_ext {A B} (f g : A -> list B) (l : list A) :
  Forall (fun x => f x = g x) l -> flat_map f l = flat_map g l.
Proof.
  induction 1 as [|x l Hx _ IH]; simpl; [reflexivity|]. now rewrite Hx, IH.
Qed.

(** Keeping the blocks within depth [D] of a full walk is the walk that does
    not descend below [D]. *)
Lemma filter_walk D (t : Tree) :
  forall d,
    filter (fun fb => fb_depth fb <=? D) (walk d t)
    = if d <=? D then walk_within D d t else [].
Proof.
  induction t as [b kids IH] using Tree_forest_ind. intros d. simpl.
  rewrite filter_flat_map.
  assert (Hkids : flat_map (fun x => filter (fun fb => fb_depth fb <=? D) (walk (d + 1) x)) kids
                  = if d <? D then flat_map (walk_within D (d + 1)) kids else []).
  { destruct (d <? D) eqn:Hlt.
    - apply flat_map_Forall_ext. eapply Forall_impl; [|exact IH].
      simpl. intros k Hk. rewrite Hk.
      apply Z.ltb_lt in Hlt. destruct (d + 1 <=? D) eqn:E; [reflexivity|].
      apply Z.leb_gt in E. lia.
    - rewrite <- (flat_map_nil (B := FlatBlock) kids).
      apply flat_map_Forall_ext. eapply Forall_impl; [|exact IH].
      simpl. intros k Hk. rewrite Hk.
      apply Z.ltb_ge in Hlt. destruct (d + 1 <=? D) eqn:E; [|reflexivity].
      apply Z.leb_le in E. lia. }
  rewrite Hkids.
  destruct (d <=? D) eqn:Hle; [reflexivity|].
  apply Z.leb_gt in Hle.
  destruct (d <? D) eqn:Hlt; [|reflexivity].
  apply Z.ltb_lt in Hlt. lia.
Qed.

Lemma descendants_within_walk D forest :
  0 <= D -> descendants_within D forest = flat_map (walk_within D 0) forest.
Proof.
  intros HD0. unfold descendants_within. rewrite filter_flat_map.
  apply flat_map_Forall_ext. apply Forall_forall. intros t _.
  rewrite filter_walk. destruct (0 <=? D) eqn:E; [reflexivity|].
  apply Z.leb_gt in E. lia.
Qed.

Lemma descendants_below_zero D forest :
  D < 0 -> descendants_within D forest = [].
Proof.
  intros HD0. unfold descendants_within. rewrite filter_flat_map.
  rewrite <- (flat_map_nil (B := FlatBlock) forest).
  apply flat_map_Forall_ext. apply Forall_forall. intros t _.
  rewrite filter_walk. destruct (0 <=? D) eqn:E; [|reflexivity].
  apply Z.leb_le in E. lia.
Qed.

Lemma served_node upstream b kids :
  served upstream (Node b kids)
  <-> nullish b = false
      /\ (if truthy (prop b (lit "has_children"))
          then lists_children upstream (prop b (lit "id")) (map root_block kids)
          else kids = [])
      /\ Forall (served upstream) kids.
Proof.
  simpl.
  assert (Hall : forall ks,
             (fix all (ks : list Tree) : Prop :=
                match ks with
                | [] => True
                | k :: ks' => served upstream k /\ all ks'
                end) ks <-> Forall (served upstream) ks).
  { induction ks as [|k ks IH]; split; intros H.
    - constructor.
    - exact I.
    - destruct H as [H1 H2]. constructor; [exact H1 | now apply IH].
    - inversion H; subst. split; [assumption | now apply IH]. }
  rewrite Hall. reflexivity.
Qed.

Section FetcherExact.

Variable env : Env.
Variable upstream : Upstream.
Variables D N : Z.
Hypothesis HD : maxDepth env = Some D.
Hypothesis HN : maxBlocks env = Some N.
Hypothesis Htoken : token_set env.

Lemma retrieveBlockChildren_served id blocks log :
  lists_children upstream id blocks ->
  exists resp log',
    retrieveBlockChildren env upstream id 100 log = (Ok resp, log')
    /\ get resp (lit "results") = Ok (VArr blocks).
Proof.
  intros [[url Hurl] Hlist]. destruct Htoken as (c & token & Ht).
  unfold retrieveBlockChildren, notionFetch. simpl opt_method.
  change (isWriteCall (toUpperCase (env_or None (lit "GET"))) (children_path id))
    with false.
  rewrite Ht, Hurl. cbv iota beta.
  change (body_refused _) with false. cbv iota.
  match goal with
  | |- context [respond upstream log ?r] =>
      destruct (Hlist log r eq_refl) as (status & text & resp & Hup & Hok & Hres);
      [exists url; repeat split; exact Hurl | rewrite Hup]
  end.
  rewrite Hok. simpl. eauto.
Qed.

Lemma each_block_exact self d :
  d <= D ->
  (d < D -> call_exact upstream D N (d + 1) self) ->
  forall kids acc log,
    Forall (served upstream) kids ->
    room D N acc d kids ->
    exists log',
      each_block env self d (map root_block kids) acc log
      = Some (Ok tt, acc ++ flat_map (walk_within D d) kids, log').
Proof.
  intros Hd Hself. induction kids as [|[b gk] rest IH]; intros acc log Hserved Hroom.
  - simpl. rewrite app_nil_r. eauto.
  - inversion Hserved as [|? ? Hk Hrest]; subst.
    apply served_node in Hk. destruct Hk as (Hb & Hflag & Hgk).
    assert (Hroom' :
              Z.of_nat (List.length acc) + 1
              + Z.of_nat (List.length
                            (if d <? D then flat_map (walk_within D (d + 1)) gk else []))
              + Z.of_nat (List.length (flat_map (walk_within D d) rest)) <= N).
    { unfold room in Hroom. cbn [flat_map walk_within] in Hroom.
      rewrite length_app in Hroom. cbn [List.length] in Hroom. lia. }
    clear Hroom.
    simpl. rewrite HN, HD. simpl. rewrite Hb.
    rewrite geb_false by lia.
    destruct (truthy (prop b (lit "has_children"))) eqn:Hhas; simpl.
    + destruct (d <? D) eqn:Hltb.
      * assert (Hlt : d < D) by now apply Z.ltb_lt.
        destruct (Hself Hlt (prop b (lit "id")) gk (acc ++ [flat b d]) log Hflag Hgk)
          as (log1 & Hcall).
        { unfold room. rewrite length_app. simpl. lia. }
        rewrite Hcall.
        destruct (IH (((acc ++ [flat b d]) ++ flat_map (walk_within D (d + 1)) gk)) log1 Hrest)
          as (log2 & Hloop).
        { unfold room. rewrite !length_app. simpl. lia. }
        rewrite Hloop. exists log2.
        cbn [flat_map walk_within]. try rewrite Hltb.
        rewrite <- !app_assoc. reflexivity.
      * destruct (IH (acc ++ [flat b d]) log Hrest) as (log2 & Hloop).
        { unfold room. rewrite length_app. simpl. simpl in Hroom'. lia. }
        rewrite Hloop. exists log2.
        cbn [flat_map walk_within]. try rewrite Hltb.
        rewrite <- !app_assoc. reflexivity.
    + subst gk.
      destruct (IH (acc ++ [flat b d]) log Hrest) as (log2 & Hloop).
      { unfold room. rewrite length_app. simpl.
        destruct (d <? D); simpl in Hroom'; lia. }
      rewrite Hloop. exists log2.
      cbn [flat_map walk_within].
      rewrite <- !app_assoc. destruct (d <? D); reflexivity.
Qed.

Lemma recurse_exact fuel :
  forall d, d <= D -> (Z.to_nat (D - d) < fuel)%nat ->
            call_exact upstream D N d (recurse env upstream fuel).
Proof.
  induction fuel as [|fuel IH]; intros d Hd Hfuel pid kids acc log Hlist Hserved Hroom;
    [lia|].
  simpl. unfold recurse_body. rewrite HN, HD. simpl.
  rewrite gtb_false by lia.
  simpl.
  destruct (Z.of_nat (List.length acc) >=? N) eqn:Hfull.
  - rewrite Z.geb_leb in Hfull. apply Z.leb_le in Hfull. unfold room in Hroom.
    assert (Hnone : flat_map (walk_within D d) kids = []).
    { destruct (flat_map (walk_within D d) kids); [reflexivity|]. simpl in Hroom. lia. }
    rewrite Hnone, app_nil_r. eauto.
  - destruct (retrieveBlockChildren_served log Hlist) as (resp & log1 & Hfetch & Hres).
    rewrite Hfetch, Hres. simpl.
    apply each_block_exact; try assumption.
    intros Hlt. apply IH; lia.
Qed.

End FetcherExact.

(** The fetcher against a store that lists all the children of a block in
    one answer. *)
Lemma fetch_preorder_served :
  forall (env : Env) (upstream : Upstream) (D N : Z) (pageId : Value)
         (forest : list Tree) (log : Log),
    token_set env ->
    maxDepth env = Some D ->
    maxBlocks env = Some N ->
    lists_children upstream pageId (map root_block forest) ->
    Forall (served upstream) forest ->
    Z.of_nat (List.length (descendants_within D forest)) < N ->
    exists log',
      fetchPageBlocks env upstream pageId log
      = (Ok (descendants_within D forest), log').
Proof.
  intros env upstream D N pageId forest log Ht HD HN Hlist Hserved Hfew.
  unfold fetchPageBlocks, traverse.
  destruct (Z_lt_le_dec D 0) as [Hneg|Hpos].
  - rewrite descendants_below_zero by assumption.
    unfold nesting_bound. rewrite HD. simpl. unfold recurse_body.
    rewrite HD. simpl.
    rewrite gtb_true by lia.
    simpl. eauto.
  - rewrite descendants_within_walk in * by assumption.
    destruct (@recurse_exact env upstream D N HD HN Ht (nesting_bound env) 0 Hpos)
      with (pid := pageId) (kids := forest) (acc := @nil FlatBlock) (log := log)
      as (log' & Hrun); try assumption.
    + unfold nesting_bound. rewrite HD. lia.
    + unfold room. simpl. lia.
    + rewrite Hrun. simpl. eauto.
Qed.

Lemma held_node upstream b kids :
  held upstream (Node b kids)
  <-> nullish b = false
      /\ (if truthy (prop b (lit "has_children"))
          then lists_children upstream (prop b (lit "id"))
                 (firstn LISTING_PAGE (map root_block kids))
          else kids = [])
      /\ Forall (held upstream) kids.
Proof.
  simpl.
  assert (Hall : forall ks,
             (fix all (ks : list Tree) : Prop :=
                match ks with
                | [] => True
                | k :: ks' => held upstream k /\ all ks'
                end) ks <-> Forall (held upstream) ks).
  { induction ks as [|k ks IH]; split; intros H.
    - constructor.
    - exact I.
    - destruct H as [H1 H2]. constructor; [exact H1 | now apply IH].
    - inversion H; subst. split; [assumption | now apply IH]. }
  rewrite Hall. reflexivity.
Qed.

Lemma narrow_node b kids :
  narrow (Node b kids) = true
  <-> (List.length kids <= LISTING_PAGE)%nat /\ forallb narrow kids = true.
Proof.
  simpl.
  assert (Hall : forall ks,
             (fix all (ks : list Tree) : bool :=
                match ks with
                | [] => true
                | k :: ks' => narrow k && all ks'
                end) ks = forallb narrow ks).
  { induction ks as [|k ks IH]; simpl; [reflexivity | now rewrite IH]. }
  rewrite Hall, andb_true_iff, Nat.leb_le. reflexivity.
Qed.

Lemma first_page_all (kids : list Tree) :
  (List.length kids <= LISTING_PAGE)%nat ->
  firstn LISTING_PAGE (map root_block kids) = map root_block kids.
Proof. intros H. apply firstn_all2. now rewrite length_map. Qed.

(** For a tree whose blocks have one page of children at most, a store that
    lists a page at a time lists everything. *)
Lemma held_served upstream t :
  narrow t = true -> (held upstream t <-> served upstream t).
Proof.
  induction t as [b kids IH] using Tree_forest_ind. intros Hnarrow.
  apply narrow_node in Hnarrow. destruct Hnarrow as [Hlen Hkids].
  rewrite held_node, served_node, (first_page_all _ Hlen).
  assert (Hall : Forall (held upstream) kids <-> Forall (served upstream) kids).
  { clear Hlen. induction IH as [|k ks Hk _ IHks]; [split; constructor|].
    simpl in Hkids. apply andb_true_iff in Hkids. destruct Hkids as [Hn Hns].
    split; intros H; inversion H; subst; constructor;
      try (now apply Hk); now apply IHks. }
  rewrite Hall. reflexivity.
Qed.

Lemma held_forest_served upstream forest :
  forallb narrow forest = true ->
  (Forall (held upstream) forest <-> Forall (served upstream) forest).
Proof.
  induction forest as [|t forest IH]; intros Hn; [split; constructor|].
  simpl in Hn. apply andb_true_iff in Hn. destruct Hn as [Ht Hf].
  split; intros H; inversion H; subst; constructor;
    try (now apply (held_served upstream t Ht)); now apply IH.
Qed.

(** C3, as stated, fails.  The traversal asks for one page of 100 children
    and never follows the cursor.  A page that has 101 children without
    children of their own has 101 descendants within any depth, fewer than
    the budget of 400, and the fetcher returns the first 100 of them. *)
Lemma C3_single_page_counterexample :
  token_set Scenario.env0
  /\ maxDepth Scenario.env0 = Some 2
  /\ maxBlocks Scenario.env0 = Some 400
  /\ lists_children Scenario.wide_store (VStr (lit "root"))
       (firstn LISTING_PAGE (map root_block Scenario.wide_forest))
  /\ Forall (held Scenario.wide_store) Scenario.wide_forest
  /\ Z.of_nat (List.length (descendants_within 2 Scenario.wide_forest)) = 101
  /\ 101 < 400
  /\ exists blocks log',
      fetchPageBlocks Scenario.env0 Scenario.wide_store (VStr (lit "root")) []
      = (Ok blocks, log')
      /\ Z.of_nat (List.length blocks) = 100
      /\ blocks <> descendants_within 2 Scenario.wide_forest.
Proof.
  split; [exists 115%N, (lit "ecret"); reflexivity|].
  split; [reflexivity|]. split; [reflexivity|]. split; [|split].
  - split; [eexists; reflexivity|].
    intros log rq _ (url & Hurl & _ & Hp). inversion Hurl; subst url.
    simpl in Hp. simpl respond. rewrite Hp.
    eexists 200, [], _. split; [reflexivity|]. split; reflexivity.
  - apply Forall_forall. intros t Hin. unfold Scenario.wide_forest in Hin.
    apply in_map_iff in Hin. destruct Hin as (b & <- & Hb).
    unfold Scenario.wide_blocks in Hb. apply in_map_iff in Hb.
    destruct Hb as (i & <- & _). simpl. repeat split.
  - split; [vm_compute; reflexivity|]. split; [lia|].
    destruct (fetchPageBlocks Scenario.env0 Scenario.wide_store (VStr (lit "root")) [])
      as [[blocks|e] log'] eqn:Hrun; [|exfalso; vm_compute in Hrun; discriminate Hrun].
    exists blocks, log'. split; [reflexivity|].
    assert (Hlen : Z.of_nat (List.length blocks) = 100).
    { vm_compute in Hrun. inversion Hrun. reflexivity. }
    split; [exact Hlen|].
    intros E. rewrite E in Hlen. vm_compute in Hlen. discriminate Hlen.
Qed.

(** C3, amended.  When the store holds a tree below the page in which the
    page and every block have at most 100 children, one page of a listing,
    and the descendants within the depth ceiling are fewer than the node
    budget, the fetcher returns exactly those descendants, each once, in
    the order of a pre-order walk: every parent's children in listing
    order, a child's whole subtree before its next sibling. *)
Theorem C3_fetch_preorder :
  forall (env : Env) (upstream : Upstream) (D N : Z) (pageId : Value)
         (forest : list Tree) (log : Log),
    token_set env ->
    maxDepth env = Some D ->
    maxBlocks env = Some N ->
    lists_children upstream pageId (firstn LISTING_PAGE (map root_block forest)) ->
    Forall (held upstream) forest ->
    (List.length forest <= LISTING_PAGE)%nat ->
    forallb narrow forest = true ->
    Z.of_nat (List.length (descendants_within D forest)) < N ->
    exists log',
      fetchPageBlocks env upstream pageId log
      = (Ok (descendants_within D forest), log').
Proof.
  intros env upstream D N pageId forest log Ht HD HN Hlist Hheld Hlen Hnarrow Hfew.
  rewrite (first_page_all _ Hlen) in Hlist.
  apply (held_forest_served upstream _ Hnarrow) in Hheld.
  now apply (@fetch_preorder_served env upstream D N pageId forest log).
Qed.

Lemma small_store_serves :
  token_set Scenario.env0
  /\ lists_children Scenario.small_store (VStr (lit "root"))
       (map root_block Scenario.small_forest)
  /\ Forall (served Scenario.small_store) Scenario.small_forest.
Proof.
  split; [exists 115%N, (lit "ecret"); reflexivity|].
  assert (Hroot : lists_children Scenario.small_store (VStr (lit "root"))
                    (map root_block Scenario.small_forest)).
  { split; [eexists; reflexivity|].
    intros log rq _ (url & Hurl & _ & Hp). inversion Hurl; subst url.
    simpl in Hp. simpl respond. rewrite Hp.
    exists 200, [], (VObj [(lit "results", VArr (map root_block Scenario.small_forest))]).
    repeat split. }
  assert (Ha : lists_children Scenario.small_store (VStr (lit "a"))
                 [Scenario.block "a1" false]).
  { split; [eexists; reflexivity|].
    intros log rq _ (url & Hurl & _ & Hp). inversion Hurl; subst url.
    simpl in Hp. simpl respond. rewrite Hp.
    exists 200, [], (VObj [(lit "results", VArr [Scenario.block "a1" false])]).
    repeat split. }
  split; [exact Hroot|].
  constructor; [|constructor; [|constructor]].
  - split; [reflexivity|]. split; [exact Ha|]. repeat split.
  - repeat split.
Defined.

(** The walk of the page of [small_store]: [a], its child [a1], then [b]. *)
Lemma C3_fetch_preorder_witness :
  exists log',
    fetchPageBlocks Scenario.env0 Scenario.small_store (VStr (lit "root")) []
    = (Ok (descendants_within 2 Scenario.small_forest), log').
Proof.
  destruct small_store_serves as (Ht & Hroot & Hserved).
  apply (@C3_fetch_preorder Scenario.env0 Scenario.small_store 2 400
           (VStr (lit "root")) Scenario.small_forest [] Ht eq_refl eq_refl).
  - exact Hroot.
  - apply (held_forest_served Scenario.small_store Scenario.small_forest eq_refl).
    exact Hserved.
  - apply Nat.leb_le. reflexivity.
  - reflexivity.
  - vm_compute. reflexivity.
Defined.

(* ================================================================== *)
(** * Properties of the property normaliser *)
(* ================================================================== *)




Lemma get_record x k : nullish x = false -> get x k = Ok (prop x k).
Proof. intros H. unfold get. now rewrite H. Qed.







(** The two examples of the specification for a select property. *)
Example select_with_option :
  simple_property
    (VObj [(lit "type", VStr (lit "select"));
           (lit "select", VObj [(lit "name", VStr (lit "Done"))])])
  = Ok (VStr (lit "Done")).
Proof. reflexivity. Qed.

Example select_without_option :
  simple_property (VObj [(lit "type", VStr (lit "select")); (lit "select", VNull)])
  = Ok VNull.
Proof. reflexivity. Qed.

(** Outside typed properties the switch does throw: a property that is
    [null], and a list payload with a [null] element. *)
Example null_property_throws :
  extractSimpleProperties (VObj [(lit "a", VNull)]) = Throw TypeError.
Proof. reflexivity. Qed.

Example null_option_throws :
  extractSimpleProperties
    (VObj [(lit "a", VObj [(lit "type", VStr (lit "multi_select"));
                           (lit "multi_select", VArr [VNull])])])
  = Throw TypeError.
Proof. reflexivity. Qed.

(** C4. The property normaliser does not keep every key.  Every case of its
    switch, the default one included, ends in [result[key] = ...], and for a
    property named [__proto__] that assignment stores nothing: of three
    typed properties named [a], [__proto__] and [b] the result holds [a]
    and [b] only, so its keys are not the keys of the input.  In the item
    of a database row the raw properties, which are passed on as they came,
    still have all three. *)
Theorem C4_proto_key_dropped :
  NoDup (keys Scenario.proto_properties)
  /\ Forall (fun kv => typed_property (snd kv)) Scenario.proto_properties
  /\ extractSimpleProperties (VObj Scenario.proto_properties)
     = Ok [(lit "a", VNum 1); (lit "b", VNum 3)]
  /\ keys Scenario.proto_properties = [lit "a"; lit "__proto__"; lit "b"]
  /\ (forall out,
        extractSimpleProperties (VObj Scenario.proto_properties) = Ok out ->
        keys out <> keys Scenario.proto_properties)
  /\ exists item,
      normalize_item Scenario.proto_row = Ok item
      /\ keys (item_properties item) = [lit "a"; lit "b"]
      /\ item_properties_raw item = VObj Scenario.proto_properties.
Proof.
  split; [repeat constructor; simpl; intuition discriminate|].
  split; [repeat constructor; simpl; intros; discriminate|].
  split; [reflexivity|]. split; [reflexivity|]. split.
  - intros out H. vm_compute in H. inversion H; subst. discriminate.
  - eexists. split; [reflexivity|]. split; reflexivity.
Qed.

(* ================================================================== *)
(** * Properties of validation and of the handler *)
(* ================================================================== *)

Section HandlerProps.

Variable env : Env.
Variable upstream : Upstream.
Variable buildAnalysis : list NormalizedTarget -> Value -> Value -> Value.

(** The handler once the method check, authentication and validation have
    passed. *)
Lemma handler_validated req log v :
  req_method req = lit "POST" ->
  authenticate env (req_authorization req) = AuthOk ->
  validateRequest (req_body req) = Ok v ->
  handler env upstream buildAnalysis req log
  = match v with
    | Invalid message => (JsonError 400 message, log)
    | Valid request =>
        match process_targets env upstream (targets request) [] log with
        | (Ok normalizedTargets, log') =>
            (JsonOk
               (buildSummary normalizedTargets (orElse (mode request) (VStr (lit "project"))))
               (buildAnalysis normalizedTargets (orElse (focus request) default_focus)
                  (instructions request))
               normalizedTargets, log')
        | (Throw e, log') => (JsonError 500 (exn_message e), log')
        end
    end.
Proof.
  intros Hm Ha Hv. unfold handler. rewrite Hm, Ha, Hv.
  destruct v; reflexivity.
Qed.

Lemma process_targets_app before after acc log :
  process_targets env upstream (before ++ after) acc log
  = match process_targets env upstream before acc log with
    | (Ok acc', log') => process_targets env upstream after acc' log'
    | (Throw e, log') => (Throw e, log')
    end.
Proof.
  revert acc log. induction before as [|t before IH]; intros acc log; simpl.
  - reflexivity.
  - unfold bindM. destruct (process_target env upstream t log) as [[pushed|e] log1].
    + apply IH.
    + reflexivity.
Qed.

End HandlerProps.

Lemma first_keyword_found bodyStr kw :
  In kw WRITE_KEYWORDS ->
  includes (quoted kw) bodyStr = true ->
  exists kw',
    first_keyword bodyStr = Some kw'
    /\ In kw' WRITE_KEYWORDS
    /\ includes (quoted kw') bodyStr = true.
Proof.
  intros Hin Hinc. unfold first_keyword.
  destruct (find (fun keyword => includes (quoted keyword) bodyStr) WRITE_KEYWORDS)
    as [kw'|] eqn:E.
  - apply find_some in E. destruct E. eauto.
  - apply (find_none _ _ E) in Hin. simpl in Hin. congruence.
Qed.

(** Serialising an object or an array always gives a string. *)
Lemma JSON_stringify_object body :
  typeof_object body = true -> truthy body = true ->
  exists serialized, JSON_stringify body = Some serialized.
Proof.
  destruct body; simpl; try discriminate; eauto.
Qed.

(** Validation always returns: the handler never fails outside its
    [try] block. *)
Lemma validateRequest_returns body : exists v, validateRequest body = Ok v.
Proof.
  unfold validateRequest.
  destruct (negb (truthy body) || negb (typeof_object body)) eqn:Eshape; [eauto|].
  apply orb_false_iff in Eshape. destruct Eshape as [Ht Ho].
  apply negb_false_iff in Ht, Ho.
  destruct (JSON_stringify_object body Ho Ht) as (serialized & ->).
  destruct (first_keyword _); [eauto|].
  destruct (prop body (lit "targets")) as [| | | | | |[|t ts]|]; eauto.
  destruct (first_failure _); [eauto|].
  repeat match goal with
         | |- context [if ?c then _ else _] => destruct c; eauto
         end.
Qed.

(** C5, as stated, fails on a body that is not an object.  The body that is
    the bare JSON string [delete] serialises to that word between double
    quotes, so the keyword is there as a quoted substring; yet validation
    answers with the message of the shape check that comes first, which is
    not the message of the keyword guard for any keyword. *)
Lemma C5_keyword_guard_counterexample :
  JSON_stringify (VStr (lit "delete")) = Some (quoted (lit "delete"))
  /\ In (lit "delete") WRITE_KEYWORDS
  /\ includes (quoted (lit "delete")) (toLowerCase (quoted (lit "delete"))) = true
  /\ validateRequest (VStr (lit "delete")) = Ok (Invalid not_object_message)
  /\ (forall keyword, not_object_message <> write_rejected_message keyword).
Proof.
  split; [reflexivity|]. split; [simpl; tauto|]. split; [reflexivity|].
  split; [reflexivity|]. intros keyword H. discriminate H.
Qed.

(** C5, amended.  For a request body that is an object (or an array) and
    whose lower-cased serialisation contains a keyword of the vocabulary
    between double quotes, validation rejects with the message of the
    keyword guard, naming the first keyword of the vocabulary that occurs;
    an authenticated POST with that body is answered 400 with that message
    and the request log is unchanged.  A body that is not an object is
    rejected with the message of the shape check, 400 as well, the log
    unchanged as well. *)
Theorem C5_keyword_guard :
  forall (env : Env) (upstream : Upstream)
         (buildAnalysis : list NormalizedTarget -> Value -> Value -> Value)
         (req : VercelRequest) (log : Log),
    req_method req = lit "POST" ->
    authenticate env (req_authorization req) = AuthOk ->
    (forall serialized keyword,
        is_object (req_body req) = true ->
        JSON_stringify (req_body req) = Some serialized ->
        In keyword WRITE_KEYWORDS ->
        includes (quoted keyword) (toLowerCase serialized) = true ->
        exists first,
          first_keyword (toLowerCase serialized) = Some first
          /\ In first WRITE_KEYWORDS
          /\ validateRequest (req_body req) = Ok (Invalid (write_rejected_message first))
          /\ handler env upstream buildAnalysis req log
             = (JsonError 400 (write_rejected_message first), log))
    /\ (is_object (req_body req) = false ->
        validateRequest (req_body req) = Ok (Invalid not_object_message)
        /\ handler env upstream buildAnalysis req log
           = (JsonError 400 not_object_message, log)).
Proof.
  intros env upstream buildAnalysis req log Hm Ha. split.
  - intros serialized keyword Hobj Hser Hin Hinc.
    destruct (first_keyword_found _ Hin Hinc) as (first & Hfirst & Hin' & _).
    exists first.
    assert (Hv : validateRequest (req_body req)
                 = Ok (Invalid (write_rejected_message first))).
    { unfold validateRequest. unfold is_object in Hobj.
      apply andb_true_iff in Hobj. destruct Hobj as [-> ->]. simpl.
      now rewrite Hser, Hfirst. }
    repeat split; try assumption.
    erewrite handler_validated by eassumption. reflexivity.
  - intros Hobj.
    assert (Hv : validateRequest (req_body req) = Ok (Invalid not_object_message)).
    { unfold validateRequest. unfold is_object in Hobj.
      apply andb_false_iff in Hobj. destruct Hobj as [-> | ->]; simpl;
        [reflexivity | now rewrite orb_true_r]. }
    split; [exact Hv|].
    erewrite handler_validated by eassumption. reflexivity.
Qed.

(** A target that carries a key named [delete] is turned away before the
    store is asked anything. *)
Lemma C5_keyword_guard_witness :
  exists first,
    first_keyword (toLowerCase
                     (lit "{" ++ quoted (lit "targets") ++ lit ":[{"
                      ++ quoted (lit "type") ++ lit ":" ++ quoted (lit "page") ++ lit ","
                      ++ quoted (lit "id") ++ lit ":" ++ quoted (lit "root") ++ lit ","
                      ++ quoted (lit "delete") ++ lit ":true}]}")) = Some first
    /\ In first WRITE_KEYWORDS
    /\ validateRequest Scenario.delete_body = Ok (Invalid (write_rejected_message first))
    /\ handler Scenario.env0 Scenario.small_store Scenario.no_analysis
         (Scenario.post Scenario.delete_body) []
       = (JsonError 400 (write_rejected_message first), []).
Proof.
  apply (proj1 (@C5_keyword_guard Scenario.env0 Scenario.small_store Scenario.no_analysis
                  (Scenario.post Scenario.delete_body) [] eq_refl eq_refl))
    with (keyword := lit "delete").
  - reflexivity.
  - reflexivity.
  - simpl. tauto.
  - reflexivity.
Defined.

(** C6. When the processing of one target throws, after any number of
    targets that were processed successfully, the handler answers with one
    error response, status 500, carrying the message of the exception and
    no normalised target; the targets after the failing one are not
    processed, so nothing more is sent. *)
Theorem C6_error_aborts_request :
  forall (env : Env) (upstream : Upstream)
         (buildAnalysis : list NormalizedTarget -> Value -> Value -> Value)
         (req : VercelRequest) (request : AnalyzeRequest) (log : Log)
         (before after : list Value) (target : Value)
         (done : list NormalizedTarget) (log1 log2 : Log) (e : exn),
    req_method req = lit "POST" ->
    authenticate env (req_authorization req) = AuthOk ->
    validateRequest (req_body req) = Ok (Valid request) ->
    targets request = before ++ target :: after ->
    process_targets env upstream before [] log = (Ok done, log1) ->
    process_target env upstream target log1 = (Throw e, log2) ->
    handler env upstream buildAnalysis req log = (JsonError 500 (exn_message e), log2).
Proof.
  intros env upstream buildAnalysis req request log before after target done log1 log2 e
         Hm Ha Hv Hts Hbefore Hthrow.
  erewrite handler_validated by eassumption. cbv beta iota.
  rewrite Hts, process_targets_app, Hbefore. simpl. unfold bindM.
  now rewrite Hthrow.
Qed.

(** The page is fetched and normalised, the database query is answered 404:
    the response is the error alone. *)
Lemma C6_error_aborts_request_witness :
  exists done log1 log2,
    process_targets Scenario.env0 Scenario.small_store [Scenario.page_target "root"] [] []
    = (Ok done, log1)
    /\ List.length done = 1%nat
    /\ handler Scenario.env0 Scenario.small_store Scenario.no_analysis
         (Scenario.post Scenario.page_then_missing) []
       = (JsonError 500
            (exn_message (Error (upstream_error_message 404 (lit "not found")))), log2).
Proof.
  destruct (process_targets Scenario.env0 Scenario.small_store
              [Scenario.page_target "root"] [] []) as [r log1] eqn:Hbefore.
  vm_compute in Hbefore. inversion Hbefore; subst r log1; clear Hbefore.
  eexists _, _, _. split; [reflexivity|]. split; [reflexivity|].
  eapply (@C6_error_aborts_request Scenario.env0 Scenario.small_store Scenario.no_analysis
            (Scenario.post Scenario.page_then_missing) _ []
            [Scenario.page_target "root"] [] (Scenario.database_target "db1" []))
    with (e := Error (upstream_error_message 404 (lit "not found")));
    vm_compute; reflexivity.
Defined.

(* ================================================================== *)
(** * Properties of the content assembler *)
(* ================================================================== *)

Section NormalizerShape.

Variable env : Env.
Variable upstream : Upstream.

(** What a page target is made of when its normalisation returns. *)
Lemma normalizePageTarget_ok pageId log nt log' :
  normalizePageTarget env upstream pageId log = (Ok nt, log') ->
  exists page log1 blocks t props text,
    retrievePage env upstream pageId log = (Ok page, log1)
    /\ fetchPageBlocks env upstream pageId log1 = (Ok blocks, log')
    /\ page_text blocks = Ok text
    /\ nt = {| target_type := lit "page";
               target_id := pageId;
               title := t;
               properties := props;
               content_text := truncate text;
               blocks_count := Z.of_nat (List.length blocks);
               items := None |}.
Proof.
  unfold normalizePageTarget, bindM, liftR, retM. intros H.
  destruct (retrievePage env upstream pageId log) as [[page|e] log1] eqn:E1; [|discriminate].
  destruct (fetchPageBlocks env upstream pageId log1) as [[blocks|e] log2] eqn:E2;
    [|discriminate].
  destruct (extractPageTitle page) as [t|e]; [|discriminate].
  destruct (extractSimpleProperties _) as [props|e]; [|discriminate].
  destruct (page_text blocks) as [text|e] eqn:E3; [|discriminate].
  inversion H; subst. exists page, log1, blocks, t, props, text. auto.
Qed.

(** What a database target is made of when its normalisation returns. *)
Lemma normalizeDatabaseTarget_ok target log nt log' :
  normalizeDatabaseTarget env upstream target log = (Ok nt, log') ->
  exists response results its,
    queryDatabase env upstream (prop target (lit "id"))
      (orElse (prop target (lit "query")) (VObj [])) log = (Ok response, log')
    /\ get response (lit "results") = Ok results
    /\ mapArray normalize_item (orElse results (VArr [])) = Ok its
    /\ nt = {| target_type := lit "database";
               target_id := prop target (lit "id");
               title := database_title its;
               properties := [];
               content_text := truncate (database_text its);
               blocks_count := 0;
               items := Some its |}.
Proof.
  unfold normalizeDatabaseTarget, bindM, liftR, retM. intros H.
  destruct (queryDatabase env upstream _ _ log) as [[response|e] log1] eqn:E1;
    [|discriminate].
  destruct (get response (lit "results")) as [results|e] eqn:E2; [|discriminate].
  destruct (mapArray normalize_item _) as [its|e] eqn:E3; [|discriminate].
  inversion H; subst. exists response, results, its. auto.
Qed.

End NormalizerShape.

Lemma truncate_long text :
  MAX_CONTENT_CHARS < len text ->
  truncate text = slice0 (Z.to_nat MAX_CONTENT_CHARS) text ++ truncation_marker
  /\ len (truncate text) = MAX_CONTENT_CHARS + len truncation_marker
  /\ endsWith truncation_marker (truncate text).
Proof.
  intros Hlong. unfold truncate. rewrite gtb_true by assumption.
  split; [reflexivity|]. split.
  - unfold len in *. rewrite length_app. unfold slice0. rewrite length_firstn.
    unfold MAX_CONTENT_CHARS in *. lia.
  - eexists. reflexivity.
Qed.

Lemma truncate_short text :
  len text <= MAX_CONTENT_CHARS -> truncate text = text.
Proof.
  intros Hshort. unfold truncate. now rewrite gtb_false by assumption.
Qed.

(** C7. The content text of a page target and of a database target is the
    assembled text put through the same truncation.  An assembled text
    longer than the cap of 20,000 characters comes out as its first 20,000
    characters followed by the marker: its length is the cap plus the 16
    characters of the marker, and it ends with the marker.  An assembled
    text of at most 20,000 characters comes out unchanged. *)
Theorem C7_truncation :
  MAX_CONTENT_CHARS = 20000
  /\ len truncation_marker = 16
  /\ (forall text,
        MAX_CONTENT_CHARS < len text ->
        len (truncate text) = MAX_CONTENT_CHARS + len truncation_marker
        /\ endsWith truncation_marker (truncate text))
  /\ (forall text, len text <= MAX_CONTENT_CHARS -> truncate text = text)
  /\ (forall env upstream pageId log nt log',
        normalizePageTarget env upstream pageId log = (Ok nt, log') ->
        exists log1 blocks text,
          fetchPageBlocks env upstream pageId log1 = (Ok blocks, log')
          /\ page_text blocks = Ok text
          /\ content_text nt = truncate text)
  /\ (forall env upstream target log nt log',
        normalizeDatabaseTarget env upstream target log = (Ok nt, log') ->
        exists its,
          items nt = Some its
          /\ content_text nt = truncate (database_text its)).
Proof.
  split; [reflexivity|]. split; [reflexivity|].
  split; [intros text H; now apply truncate_long|].
  split; [exact truncate_short|]. split.
  - intros env upstream pageId log nt log' H.
    apply normalizePageTarget_ok in H.
    destruct H as (page & log1 & blocks & t & props & text & _ & Hf & Ht & ->).
    exists log1, blocks, text. auto.
  - intros env upstream target log nt log' H.
    apply normalizeDatabaseTarget_ok in H.
    destruct H as (response & results & its & _ & _ & _ & ->).
    exists its. auto.
Qed.

Lemma letters_long : MAX_CONTENT_CHARS < len (Scenario.letters 20001).
Proof.
  unfold len, Scenario.letters. rewrite repeat_length, Z2Nat.id by lia.
  unfold MAX_CONTENT_CHARS. lia.
Qed.

(** A text of 20,001 letters is cut to 20,016 characters; a short text, the
    page of [small_store] and the database of [db_store] go through the same
    truncation. *)
Lemma C7_truncation_witness :
  (MAX_CONTENT_CHARS < len (Scenario.letters 20001)
   /\ len (truncate (Scenario.letters 20001)) = MAX_CONTENT_CHARS + len truncation_marker
   /\ endsWith truncation_marker (truncate (Scenario.letters 20001)))
  /\ (len (lit "abc") <= MAX_CONTENT_CHARS /\ truncate (lit "abc") = lit "abc")
  /\ (exists nt log',
        normalizePageTarget Scenario.env0 Scenario.small_store (VStr (lit "root")) []
        = (Ok nt, log')
        /\ exists log1 blocks text,
            fetchPageBlocks Scenario.env0 Scenario.small_store (VStr (lit "root")) log1
            = (Ok blocks, log')
            /\ page_text blocks = Ok text
            /\ content_text nt = truncate text)
  /\ (exists nt log',
        normalizeDatabaseTarget Scenario.env0 Scenario.db_store
          (Scenario.database_target "db1" []) [] = (Ok nt, log')
        /\ exists its,
            items nt = Some its /\ content_text nt = truncate (database_text its)).
Proof.
  destruct C7_truncation as (_ & _ & Hcut & Hkeep & Hpage & Hdb).
  split; [|split; [|split]].
  - split; [exact letters_long|]. exact (Hcut _ letters_long).
  - assert (Hshort : len (lit "abc") <= MAX_CONTENT_CHARS) by (vm_compute; discriminate).
    split; [exact Hshort | exact (Hkeep _ Hshort)].
  - destruct (normalizePageTarget Scenario.env0 Scenario.small_store (VStr (lit "root")) [])
      as [[nt|e] log'] eqn:Hrun.
    + exists nt, log'. split; [reflexivity|]. exact (Hpage _ _ _ _ _ _ Hrun).
    + exfalso. vm_compute in Hrun. discriminate Hrun.
  - destruct (normalizeDatabaseTarget Scenario.env0 Scenario.db_store
                (Scenario.database_target "db1" []) [])
      as [[nt|e] log'] eqn:Hrun.
    + exists nt, log'. split; [reflexivity|]. exact (Hdb _ _ _ _ _ _ Hrun).
    + exfalso. vm_compute in Hrun. discriminate Hrun.
Defined.

Lemma mapR_length {A B} (f : A -> result B) (xs : list A) (ys : list B) :
  mapR f xs = Ok ys -> List.length ys = List.length xs.
Proof.
  revert ys. induction xs as [|x xs IH]; simpl; intros ys H.
  - now inversion H.
  - destruct (f x) as [y|e]; [|discriminate]. simpl in H.
    destruct (mapR f xs) as [ys'|e]; [|discriminate]. simpl in H.
    inversion H; subst. simpl. f_equal. now apply IH.
Qed.

(** C10. A database target that is returned has [blocks_count] 0 and an
    empty top-level property map, whatever the query returned; the rows of
    the result are all in [items], one item per row, and their number is in
    the title [Database (N items)]. *)
Theorem C10_database_target_shape :
  forall (env : Env) (upstream : Upstream) (target : Value) (log : Log)
         (nt : NormalizedTarget) (log' : Log),
    normalizeDatabaseTarget env upstream target log = (Ok nt, log') ->
    blocks_count nt = 0
    /\ properties nt = []
    /\ exists response results rows its,
        queryDatabase env upstream (prop target (lit "id"))
          (orElse (prop target (lit "query")) (VObj [])) log = (Ok response, log')
        /\ get response (lit "results") = Ok results
        /\ orElse results (VArr []) = VArr rows
        /\ items nt = Some its
        /\ List.length its = List.length rows
        /\ title nt
           = lit "Database (" ++ num_to_string (Z.of_nat (List.length rows)) ++ lit " items)".
Proof.
  intros env upstream target log nt log' H.
  apply normalizeDatabaseTarget_ok in H.
  destruct H as (response & results & its & Hq & Hres & Hmap & ->).
  split; [reflexivity|]. split; [reflexivity|].
  destruct (orElse results (VArr [])) as [| | | | | |rows|] eqn:Hrows; try discriminate.
  simpl in Hmap. apply mapR_length in Hmap.
  exists response, results, rows, its. repeat split; try assumption.
  simpl. unfold database_title. now rewrite Hmap.
Qed.

(** The database of [db_store]: two rows, two items, no blocks. *)
Lemma C10_database_target_shape_witness :
  exists nt log',
    normalizeDatabaseTarget Scenario.env0 Scenario.db_store
      (Scenario.database_target "db1" []) [] = (Ok nt, log')
    /\ blocks_count nt = 0
    /\ properties nt = []
    /\ title nt = lit "Database (2 items)".
Proof.
  destruct (normalizeDatabaseTarget Scenario.env0 Scenario.db_store
              (Scenario.database_target "db1" []) [])
    as [[nt|e] log'] eqn:Hrun.
  - exists nt, log'. split; [reflexivity|].
    destruct (C10_database_target_shape _ _ _ _ Hrun) as (Hb & Hp & _).
    split; [exact Hb|]. split; [exact Hp|].
    vm_compute in Hrun. inversion Hrun. reflexivity.
  - exfalso. vm_compute in Hrun. discriminate Hrun.
Defined.

(** C9 at the failing input.  With the default cap of 50, a database target
    whose query carries [page_size: 100] passes validation, and the one
    request the handler sends has 100 as its page size: the query is spread
    over the cap and replaces it.  Without a [page_size] of its own, the
    query is sent with the cap. *)
Lemma C9_page_size_override :
  dbPageLimit Scenario.env0 = Some 50
  /\ query_body Scenario.env0 Scenario.greedy_query = VObj [(lit "page_size", VNum 100)]
  /\ query_body Scenario.env0 (VObj []) = VObj [(lit "page_size", VNum 50)]
  /\ exists response rq,
      handler Scenario.env0 Scenario.db_store Scenario.no_analysis
        (Scenario.post Scenario.greedy_database) [] = (response, [rq])
      /\ rq_method rq = lit "POST"
      /\ rq_path rq = lit "/v1/databases/db1/query"
      /\ rq_body rq = Some (lit "{" ++ quoted (lit "page_size") ++ lit ":100}").
Proof.
  split; [reflexivity|]. split; [reflexivity|]. split; [reflexivity|].
  eexists _, _. split; [vm_compute; reflexivity|].
  repeat split.
Qed.

(* ================================================================== *)
(** * The node budget across the targets of a request *)
(* ================================================================== *)

(** C8, as stated, fails.  With a budget of one block, a request for two
    pages is answered with a snapshot of two targets of one block each: two
    blocks in all, under a configured maximum of one. *)
Lemma C8_budget_shared_counterexample :
  maxBlocks Scenario.env_one_block = Some 1
  /\ exists summary analysis snapshot log',
      handler Scenario.env_one_block Scenario.small_store Scenario.no_analysis
        (Scenario.post Scenario.two_pages) [] = (JsonOk summary analysis snapshot, log')
      /\ map blocks_count snapshot = [1; 1]
      /\ total_blocks snapshot = 2
      /\ ~ total_blocks snapshot <= 1.
Proof.
  split; [reflexivity|].
  eexists _, _, _, _. split; [vm_compute; reflexivity|].
  split; [reflexivity|]. split; [reflexivity|].
  vm_compute. intros H. now apply H.
Qed.

Section BudgetPerTarget.

Variable env : Env.
Variable upstream : Upstream.
Variable N : Z.
Hypothesis HN : maxBlocks env = Some N.
Hypothesis HN0 : 0 < N.

Lemma fetchPageBlocks_count pageId log blocks log' :
  fetchPageBlocks env upstream pageId log = (Ok blocks, log') ->
  Z.of_nat (List.length blocks) <= N.
Proof.
  unfold fetchPageBlocks. intros H.
  destruct (traverse env upstream pageId log) as [[[[u|e] acc] log1]|] eqn:Ht;
    try discriminate.
  inversion H; subst.
  apply traverse_bounded in Ht. destruct Ht as [_ Hlen].
  specialize (Hlen N HN). lia.
Qed.

Lemma process_target_bounded target log pushed log' :
  process_target env upstream target log = (Ok pushed, log') ->
  Forall (target_bounded N) pushed.
Proof.
  unfold process_target, bindM, retM. intros H.
  destruct (is_str (prop target (lit "type")) (lit "page")).
  - destruct (normalizePageTarget env upstream _ log) as [[nt|e] log1] eqn:Hrun;
      [|discriminate].
    inversion H; subst. constructor; [|constructor].
    apply normalizePageTarget_ok in Hrun.
    destruct Hrun as (page & log0 & blocks & t & props & text & _ & Hf & _ & ->).
    left. split; [reflexivity|]. simpl.
    apply fetchPageBlocks_count in Hf. lia.
  - destruct (is_str (prop target (lit "type")) (lit "database")).
    + destruct (normalizeDatabaseTarget env upstream target log) as [[nt|e] log1] eqn:Hrun;
        [|discriminate].
      inversion H; subst. constructor; [|constructor].
      apply normalizeDatabaseTarget_ok in Hrun.
      destruct Hrun as (response & results & its & _ & _ & _ & ->).
      right. split; reflexivity.
    + inversion H; subst. constructor.
Qed.

Lemma process_targets_bounded ts :
  forall acc log out log',
    Forall (target_bounded N) acc ->
    process_targets env upstream ts acc log = (Ok out, log') ->
    Forall (target_bounded N) out.
Proof.
  induction ts as [|t ts IH]; intros acc log out log' Hacc H; simpl in H.
  - inversion H; subst. exact Hacc.
  - unfold bindM in H.
    destruct (process_target env upstream t log) as [[pushed|e] log1] eqn:Ht;
      [|discriminate].
    apply process_target_bounded in Ht.
    eapply IH; [|exact H]. apply Forall_app. split; assumption.
Qed.

Lemma blocks_sum_bounded ts :
  Forall (target_bounded N) ts ->
  forall sum,
    fold_left (fun sum t => sum + blocks_count t) ts sum
    <= sum + Z.of_nat (List.length (page_targets ts)) * N.
Proof.
  induction 1 as [|t ts Ht _ IH]; intros sum; [simpl; lia|].
  specialize (IH (sum + blocks_count t)).
  change (fold_left (fun sum t => sum + blocks_count t) (t :: ts) sum)
    with (fold_left (fun sum t => sum + blocks_count t) ts (sum + blocks_count t)).
  change (page_targets (t :: ts))
    with (if jseqb (target_type t) (lit "page") then t :: page_targets ts
          else page_targets ts).
  destruct Ht as [[Htype Hcount] | [Htype Hcount]]; rewrite Htype.
  - change (jseqb (lit "page") (lit "page")) with true. cbv iota.
    change (List.length (t :: page_targets ts)) with (S (List.length (page_targets ts))).
    rewrite Nat2Z.inj_succ. lia.
  - change (jseqb (lit "database") (lit "page")) with false. cbv iota. lia.
Qed.

End BudgetPerTarget.

(** C8, amended.  Every traversal counts its own blocks from zero against
    the configured maximum.  In a snapshot that the handler returns, each
    page target has at most [maxNodes] blocks and each database target has
    none, so the blocks of all targets together are at most [maxNodes] times
    the number of page targets. *)
Theorem C8_budget_per_target :
  forall (env : Env) (upstream : Upstream)
         (buildAnalysis : list NormalizedTarget -> Value -> Value -> Value)
         (req : VercelRequest) (log : Log) (N : Z)
         (summary : jsstring) (analysis : Value) (snapshot : list NormalizedTarget)
         (log' : Log),
    maxBlocks env = Some N ->
    0 < N ->
    handler env upstream buildAnalysis req log = (JsonOk summary analysis snapshot, log') ->
    Forall (fun t => 0 <= blocks_count t <= N) snapshot
    /\ Forall (fun t => target_type t = lit "database" -> blocks_count t = 0) snapshot
    /\ total_blocks snapshot <= Z.of_nat (List.length (page_targets snapshot)) * N.
Proof.
  intros env upstream buildAnalysis req log N summary analysis snapshot log' HN HN0 H.
  assert (Hall : Forall (target_bounded N) snapshot).
  { unfold handler in H.
    destruct (jseqb (req_method req) (lit "OPTIONS")); [discriminate|].
    destruct (negb (jseqb (req_method req) (lit "POST"))); [discriminate|].
    destruct (authenticate env (req_authorization req)); [|discriminate].
    destruct (validateRequest (req_body req)) as [[request|message]|e]; try discriminate.
    destruct (process_targets env upstream (targets request) [] log)
      as [[normalizedTargets|e] log1] eqn:Hrun; [|discriminate].
    inversion H; subst.
    eapply process_targets_bounded; eauto. }
  split; [|split].
  - eapply Forall_impl; [|exact Hall]. simpl.
    intros t [[_ Hc] | [_ Hc]]; lia.
  - eapply Forall_impl; [|exact Hall]. simpl.
    intros t [[Ht _] | [_ Hc]] Hdb; [|exact Hc].
    rewrite Ht in Hdb. discriminate Hdb.
  - unfold total_blocks.
    pose proof (blocks_sum_bounded Hall 0) as Hsum. lia.
Qed.

(** The two pages of the counterexample: one block each, two page targets,
    a maximum of one. *)
Lemma C8_budget_per_target_witness :
  exists summary analysis snapshot log',
    handler Scenario.env_one_block Scenario.small_store Scenario.no_analysis
      (Scenario.post Scenario.two_pages) [] = (JsonOk summary analysis snapshot, log')
    /\ Forall (fun t => 0 <= blocks_count t <= 1) snapshot
    /\ Forall (fun t => target_type t = lit "database" -> blocks_count t = 0) snapshot
    /\ total_blocks snapshot <= Z.of_nat (List.length (page_targets snapshot)) * 1.
Proof.
  destruct (handler Scenario.env_one_block Scenario.small_store Scenario.no_analysis
              (Scenario.post Scenario.two_pages) []) as [response log'] eqn:Hrun.
  assert (Hok : exists summary analysis snapshot, response = JsonOk summary analysis snapshot).
  { vm_compute in Hrun. inversion Hrun. eexists _, _, _. reflexivity. }
  destruct Hok as (summary & analysis & snapshot & ->).
  exists summary, analysis, snapshot, log'. split; [reflexivity|].
  apply (@C8_budget_per_target Scenario.env_one_block Scenario.small_store
           Scenario.no_analysis (Scenario.post Scenario.two_pages) [] 1
           summary analysis snapshot log' eq_refl);
    [lia | exact Hrun].
Defined.

(* ================================================================== *)
(** * Further properties of the gateway *)
(* ================================================================== *)

Lemma toUpperCase_idempotent s : toUpperCase (toUpperCase s) = toUpperCase s.
Proof.
  unfold toUpperCase. rewrite map_map. apply map_ext. intros c.
  unfold upper_unit.
  destruct ((97 <=? c)%N && (c <=? 122)%N) eqn:E; [|now rewrite E].
  apply andb_true_iff in E. destruct E as [E1 E2].
  apply N.leb_le in E1, E2.
  replace ((97 <=? c - 32)%N && (c - 32 <=? 122)%N) with false; [reflexivity|].
  symmetry. apply andb_false_iff. left. apply N.leb_gt. lia.
Qed.

(** X1. The write guard blocks exactly the calls whose method, read without
    regard to the case of its letters, is PATCH or DELETE, and the POST
    calls whose path is [/v1/pages] or [/v1/comments], with or without one
    trailing slash.  Every other call passes, and the answer does not depend
    on the case of the method. *)
Theorem X1_write_guard_exact :
  forall method path : jsstring,
    (isWriteCall method path = true
     <-> (toUpperCase method = lit "PATCH"
          \/ toUpperCase method = lit "DELETE"
          \/ (toUpperCase method = lit "POST"
              /\ (path = lit "/v1/pages" \/ path = lit "/v1/pages/"
                  \/ path = lit "/v1/comments" \/ path = lit "/v1/comments/"))))
    /\ isWriteCall (toUpperCase method) path = isWriteCall method path.
Proof.
  intros method path. split.
  - unfold isWriteCall. set (u := toUpperCase method).
    destruct (jseqb u (lit "PATCH")) eqn:E1.
    { apply jseqb_eq in E1. simpl. tauto. }
    destruct (jseqb u (lit "DELETE")) eqn:E2.
    { apply jseqb_eq in E2. simpl. tauto. }
    assert (N1 : u <> lit "PATCH") by (intros H; apply jseqb_eq in H; congruence).
    assert (N2 : u <> lit "DELETE") by (intros H; apply jseqb_eq in H; congruence).
    cbn [orb existsb WRITE_PATTERNS wp_method wp_pattern].
    rewrite E1, E2. cbn [andb orb].
    rewrite !orb_false_r.
    destruct (jseqb u (lit "POST")) eqn:E3.
    + apply jseqb_eq in E3. cbn [andb].
      unfold re_exact_opt_slash. rewrite !orb_true_iff, !jseqb_eq.
      change (lit "/v1/pages" ++ lit "/") with (lit "/v1/pages/").
      change (lit "/v1/comments" ++ lit "/") with (lit "/v1/comments/").
      tauto.
    + assert (N3 : u <> lit "POST") by (intros H; apply jseqb_eq in H; congruence).
      cbn [andb orb]. split; [discriminate | tauto].
  - unfold isWriteCall. now rewrite toUpperCase_idempotent.
Qed.

Section GatewayRequests.

Variable env : Env.
Variable upstream : Upstream.

(** The request of one call, field by field. *)
Lemma notionFetch_sent path options log :
  (snd (notionFetch env upstream path options log) = log
   /\ exists e, fst (notionFetch env upstream path options log) = Throw e)
  \/ (exists rq,
        snd (notionFetch env upstream path options log) = log ++ [rq]
        /\ rq_method rq = method_of options
        /\ request_for upstream path (opt_params options) rq
        /\ rq_body rq
           = (if truthy (opt_body options) then JSON_stringify (opt_body options)
              else None)
        /\ isWriteCall (method_of options) path = false
        /\ guarded_request env upstream rq).
Proof.
  destruct (notionFetch_cases env upstream path options log)
    as [H | (c & token & url & Hguard & Htoken & Hurl & Hlog)]; [now left|].
  right. eexists. split; [exact Hlog|].
  split; [reflexivity|].
  split; [now apply fetch_call_request_for|].
  split; [reflexivity|]. split; [exact Hguard|].
  split; [|split; [|reflexivity]].
  - exists path. split; [exact Hguard|]. exists url. repeat split. exact Hurl.
  - exists c, token. split; [exact Htoken | reflexivity].
Qed.

Lemma request_for_plain path params rq :
  resolves_plain upstream ->
  plain_path path = true ->
  request_for upstream path params rq ->
  rq_origin rq = NOTION_BASE
  /\ rq_path rq = path
  /\ rq_params rq = with_params [] params.
Proof.
  intros Hplain Hpath (url & Hurl & H1 & H2 & H3).
  rewrite (Hplain path Hpath) in Hurl. inversion Hurl; subst url.
  simpl in *. auto.
Qed.

(** X2. One call of the gateway sends at most one request.  When it sends
    none, it throws.  When it sends one, that request has the upper-cased
    method of the call and goes to the URL that the platform makes of the
    path of the call, with the parameters of the call set in its query; the
    path of the call passed the guard under that method; and the request
    carries the configured credential as a bearer token and the configured
    or default protocol version.  The guard sees the path of the call, not
    the path of the URL: only for a plain path, which the platform leaves as
    it is, is the request known to go to that very path below the base, and
    so to be no write call by its own method and path. *)
Theorem X2_gateway_one_guarded_request :
  forall (path : jsstring) (options : NotionFetchOptions) (log : Log),
    ((snd (notionFetch env upstream path options log) = log
      /\ exists e, fst (notionFetch env upstream path options log) = Throw e)
     \/ (exists rq,
           snd (notionFetch env upstream path options log) = log ++ [rq]
           /\ rq_method rq = method_of options
           /\ request_for upstream path (opt_params options) rq
           /\ isWriteCall (method_of options) path = false
           /\ guarded_request env upstream rq))
    /\ (resolves_plain upstream ->
        plain_path path = true ->
        forall rq,
          snd (notionFetch env upstream path options log) = log ++ [rq] ->
          rq_origin rq = NOTION_BASE
          /\ rq_path rq = path
          /\ isWriteCall (rq_method rq) (rq_path rq) = false).
Proof.
  intros path options log.
  destruct (notionFetch_sent path options log)
    as [H | (rq & H1 & H2 & H3 & _ & H4 & H5)].
  - split; [now left|]. intros _ _ rq Hrq. exfalso.
    destruct H as [H _]. rewrite H in Hrq. symmetry in Hrq.
    now apply app_one_neq in Hrq.
  - split; [right; exists rq; auto|].
    intros Hplain Hpath rq' Hrq'. rewrite H1 in Hrq'.
    apply app_inv_head in Hrq'. inversion Hrq'; subst rq'.
    destruct (request_for_plain Hplain Hpath H3) as (Ho & Hp & _).
    repeat split; [exact Ho | exact Hp |]. now rewrite H2, Hp.
Qed.

End GatewayRequests.

(** ** The parser of the scenarios on plain paths *)

Lemma cut_absent c s : ~ In c s -> Scenario.cut c s = (s, None).
Proof.
  induction s as [|x s IH]; intros Hno; [reflexivity|]. simpl.
  destruct (x =? c)%N eqn:E.
  - apply N.eqb_eq in E. subst. exfalso. apply Hno. now left.
  - rewrite IH by (intros H; apply Hno; now right). reflexivity.
Qed.

Lemma split_units c s seg x :
  In seg (Scenario.split c s) -> In x seg -> In x s.
Proof.
  revert seg. induction s as [|y s IH]; intros seg Hseg Hx; simpl in Hseg.
  - destruct Hseg as [<- | []]. contradiction.
  - destruct (y =? c)%N.
    + destruct Hseg as [<- | Hseg]; [contradiction|]. right. eapply IH; eauto.
    + destruct (Scenario.split c s) as [|seg0 rest] eqn:E.
      * destruct Hseg as [<- | []]. destruct Hx as [<- | []]. now left.
      * destruct Hseg as [<- | Hseg].
        -- destruct Hx as [<- | Hx]; [now left|]. right. apply (IH seg0); auto.
           now left.
        -- right. apply (IH seg); auto. now right.
Qed.

Lemma pathname_of_split s :
  Scenario.pathname_of (Scenario.split 47 s) = 47%N :: s.
Proof.
  unfold Scenario.pathname_of.
  induction s as [|x s IH]; [reflexivity|]. simpl Scenario.split.
  destruct (x =? 47)%N eqn:E.
  - apply N.eqb_eq in E. subst. simpl. now rewrite IH.
  - destruct (Scenario.split 47 s) as [|seg rest]; [discriminate IH|].
    simpl in *. inversion IH; subst. reflexivity.
Qed.

Lemma path_segments_plain segs :
  forall path,
    Forall (fun seg => ~ In 46%N seg) segs ->
    Scenario.path_segments segs path = path ++ segs.
Proof.
  induction segs as [|seg rest IH]; intros path Hall; simpl.
  - now rewrite app_nil_r.
  - inversion Hall as [|? ? Hseg Hrest]; subst.
    assert (H2 : jseqb seg (lit "..") = false).
    { apply jseqb_neq. intros ->. apply Hseg. now left. }
    assert (H1 : jseqb seg (lit ".") = false).
    { apply jseqb_neq. intros ->. apply Hseg. now left. }
    rewrite H2, H1, IH by assumption. now rewrite <- app_assoc.
Qed.

Lemma plain_unit_is c :
  plain_unit c = true ->
  Scenario.url_unit c = true /\ c <> 35%N /\ c <> 63%N /\ c <> 46%N.
Proof.
  intros H. unfold Scenario.url_unit. rewrite H. split; [reflexivity|].
  repeat split; intros ->; discriminate H.
Qed.

Lemma parse_url_plain (respond : Log -> Request -> HttpResponse) :
  resolves_plain {| resolve := Scenario.parse_url; respond := respond |}.
Proof.
  intros p Hp. simpl. unfold plain_path in Hp.
  destruct p as [|c rest]; [discriminate|].
  destruct (N.eq_dec c 47) as [-> | Hc].
  2: { exfalso. destruct c as [|c]; try discriminate.
       do 6 (destruct c as [c|c|]; try discriminate). now apply Hc. }
  apply andb_true_iff in Hp. destruct Hp as [Hsecond Hunits].
  unfold Scenario.parse_url.
  assert (Hsec : match rest with 47%N :: _ => true | _ => false end = false).
  { destruct rest as [|x rest']; [reflexivity|].
    destruct (N.eq_dec x 47) as [-> | Hx]; [discriminate Hsecond|].
    destruct x as [|x]; try reflexivity.
    do 6 (destruct x as [x|x|]; try reflexivity). now contradiction Hx. }
  rewrite Hsec.
  assert (Hall : forall x, In x rest -> plain_unit x = true).
  { intros x Hx. revert x Hx. now apply forallb_forall. }
  assert (Hurl : forallb Scenario.url_unit rest = true).
  { apply forallb_forall. intros x Hx. now apply plain_unit_is, Hall. }
  rewrite Hurl. cbn [negb].
  assert (Hno : forall c, c = 35%N \/ c = 63%N \/ c = 46%N -> ~ In c rest).
  { intros x Hx Hin. apply Hall, plain_unit_is in Hin.
    destruct Hin as (_ & H1 & H2 & H3). intuition. }
  cbv zeta.
  rewrite (@cut_absent 35%N rest (Hno 35%N (or_introl eq_refl))). cbn [fst snd].
  rewrite (@cut_absent 63%N rest (Hno 63%N (or_intror (or_introl eq_refl)))).
  cbn [fst snd].
  rewrite path_segments_plain.
  - simpl app. rewrite pathname_of_split. reflexivity.
  - apply Forall_forall. intros seg Hseg Hdot.
    apply (Hno 46%N (or_intror (or_intror eq_refl))).
    eapply split_units; eauto.
Qed.

(** The retrieval of page [abc] goes to [/v1/pages/abc] below the base. *)
Lemma X2_gateway_one_guarded_request_witness :
  snd (notionFetch Scenario.env0 Scenario.empty_store (page_path (VStr (lit "abc")))
         no_options []) = [] ++ [Sample.page_call]
  /\ rq_origin Sample.page_call = NOTION_BASE
  /\ rq_path Sample.page_call = lit "/v1/pages/abc"
  /\ isWriteCall (rq_method Sample.page_call) (rq_path Sample.page_call) = false.
Proof.
  assert (H : snd (notionFetch Scenario.env0 Scenario.empty_store
                     (page_path (VStr (lit "abc"))) no_options [])
              = [] ++ [Sample.page_call]) by reflexivity.
  split; [exact H|].
  apply (proj2 (@X2_gateway_one_guarded_request Scenario.env0 Scenario.empty_store
                  (page_path (VStr (lit "abc"))) no_options [])
           (parse_url_plain _) eq_refl Sample.page_call H).
Defined.

(* ================================================================== *)
(** * Further properties of the traversal *)
(* ================================================================== *)

Lemma steps_mono p q blocks : p <= q -> steps_ok p blocks -> steps_ok q blocks.
Proof.
  destruct blocks as [|b rest]; simpl; [auto|]. intros Hpq [H1 H2]. split; [lia | exact H2].
Qed.

Lemma steps_app q l1 : forall p l2,
  q <= p ->
  steps_ok p l1 ->
  Forall (fun b => q <= fb_depth b) l1 ->
  steps_ok q l2 ->
  steps_ok p (l1 ++ l2).
Proof.
  induction l1 as [|x l1 IH]; intros p l2 Hqp H1 Hdeep H2; simpl.
  - eapply steps_mono; eauto.
  - destruct H1 as [Hx H1]. inversion Hdeep; subst.
    split; [exact Hx|]. apply IH; assumption.
Qed.

Section TraversalSteps.

Variable env : Env.
Variable upstream : Upstream.

Lemma step_none spare d acc log : traversal_step env upstream spare d acc acc log log.
Proof.
  exists [], []. rewrite !app_nil_r. simpl.
  repeat split; try constructor. lia.
Qed.

(** The listing call for the children of one block. *)
Lemma retrieveBlockChildren_call blockId log :
  snd (retrieveBlockChildren env upstream blockId 100 log) = log
  \/ exists rq,
      snd (retrieveBlockChildren env upstream blockId 100 log) = log ++ [rq]
      /\ listing_call env upstream rq.
Proof.
  unfold retrieveBlockChildren.
  match goal with
  | |- context [notionFetch env upstream ?p ?o log] =>
      destruct (notionFetch_sent env upstream p o log)
        as [[H _] | (rq & H1 & H2 & H3 & H4 & _ & H5)]
  end; [now left|].
  right. exists rq. split; [exact H1|]. split; [|exact H5].
  split; [exact H2|]. split; [exists blockId; exact H3 | exact H4].
Qed.

Lemma step_push self_blocks self_calls b d acc log acc' log' spare :
  acc' = (acc ++ [flat b d]) ++ self_blocks ->
  log' = log ++ self_calls ->
  Forall (listing_call env upstream) self_calls ->
  (List.length self_calls <= spare + S (List.length self_blocks))%nat ->
  Forall (fun x => d <= fb_depth x) self_blocks ->
  steps_ok d self_blocks ->
  traversal_step env upstream spare d acc acc' log log'.
Proof.
  intros -> -> Hcalls Hcount Hdeep Hsteps.
  exists (flat b d :: self_blocks), self_calls.
  rewrite <- app_assoc. simpl.
  repeat split; try assumption; try lia.
  constructor; [simpl; lia | assumption].
Qed.

Lemma each_block_steps self :
  call_steps env upstream self ->
  forall blocks depth acc log r acc' log',
    each_block env self depth blocks acc log = Some (r, acc', log') ->
    traversal_step env upstream 0 depth acc acc' log log'.
Proof.
  intros Hself. induction blocks as [|b rest IH]; intros depth acc log r acc' log' H.
  - simpl in H. inversion H; subst. apply step_none.
  - simpl in H.
    destruct (geN (Z.of_nat (List.length acc)) (maxBlocks env)).
    { inversion H; subst. apply step_none. }
    destruct (nullish b).
    { inversion H; subst. apply step_none. }
    destruct (truthy (prop b (lit "has_children")) && ltN depth (maxDepth env)).
    + destruct (self (prop b (lit "id")) (depth + 1) (acc ++ [flat b depth]) log)
        as [[[r1 acc1] log1]|] eqn:Hcall; [|discriminate].
      apply Hself in Hcall.
      destruct Hcall as (b1 & c1 & -> & -> & Hc1 & Hn1 & Hd1 & Hs1).
      replace (depth + 1 - 1) with depth in Hs1 by lia.
      assert (Hd1' : Forall (fun x => depth <= fb_depth x) b1)
        by (eapply Forall_impl; [|exact Hd1]; simpl; intros; lia).
      destruct r1 as [u|e].
      * apply IH in H.
        destruct H as (b2 & c2 & -> & -> & Hc2 & Hn2 & Hd2 & Hs2).
        eapply step_push with (self_blocks := b1 ++ b2) (self_calls := c1 ++ c2).
        -- now rewrite !app_assoc.
        -- now rewrite app_assoc.
        -- apply Forall_app. split; assumption.
        -- rewrite !length_app. lia.
        -- apply Forall_app. split; assumption.
        -- apply steps_app with (q := depth - 1); try assumption; try lia.
           eapply Forall_impl; [|exact Hd1]. simpl. intros; lia.
      * inversion H; subst.
        eapply step_push with (self_blocks := b1) (self_calls := c1);
          try reflexivity; try assumption; try lia.
    + apply IH in H.
      destruct H as (b2 & c2 & -> & -> & Hc2 & Hn2 & Hd2 & Hs2).
      eapply step_push with (self_blocks := b2) (self_calls := c2);
        try reflexivity; try assumption; try lia.
      eapply steps_mono; [|exact Hs2]. lia.
Qed.

Lemma recurse_steps fuel : call_steps env upstream (recurse env upstream fuel).
Proof.
  induction fuel as [|fuel IH]; intros pid d acc log r acc' log' H; [discriminate|].
  simpl in H. unfold recurse_body in H.
  destruct (gtN d (maxDepth env) || geN (Z.of_nat (List.length acc)) (maxBlocks env)).
  { inversion H; subst. apply step_none. }
  assert (Hcall := retrieveBlockChildren_call pid log).
  destruct (retrieveBlockChildren env upstream pid 100 log) as [r0 log1] eqn:Hfetch.
  simpl in Hcall.
  assert (Hrest : traversal_step env upstream 0 d acc acc' log1 log').
  { destruct r0 as [resp|e].
    - destruct (try! results <- get resp (lit "results"); iterate results) as [blocks|e].
      + eapply each_block_steps; eauto.
      + inversion H; subst. apply step_none.
    - inversion H; subst. apply step_none. }
  destruct Hrest as (bs & cs & -> & -> & Hc & Hn & Hd & Hs).
  destruct Hcall as [-> | (rq & -> & Hrq)].
  - exists bs, cs. repeat split; try assumption. lia.
  - exists bs, (rq :: cs). rewrite <- app_assoc. simpl.
    repeat split; try assumption; [constructor; assumption | lia].
Qed.

(** One traversal, from its empty array: listing calls only, at most one
    more than the blocks it has put into the array, and blocks that go down
    one level at a time from depth 0. *)
Lemma traverse_steps pageId log r emitted log' :
  traverse env upstream pageId log = Some (r, emitted, log') ->
  exists calls,
    log' = log ++ calls
    /\ Forall (listing_call env upstream) calls
    /\ (List.length calls <= S (List.length emitted))%nat
    /\ steps_ok (-1) emitted.
Proof.
  intros H. apply recurse_steps in H.
  destruct H as (bs & cs & -> & -> & Hc & Hn & Hd & Hs).
  exists cs. simpl in *. auto.
Qed.

End TraversalSteps.

(** X7. Whatever the external store answers, the flat list that
    [fetchPageBlocks] returns starts at depth 0 and goes down one level at a
    time: no block is more than one level deeper than the block before it,
    so the indentation of the rendered lines never skips a level. *)
Theorem X7_depths_step_by_one :
  forall (env : Env) (upstream : Upstream) (pageId : Value) (log : Log)
         (blocks : list FlatBlock) (log' : Log),
    fetchPageBlocks env upstream pageId log = (Ok blocks, log') ->
    steps_ok (-1) blocks
    /\ Forall (fun b => 0 <= fb_depth b) blocks
    /\ (forall b rest, blocks = b :: rest -> fb_depth b = 0).
Proof.
  intros env upstream pageId log blocks log' H. unfold fetchPageBlocks in H.
  destruct (traverse env upstream pageId log) as [[[[u|e] acc] log1]|] eqn:Ht;
    try discriminate.
  inversion H; subst.
  assert (Hs : steps_ok (-1) blocks).
  { apply traverse_steps in Ht. destruct Ht as (calls & _ & _ & _ & Hs). exact Hs. }
  assert (Hd : Forall (fun b => 0 <= fb_depth b) blocks).
  { apply traverse_bounded in Ht. destruct Ht as [Hd _].
    eapply Forall_impl; [|exact Hd]. simpl. tauto. }
  split; [exact Hs|]. split; [exact Hd|].
  intros b rest ->. simpl in Hs. inversion Hd; subst. lia.
Qed.

(** The walk of [small_store]: depths 0, 1, 0. *)
Lemma X7_depths_step_by_one_witness :
  exists blocks log',
    fetchPageBlocks Scenario.env0 Scenario.small_store (VStr (lit "root")) []
    = (Ok blocks, log')
    /\ map fb_depth blocks = [0; 1; 0]
    /\ steps_ok (-1) blocks.
Proof.
  destruct (fetchPageBlocks Scenario.env0 Scenario.small_store (VStr (lit "root")) [])
    as [[blocks|e] log'] eqn:Hrun.
  - exists blocks, log'. split; [reflexivity|].
    split; [|exact (proj1 (X7_depths_step_by_one _ _ _ _ Hrun))].
    vm_compute in Hrun. inversion Hrun. reflexivity.
  - exfalso. vm_compute in Hrun. discriminate Hrun.
Defined.

(* ================================================================== *)
(** * What a request to the handler sends *)
(* ================================================================== *)

Lemma sends_ret {A} P (a : A) : sends_within P (Some 0%nat) (retM a).
Proof. intros log. exists []. rewrite app_nil_r. simpl. auto. Qed.

Lemma sends_lift {A} P (r : result A) : sends_within P (Some 0%nat) (liftR r).
Proof. intros log. exists []. rewrite app_nil_r. simpl. auto. Qed.

Lemma sends_weaken {A} (P Q : Request -> Prop) a b (m : M A) :
  (forall rq, P rq -> Q rq) -> bound_le a b ->
  sends_within P a m -> sends_within Q b m.
Proof.
  intros HPQ Hab Hm log. destruct (Hm log) as (new & Hlog & HP & Hn).
  exists new. split; [exact Hlog|]. split; [eapply Forall_impl; eauto|].
  destruct b as [y|]; [|exact I]. destruct a as [x|]; simpl in *; [lia | contradiction].
Qed.

Lemma sends_bound {A} (P : Request -> Prop) a b (m : M A) :
  bound_le a b -> sends_within P a m -> sends_within P b m.
Proof. intros. eapply sends_weaken; eauto. Qed.

Lemma sends_bind {A B} P a b (m : M A) (k : A -> M B) :
  sends_within P a m -> (forall x, sends_within P b (k x)) ->
  sends_within P (plus_bound a b) (bindM m k).
Proof.
  intros Hm Hk log. unfold bindM.
  destruct (Hm log) as (n1 & Hlog1 & HP1 & Hn1).
  destruct (m log) as [[x|e] log1]; simpl in Hlog1; subst log1.
  - destruct (Hk x (log ++ n1)) as (n2 & Hlog2 & HP2 & Hn2).
    exists (n1 ++ n2). rewrite Hlog2, app_assoc. split; [reflexivity|].
    split; [apply Forall_app; auto|].
    destruct a as [x1|], b as [x2|]; simpl in *; try exact I.
    rewrite length_app. lia.
  - exists n1. split; [reflexivity|]. split; [exact HP1|].
    destruct a as [x1|], b as [x2|]; simpl in *; try exact I. lia.
Qed.

Section HandlerRequests.

Variable env : Env.
Variable upstream : Upstream.
Variable buildAnalysis : list NormalizedTarget -> Value -> Value -> Value.

(** One call of the gateway, seen as a function that sends. *)
Lemma notionFetch_sends (P : Request -> Prop) path options :
  (forall rq,
      rq_method rq = method_of options ->
      request_for upstream path (opt_params options) rq ->
      rq_body rq
      = (if truthy (opt_body options) then JSON_stringify (opt_body options) else None) ->
      guarded_request env upstream rq -> P rq) ->
  sends_within P (Some 1%nat) (notionFetch env upstream path options).
Proof.
  intros HP log.
  destruct (notionFetch_sent env upstream path options log)
    as [[Hlog _] | (rq & Hlog & Hm & Hp & Hb & _ & Hg)].
  - exists []. rewrite app_nil_r. simpl. auto.
  - exists [rq]. split; [exact Hlog|]. split; [|simpl; lia].
    constructor; [|constructor]. now apply HP.
Qed.

Lemma retrievePage_sends pageId :
  sends_within (safe_request env upstream) (Some 1%nat) (retrievePage env upstream pageId).
Proof.
  apply notionFetch_sends. intros rq Hm Hp Hb Hg.
  split; [|exact Hg]. left. split; [exact Hm|]. split; [|exact Hb].
  exists pageId. exact Hp.
Qed.

Lemma queryDatabase_sends databaseId query :
  sends_within (safe_request env upstream) (Some 1%nat)
    (queryDatabase env upstream databaseId query).
Proof.
  apply notionFetch_sends. intros rq Hm Hp Hb Hg.
  split; [|exact Hg]. right. right. split; [exact Hm|].
  eexists databaseId, _. split; [exact Hp | exact Hb].
Qed.

Lemma listing_is_safe rq : listing_call env upstream rq -> safe_request env upstream rq.
Proof. intros [Hc Hg]. split; [right; left; exact Hc | exact Hg]. Qed.

Lemma fetchPageBlocks_sends pageId :
  sends_within (safe_request env upstream) (traversal_calls env)
    (fetchPageBlocks env upstream pageId).
Proof.
  intros log. unfold fetchPageBlocks.
  destruct (traverse env upstream pageId log) as [[[r acc] log1]|] eqn:Ht.
  - pose proof (traverse_steps _ _ _ _ Ht) as (calls & -> & Hc & Hn & _).
    pose proof (traverse_bounded _ _ _ _ Ht) as [_ Hlen].
    exists calls. split; [now destruct r|].
    split; [eapply Forall_impl; [apply listing_is_safe | exact Hc]|].
    unfold traversal_calls. destruct (maxBlocks env) as [N|]; [|exact I].
    specialize (Hlen N eq_refl). simpl. lia.
  - now apply traverse_returns in Ht.
Qed.

Lemma normalizePageTarget_sends pageId :
  sends_within (safe_request env upstream) (target_calls env)
    (normalizePageTarget env upstream pageId).
Proof.
  unfold normalizePageTarget, target_calls.
  apply sends_bind; [apply retrievePage_sends|]. intros page.
  apply sends_bound with (a := plus_bound (traversal_calls env) (Some 0%nat)).
  { destruct (traversal_calls env); simpl; auto; lia. }
  apply sends_bind; [apply fetchPageBlocks_sends|]. intros blocks.
  apply sends_bound with (a := plus_bound (Some 0%nat) (Some 0%nat)); [simpl; lia|].
  apply sends_bind; [apply sends_lift|]. intros t.
  apply sends_bound with (a := plus_bound (Some 0%nat) (Some 0%nat)); [simpl; lia|].
  apply sends_bind; [apply sends_lift|]. intros props.
  apply sends_bound with (a := plus_bound (Some 0%nat) (Some 0%nat)); [simpl; lia|].
  apply sends_bind; [apply sends_lift|]. intros text. apply sends_ret.
Qed.

Lemma normalizeDatabaseTarget_sends target :
  sends_within (safe_request env upstream) (Some 1%nat)
    (normalizeDatabaseTarget env upstream target).
Proof.
  unfold normalizeDatabaseTarget.
  apply sends_bound with (a := plus_bound (Some 1%nat) (Some 0%nat)); [simpl; lia|].
  apply sends_bind; [apply queryDatabase_sends|]. intros response.
  apply sends_bound with (a := plus_bound (Some 0%nat) (Some 0%nat)); [simpl; lia|].
  apply sends_bind; [apply sends_lift|]. intros results.
  apply sends_bound with (a := plus_bound (Some 0%nat) (Some 0%nat)); [simpl; lia|].
  apply sends_bind; [apply sends_lift|]. intros its. apply sends_ret.
Qed.

Lemma process_target_sends target :
  sends_within (safe_request env upstream) (target_calls env)
    (process_target env upstream target).
Proof.
  unfold process_target.
  assert (Hone : bound_le (Some 1%nat) (target_calls env)).
  { unfold target_calls. destruct (traversal_calls env); simpl; auto; lia. }
  assert (Hsame : forall b, bound_le (plus_bound b (Some 0%nat)) b).
  { intros [x|]; simpl; auto; lia. }
  destruct (is_str (prop target (lit "type")) (lit "page")).
  - eapply sends_bound; [apply Hsame|].
    apply sends_bind; [apply normalizePageTarget_sends|]. intros; apply sends_ret.
  - destruct (is_str (prop target (lit "type")) (lit "database")).
    + apply sends_bound with (a := plus_bound (Some 1%nat) (Some 0%nat));
        [exact Hone|].
      apply sends_bind; [apply normalizeDatabaseTarget_sends|]. intros; apply sends_ret.
    + eapply sends_bound; [|apply sends_ret].
      destruct (target_calls env); simpl; auto; lia.
Qed.

Lemma process_targets_sends ts :
  forall acc,
    sends_within (safe_request env upstream) (times_bound (List.length ts) (target_calls env))
      (process_targets env upstream ts acc).
Proof.
  induction ts as [|t ts IH]; intros acc; simpl process_targets.
  - eapply sends_bound; [|apply sends_ret].
    destruct (target_calls env); simpl; auto.
  - eapply sends_bound;
      [|apply sends_bind; [apply process_target_sends | intros; apply IH]].
    destruct (target_calls env) as [c|]; simpl; auto; lia.
Qed.

(** Everything the handler sends, for any request. *)
Lemma handler_sends req log :
  exists new,
    snd (handler env upstream buildAnalysis req log) = log ++ new
    /\ Forall (safe_request env upstream) new
    /\ (new = []
        \/ (req_method req = lit "POST"
            /\ authenticate env (req_authorization req) = AuthOk
            /\ exists request,
                validateRequest (req_body req) = Ok (Valid request)
                /\ within (List.length new)
                     (times_bound (List.length (targets request)) (target_calls env)))).
Proof.
  unfold handler.
  assert (Hnone : forall resp : Response,
             exists new, snd (resp, log) = log ++ new /\ Forall (safe_request env upstream) new
                         /\ (new = [] \/ (req_method req = lit "POST"
            /\ authenticate env (req_authorization req) = AuthOk
            /\ exists request,
                validateRequest (req_body req) = Ok (Valid request)
                /\ within (List.length new)
                     (times_bound (List.length (targets request)) (target_calls env))))).
  { intros resp. exists []. rewrite app_nil_r. simpl. auto. }
  destruct (jseqb (req_method req) (lit "OPTIONS")); [apply Hnone|].
  destruct (jseqb (req_method req) (lit "POST")) eqn:Hpost; simpl negb; cbv iota;
    [|apply Hnone].
  apply jseqb_eq in Hpost.
  destruct (authenticate env (req_authorization req)) eqn:Hauth; [|apply Hnone].
  destruct (validateRequest (req_body req)) as [[request|message]|e] eqn:Hvalid;
    try apply Hnone.
  destruct (process_targets_sends (targets request) [] log) as (new & Hlog & Hsafe & Hn).
  exists new.
  split; [destruct (process_targets env upstream (targets request) [] log)
            as [[ts|e] log1]; exact Hlog|].
  split; [exact Hsafe|]. right. eauto 10.
Qed.

End HandlerRequests.

Lemma request_for_addressed upstream path params rq :
  request_for upstream path params rq -> addressed upstream path rq.
Proof. intros (url & H1 & H2 & H3 & _). exists url. auto. Qed.

Lemma read_request_lands env upstream rq :
  read_request env upstream rq -> lands_on_read upstream rq.
Proof.
  assert (Hland : forall path params,
             isWriteCall (rq_method rq) path = false ->
             request_for upstream path params rq ->
             resolves_plain upstream -> plain_path path = true ->
             rq_origin rq = NOTION_BASE /\ rq_path rq = path
             /\ isWriteCall (rq_method rq) (rq_path rq) = false).
  { intros path params Hguard Hfor Hplain Hpath.
    destruct (request_for_plain Hplain Hpath Hfor) as (Ho & Hp & _).
    repeat split; [exact Ho | exact Hp |]. now rewrite Hp. }
  intros [(Hm & (id & Hfor) & _) | [(Hm & (id & Hfor) & _) | (Hm & id & query & Hfor & _)]].
  - exists (page_path id). split; [left; split; [exact Hm | now exists id]|].
    split; [exact (request_for_addressed Hfor)|].
    apply (Hland _ None); [now rewrite Hm | exact Hfor].
  - exists (children_path id).
    split; [right; left; split; [exact Hm | now exists id]|].
    split; [exact (request_for_addressed Hfor)|].
    apply (Hland _ listing_params); [now rewrite Hm | exact Hfor].
  - exists (query_path id).
    split; [right; right; split; [exact Hm | now exists id]|].
    split; [exact (request_for_addressed Hfor)|].
    apply (Hland _ None); [now rewrite Hm | exact Hfor].
Qed.

(** X3. Whatever the request and whatever the outside answers, the handler
    only adds to the requests sent, and each request it sends is the
    request of one of three read operations, for some id: GET for a page,
    GET for a block's children with the page size set to 100, or POST for a
    database query, sent to the URL that the platform makes of the path of
    that operation.  Each went through the guard by the path of the
    operation, and carries the configured credential and protocol version.
    Where the path is plain, the request goes to that very path below the
    base, a read endpoint that is no write call by its own method and path;
    of an id that is not plain nothing of the kind is stated, the URL being
    what the platform makes of it. *)
Theorem X3_handler_sends_reads_only :
  forall (env : Env) (upstream : Upstream)
         (buildAnalysis : list NormalizedTarget -> Value -> Value -> Value)
         (req : VercelRequest) (log : Log),
    exists new,
      snd (handler env upstream buildAnalysis req log) = log ++ new
      /\ Forall (fun rq => read_request env upstream rq
                          /\ guarded_request env upstream rq
                          /\ lands_on_read upstream rq) new.
Proof.
  intros env upstream buildAnalysis req log.
  destruct (handler_sends env upstream buildAnalysis req log) as (new & Hlog & Hsafe & _).
  exists new. split; [exact Hlog|].
  eapply Forall_impl; [|exact Hsafe].
  intros rq [Hread Hguard]. split; [exact Hread|]. split; [exact Hguard|].
  exact (read_request_lands Hread).
Qed.

(** X4. The handler sends nothing to the external store unless the request
    is a POST, carries the right bearer key and has a body that validation
    accepts. *)
Theorem X4_handler_gates_network :
  forall (env : Env) (upstream : Upstream)
         (buildAnalysis : list NormalizedTarget -> Value -> Value -> Value)
         (req : VercelRequest) (log : Log),
    snd (handler env upstream buildAnalysis req log) = log
    \/ (req_method req = lit "POST"
        /\ authenticate env (req_authorization req) = AuthOk
        /\ exists request, validateRequest (req_body req) = Ok (Valid request)).
Proof.
  intros env upstream buildAnalysis req log.
  destruct (handler_sends env upstream buildAnalysis req log)
    as (new & Hlog & _ & [-> | (Hm & Ha & request & Hv & _)]).
  - left. now rewrite app_nil_r in Hlog.
  - right. eauto.
Qed.

(** X5. With a node budget [N] configured, one request to the handler makes
    at most [N + 2] calls to the external store for each of its targets: one
    for the page record, one listing for the page and one listing for each
    block emitted.  A body that is not accepted costs no call. *)
Theorem X5_handler_call_budget :
  forall (env : Env) (upstream : Upstream)
         (buildAnalysis : list NormalizedTarget -> Value -> Value -> Value)
         (req : VercelRequest) (log : Log) (N : Z) (ts : list Value),
    maxBlocks env = Some N ->
    prop (req_body req) (lit "targets") = VArr ts ->
    exists new,
      snd (handler env upstream buildAnalysis req log) = log ++ new
      /\ (List.length new <= List.length ts * (2 + Z.to_nat N))%nat.
Proof.
  intros env upstream buildAnalysis req log N ts HN Hts.
  destruct (handler_sends env upstream buildAnalysis req log)
    as (new & Hlog & _ & [-> | (Hm & Ha & request & Hv & Hn)]).
  - exists []. split; [exact Hlog | simpl; lia].
  - exists new. split; [exact Hlog|].
    assert (Htargets : targets request = ts).
    { revert Hv. unfold validateRequest.
      destruct (negb (truthy (req_body req)) || negb (typeof_object (req_body req)));
        [discriminate|].
      destruct (JSON_stringify (req_body req)); [|discriminate].
      destruct (first_keyword _); [discriminate|].
      rewrite Hts. destruct ts as [|t ts']; [discriminate|].
      destruct (first_failure _); [discriminate|].
      repeat match goal with
             | |- context [if ?c then _ else _] => destruct c; try discriminate
             end.
      intros E. inversion E. reflexivity. }
    rewrite Htargets in Hn. unfold target_calls, traversal_calls in Hn.
    rewrite HN in Hn. simpl in Hn. lia.
Qed.

(* ================================================================== *)
(** * The traversal under a budget smaller than the tree *)
(* ================================================================== *)

Section FetcherPrefix.

Variable env : Env.
Variable upstream : Upstream.
Variables D N : Z.
Hypothesis HD : maxDepth env = Some D.
Hypothesis HN : maxBlocks env = Some N.
Hypothesis Htoken : token_set env.

Lemma walk_in_budget_full d acc kids :
  N <= Z.of_nat (List.length acc) -> walk_in_budget D N d acc kids = acc.
Proof.
  intros Hfull. unfold walk_in_budget.
  replace (Z.to_nat (N - Z.of_nat (List.length acc))) with 0%nat by lia.
  simpl. apply app_nil_r.
Qed.

(** Emitting [b], then what is left of its subtree, then what is left of
    its later siblings. *)
Lemma walk_in_budget_cons d acc b sub rest :
  Z.of_nat (List.length acc) < N ->
  walk_in_budget D N d
    ((acc ++ [flat b d])
       ++ firstn (Z.to_nat (N - Z.of_nat (List.length (acc ++ [flat b d])))) sub)
    rest
  = acc ++ firstn (Z.to_nat (N - Z.of_nat (List.length acc)))
             ((flat b d :: sub) ++ flat_map (walk_within D d) rest).
Proof.
  intros Hroom. unfold walk_in_budget.
  set (W := flat_map (walk_within D d) rest).
  rewrite !length_app, length_firstn. cbn [List.length].
  remember (Z.to_nat (N - Z.of_nat (List.length acc))) as n eqn:Hn.
  destruct n as [|m]; [lia|].
  replace (Z.to_nat (N - Z.of_nat (List.length acc + 1))) with m by lia.
  cbn [app firstn]. rewrite firstn_app, <- !app_assoc. cbn [app].
  do 3 f_equal.
  f_equal. lia.
Qed.

Lemma each_block_prefix self d :
  d <= D ->
  (d < D -> call_prefix upstream D N (d + 1) self) ->
  forall kids acc log,
    Forall (served upstream) kids ->
    exists log',
      each_block env self d (map root_block kids) acc log
      = Some (Ok tt, walk_in_budget D N d acc kids, log').
Proof.
  intros Hd Hself. induction kids as [|[b gk] rest IH]; intros acc log Hserved.
  - simpl. unfold walk_in_budget. rewrite firstn_nil, app_nil_r. eauto.
  - inversion Hserved as [|? ? Hk Hrest]; subst.
    apply served_node in Hk. destruct Hk as (Hb & Hflag & Hgk).
    cbn [map root_block each_block]. rewrite HN, HD. cbn [geN ltN].
    destruct (Z.of_nat (List.length acc) >=? N) eqn:Hfull.
    { rewrite Z.geb_leb in Hfull. apply Z.leb_le in Hfull.
      rewrite walk_in_budget_full by assumption. eauto. }
    rewrite Z.geb_leb in Hfull. apply Z.leb_gt in Hfull.
    rewrite Hb.
    assert (Hgoal : forall sub,
               sub = (if d <? D then flat_map (walk_within D (d + 1)) gk else []) ->
               walk_in_budget D N d
                 ((acc ++ [flat b d])
                    ++ firstn (Z.to_nat (N - Z.of_nat (List.length (acc ++ [flat b d])))) sub)
                 rest
               = walk_in_budget D N d acc (Node b gk :: rest)).
    { intros sub ->. rewrite walk_in_budget_cons by assumption. reflexivity. }
    destruct (truthy (prop b (lit "has_children"))) eqn:Hhas; cbn [andb].
    + destruct (d <? D) eqn:Hltb.
      * assert (Hlt : d < D) by now apply Z.ltb_lt.
        destruct (Hself Hlt (prop b (lit "id")) gk (acc ++ [flat b d]) log Hflag Hgk)
          as (log1 & Hcall).
        rewrite Hcall. unfold walk_in_budget at 1.
        destruct (IH ((acc ++ [flat b d])
                        ++ firstn (Z.to_nat (N - Z.of_nat (List.length (acc ++ [flat b d]))))
                             (flat_map (walk_within D (d + 1)) gk)) log1 Hrest)
          as (log2 & Hloop).
        rewrite Hloop. exists log2. now rewrite Hgoal.
      * destruct (IH (acc ++ [flat b d]) log Hrest) as (log2 & Hloop).
        rewrite Hloop. exists log2.
        rewrite <- (Hgoal []) by reflexivity.
        now rewrite firstn_nil, app_nil_r.
    + subst gk.
      destruct (IH (acc ++ [flat b d]) log Hrest) as (log2 & Hloop).
      rewrite Hloop. exists log2.
      rewrite <- (Hgoal []) by (destruct (d <? D); reflexivity).
      now rewrite firstn_nil, app_nil_r.
Qed.

Lemma recurse_prefix fuel :
  forall d, d <= D -> (Z.to_nat (D - d) < fuel)%nat ->
            call_prefix upstream D N d (recurse env upstream fuel).
Proof.
  induction fuel as [|fuel IH]; intros d Hd Hfuel pid kids acc log Hlist Hserved; [lia|].
  simpl. unfold recurse_body. rewrite HN, HD. cbn [gtN geN].
  rewrite gtb_false by lia. cbn [orb].
  destruct (Z.of_nat (List.length acc) >=? N) eqn:Hfull.
  - rewrite Z.geb_leb in Hfull. apply Z.leb_le in Hfull.
    rewrite walk_in_budget_full by assumption. eauto.
  - destruct (@retrieveBlockChildren_served env upstream Htoken pid _ log Hlist)
      as (resp & log1 & Hfetch & Hres).
    rewrite Hfetch, Hres. simpl.
    apply each_block_prefix; try assumption.
    intros Hlt. apply IH; lia.
Qed.

End FetcherPrefix.

(** X6. When the store holds a tree below the page, [fetchPageBlocks]
    returns the first [maxNodes] blocks of the pre-order walk of the
    descendants within the depth ceiling: the budget cuts the walk off
    where it is used up, across all levels, and drops nothing before
    that point. *)
Theorem X6_fetch_is_prefix_of_walk :
  forall (env : Env) (upstream : Upstream) (D N : Z) (pageId : Value)
         (forest : list Tree) (log : Log),
    token_set env ->
    maxDepth env = Some D ->
    maxBlocks env = Some N ->
    lists_children upstream pageId (map root_block forest) ->
    Forall (served upstream) forest ->
    exists log',
      fetchPageBlocks env upstream pageId log
      = (Ok (firstn (Z.to_nat N) (descendants_within D forest)), log').
Proof.
  intros env upstream D N pageId forest log Ht HD HN Hlist Hserved.
  unfold fetchPageBlocks, traverse.
  destruct (Z_lt_le_dec D 0) as [Hneg|Hpos].
  - rewrite descendants_below_zero by assumption. rewrite firstn_nil.
    unfold nesting_bound. rewrite HD. simpl. unfold recurse_body.
    rewrite HD. simpl. rewrite gtb_true by lia. simpl. eauto.
  - rewrite descendants_within_walk by assumption.
    destruct (@recurse_prefix env upstream D N HD HN Ht (nesting_bound env) 0 Hpos)
      with (pid := pageId) (kids := forest) (acc := @nil FlatBlock) (log := log)
      as (log' & Hrun); try assumption.
    + unfold nesting_bound. rewrite HD. lia.
    + rewrite Hrun. unfold walk_in_budget. simpl.
      replace (N - 0) with N by lia. eauto.
Qed.

(** Under a budget of two, the walk [a], [a1], [b] of [small_store] is cut
    after [a1]. *)
Lemma X6_fetch_is_prefix_of_walk_witness :
  exists log',
    fetchPageBlocks Sample.env_two_blocks Scenario.small_store (VStr (lit "root")) []
    = (Ok (firstn 2 (descendants_within 2 Scenario.small_forest)), log').
Proof.
  destruct small_store_serves as (_ & Hroot & Hserved).
  assert (Ht : token_set Sample.env_two_blocks)
    by (exists 115%N, (lit "ecret"); reflexivity).
  exact (@X6_fetch_is_prefix_of_walk Sample.env_two_blocks Scenario.small_store 2 2
           (VStr (lit "root")) Scenario.small_forest [] Ht eq_refl eq_refl Hroot Hserved).
Defined.

(** The budget of [env0] over the two pages of [Scenario.two_pages]. *)
Lemma X5_handler_call_budget_witness :
  exists new,
    snd (handler Scenario.env0 Scenario.small_store Scenario.no_analysis
           (Scenario.post Scenario.two_pages) []) = [] ++ new
    /\ (List.length new <= 2 * (2 + Z.to_nat 400))%nat.
Proof.
  exact (@X5_handler_call_budget Scenario.env0 Scenario.small_store Scenario.no_analysis
           (Scenario.post Scenario.two_pages) [] 400
           [Scenario.page_target "root"; Scenario.page_target "a"] eq_refl eq_refl).
Defined.

(* ================================================================== *)
(** * Degenerate traversal limits *)
(* ================================================================== *)

Section DegenerateLimits.

Variable env : Env.
Variable upstream : Upstream.

Lemma each_block_flat self :
  maxDepth env = None ->
  forall blocks d acc log r acc' log',
    each_block env self d blocks acc log = Some (r, acc', log') ->
    log' = log
    /\ exists new, acc' = acc ++ new /\ Forall (fun b => fb_depth b = d) new.
Proof.
  intros Hnan. induction blocks as [|b rest IH]; intros d acc log r acc' log' H.
  - simpl in H. inversion H; subst. split; [reflexivity|].
    exists []. now rewrite app_nil_r.
  - simpl in H. rewrite Hnan in H. cbn [ltN] in H. rewrite andb_false_r in H.
    destruct (geN _ _).
    { inversion H; subst. split; [reflexivity|]. exists []. now rewrite app_nil_r. }
    destruct (nullish b).
    { inversion H; subst. split; [reflexivity|]. exists []. now rewrite app_nil_r. }
    apply IH in H. destruct H as (-> & new & -> & Hnew).
    split; [reflexivity|]. exists (flat b d :: new).
    rewrite <- app_assoc. split; [reflexivity|]. constructor; [reflexivity | exact Hnew].
Qed.

End DegenerateLimits.

(** X8. Traversal limits at the edge.  A negative depth ceiling, or a node
    budget of zero or less, makes [fetchPageBlocks] return the empty list
    without a single call.  A depth ceiling that does not parse as a number
    does not stop the traversal but keeps it from descending: at most one
    listing call is made, and every block emitted is at depth 0. *)
Theorem X8_degenerate_limits :
  forall (env : Env) (upstream : Upstream) (pageId : Value) (log : Log),
    (forall D, maxDepth env = Some D -> D < 0 ->
               fetchPageBlocks env upstream pageId log = (Ok [], log))
    /\ (forall N, maxBlocks env = Some N -> N <= 0 ->
                  fetchPageBlocks env upstream pageId log = (Ok [], log))
    /\ (maxDepth env = None ->
        exists r emitted calls,
          traverse env upstream pageId log = Some (r, emitted, log ++ calls)
          /\ (List.length calls <= 1)%nat
          /\ Forall (fun b => fb_depth b = 0) emitted).
Proof.
  intros env upstream pageId log. split; [|split].
  - intros D HD Hneg. unfold fetchPageBlocks, traverse, nesting_bound.
    rewrite HD. simpl. unfold recurse_body. rewrite HD. cbn [gtN].
    now rewrite gtb_true by lia.
  - intros N HN Hle. unfold fetchPageBlocks, traverse.
    destruct (nesting_bound env) as [|fuel] eqn:Hfuel.
    { unfold nesting_bound in Hfuel. destruct (maxDepth env); discriminate. }
    simpl. unfold recurse_body. rewrite HN. cbn [geN List.length].
    rewrite (geb_true (a := Z.of_nat 0) (b := N)) by (simpl; lia).
    now rewrite orb_true_r.
  - intros Hnan. unfold traverse, nesting_bound. rewrite Hnan. simpl.
    unfold recurse_body. rewrite Hnan. cbn [gtN orb].
    destruct (geN (Z.of_nat (List.length (@nil FlatBlock))) (maxBlocks env)).
    { exists (Ok tt), [], []. rewrite app_nil_r. simpl. auto. }
    pose proof (retrieveBlockChildren_call env upstream pageId log) as Hcall.
    destruct (retrieveBlockChildren env upstream pageId 100 log) as [r0 log1].
    simpl in Hcall.
    assert (Hlog : exists calls, log1 = log ++ calls /\ (List.length calls <= 1)%nat).
    { destruct Hcall as [-> | (rq & -> & _)].
      - exists []. rewrite app_nil_r. simpl. auto.
      - exists [rq]. simpl. auto. }
    destruct Hlog as (calls & -> & Hcount).
    destruct r0 as [resp|e].
    + destruct (try! results <- get resp (lit "results"); iterate results) as [blocks|e].
      * destruct (each_block env (fun _ _ _ _ => None) 0 blocks [] (log ++ calls))
          as [[[r acc'] log']|] eqn:Hloop.
        -- exists r, acc', calls.
           apply each_block_flat in Hloop; [|exact Hnan].
           destruct Hloop as (-> & new & -> & Hnew). simpl. auto.
        -- now apply each_block_returns in Hloop; [|rewrite Hnan; discriminate].
      * exists (Throw e), [], calls. simpl. auto.
    + exists (Throw e), [], calls. simpl. auto.
Qed.

(** A ceiling of -1, a budget of 0, and a ceiling that is no number, over
    the page of [small_store]. *)
Lemma X8_degenerate_limits_witness :
  fetchPageBlocks (Sample.with_limits (Some (lit "-1")) None) Scenario.small_store
    (VStr (lit "root")) [] = (Ok [], [])
  /\ fetchPageBlocks (Sample.with_limits None (Some (lit "0"))) Scenario.small_store
       (VStr (lit "root")) [] = (Ok [], [])
  /\ exists r emitted calls,
      traverse (Sample.with_limits (Some (lit "deep")) None) Scenario.small_store
        (VStr (lit "root")) [] = Some (r, emitted, [] ++ calls)
      /\ (List.length calls <= 1)%nat
      /\ Forall (fun b => fb_depth b = 0) emitted.
Proof.
  split; [|split].
  - refine (proj1 (X8_degenerate_limits (Sample.with_limits (Some (lit "-1")) None)
                     Scenario.small_store (VStr (lit "root")) []) (-1) eq_refl _).
    lia.
  - refine (proj1 (proj2 (X8_degenerate_limits (Sample.with_limits None (Some (lit "0")))
                            Scenario.small_store (VStr (lit "root")) [])) 0 eq_refl _).
    lia.
  - exact (proj2 (proj2 (X8_degenerate_limits (Sample.with_limits (Some (lit "deep")) None)
                           Scenario.small_store (VStr (lit "root")) [])) eq_refl).
Defined.

(* ================================================================== *)
(** * Bearer authentication *)
(* ================================================================== *)

Lemma span_spaces_spec s :
  s = fst (span_spaces s) ++ snd (span_spaces s)
  /\ forallb is_space (fst (span_spaces s)) = true
  /\ match snd (span_spaces s) with
     | c :: _ => is_space c = false
     | [] => True
     end.
Proof.
  induction s as [|c s IH]; simpl; [auto|].
  destruct (is_space c) eqn:Hc.
  - destruct (span_spaces s) as [w t]. simpl in *.
    destruct IH as (-> & Hw & Ht). rewrite Hc. auto.
  - simpl. auto.
Qed.

Lemma span_spaces_app spaces c rest :
  forallb is_space spaces = true -> is_space c = false ->
  span_spaces (spaces ++ c :: rest) = (spaces, c :: rest).
Proof.
  induction spaces as [|x spaces IH]; simpl; intros Hs Hc.
  - now rewrite Hc.
  - apply andb_true_iff in Hs. destruct Hs as [Hx Hs]. rewrite Hx, IH; auto.
Qed.

Lemma startsWith_prefix p s :
  startsWith p s = true -> exists rest, s = p ++ rest.
Proof.
  revert s. induction p as [|x p IH]; intros s H; simpl in *.
  - exists s. reflexivity.
  - destruct s as [|y s]; [discriminate|].
    apply andb_true_iff in H. destruct H as [Hxy H].
    apply N.eqb_eq in Hxy. subst y.
    destruct (IH s H) as (rest & ->). now exists rest.
Qed.

(** What the regular expression of [authenticate] captures. *)
Lemma bearer_capture_some header token :
  bearer_capture header = Some token ->
  exists scheme spaces,
    header = scheme ++ spaces ++ token
    /\ toUpperCase scheme = lit "BEARER"
    /\ spaces <> []
    /\ forallb is_space spaces = true.
Proof.
  unfold bearer_capture.
  destruct (startsWith (lit "BEARER") (toUpperCase (firstn 6 header))) eqn:Hscheme;
    [|discriminate].
  apply startsWith_prefix in Hscheme. destruct Hscheme as (extra & Hscheme).
  assert (Hextra : extra = []).
  { apply (f_equal (@List.length N)) in Hscheme.
    unfold toUpperCase in Hscheme. rewrite length_map, length_app in Hscheme.
    change (List.length (lit "BEARER")) with 6%nat in Hscheme.
    pose proof (firstn_le_length 6 header) as Hle.
    destruct extra; [reflexivity | cbn [List.length] in Hscheme; lia]. }
  subst extra. rewrite app_nil_r in Hscheme.
  pose proof (span_spaces_spec (skipn 6 header)) as (Hsplit & Hw & _).
  destruct (span_spaces (skipn 6 header)) as [w t]. simpl in Hsplit, Hw.
  assert (Hheader : header = firstn 6 header ++ w ++ t)
    by (rewrite <- Hsplit; symmetry; apply firstn_skipn).
  destruct t as [|c t].
  - destruct (rev w) as [|c [|x rest]] eqn:Hrev; try discriminate.
    destruct (is_line_terminator c); [discriminate|].
    intros E. inversion E; subst token.
    assert (Hw' : w = (rev rest ++ [x]) ++ [c]).
    { rewrite <- (rev_involutive w), Hrev. simpl. reflexivity. }
    exists (firstn 6 header), (rev rest ++ [x]).
    split; [rewrite Hheader at 1; rewrite Hw', app_nil_r; now rewrite <- !app_assoc|].
    split; [exact Hscheme|]. split; [now destruct (rev rest)|].
    rewrite Hw' in Hw. rewrite forallb_app in Hw.
    now apply andb_true_iff in Hw.
  - destruct w as [|x w]; [discriminate|].
    destruct (no_line_terminator (c :: t)); [|discriminate].
    intros E. inversion E; subst token.
    exists (firstn 6 header), (x :: w). repeat split; try assumption. discriminate.
Qed.

(** X9. Bearer authentication.  A request is authenticated only if a key
    is configured and the Authorization header is one string made of the
    word Bearer in any case of its letters, at least one white-space
    character, and then exactly the configured key.  Conversely such a
    header is accepted whenever the key has no line terminator in it and
    does not begin with white space. *)
Theorem X9_bearer_authentication :
  forall env : Env,
    (forall header,
        authenticate env header = AuthOk ->
        exists key scheme spaces,
          GATEWAY_API_KEY env = Some key
          /\ key <> []
          /\ header = HSingle (scheme ++ spaces ++ key)
          /\ toUpperCase scheme = lit "BEARER"
          /\ spaces <> []
          /\ forallb is_space spaces = true)
    /\ (forall c key scheme spaces,
        GATEWAY_API_KEY env = Some (c :: key) ->
        is_space c = false ->
        no_line_terminator (c :: key) = true ->
        toUpperCase scheme = lit "BEARER" ->
        spaces <> [] ->
        forallb is_space spaces = true ->
        authenticate env (HSingle (scheme ++ spaces ++ c :: key)) = AuthOk).
Proof.
  intros env. split.
  - intros header H. unfold authenticate in H.
    destruct (GATEWAY_API_KEY env) as [[|k key]|] eqn:Hkey; try discriminate.
    destruct header as [|[|h header]|]; try discriminate.
    destruct (bearer_capture (h :: header)) as [token|] eqn:Hcap; [|discriminate].
    destruct (jseqb token (k :: key)) eqn:Heq; [|discriminate].
    apply jseqb_eq in Heq. subst token.
    apply bearer_capture_some in Hcap.
    destruct Hcap as (scheme & spaces & Hh & Hs & Hne & Hsp).
    exists (k :: key), scheme, spaces. rewrite Hh.
    repeat split; try assumption. discriminate.
  - intros c key scheme spaces Hkey Hc Hlt Hscheme Hne Hsp.
    assert (Hlen : List.length scheme = 6%nat).
    { apply (f_equal (@List.length N)) in Hscheme. unfold toUpperCase in Hscheme.
      now rewrite length_map in Hscheme. }
    assert (Hcap : bearer_capture (scheme ++ spaces ++ c :: key) = Some (c :: key)).
    { unfold bearer_capture.
      rewrite firstn_app, Hlen, Nat.sub_diag, firstn_O, app_nil_r.
      rewrite <- Hlen at 1. rewrite firstn_all, Hscheme.
      change (startsWith (lit "BEARER") (lit "BEARER")) with true. cbv iota.
      rewrite skipn_app, Hlen, Nat.sub_diag, skipn_O.
      rewrite <- Hlen at 1. rewrite skipn_all. cbn [app].
      rewrite span_spaces_app by assumption.
      destruct spaces as [|x spaces]; [contradiction|]. now rewrite Hlt. }
    unfold authenticate. rewrite Hkey.
    destruct scheme as [|s0 scheme]; [discriminate|].
    change ((s0 :: scheme) ++ spaces ++ c :: key)
      with (s0 :: (scheme ++ spaces ++ c :: key)).
    change (s0 :: (scheme ++ spaces ++ c :: key))
      with ((s0 :: scheme) ++ spaces ++ c :: key).
    cbv iota beta.
    change (s0 :: scheme ++ spaces ++ c :: key)
      with ((s0 :: scheme) ++ spaces ++ c :: key).
    rewrite Hcap. now rewrite jseqb_refl.
Qed.

(** The key of [env0] after the word in lower case and two blanks. *)
Lemma X9_bearer_authentication_witness :
  (exists key scheme spaces,
      GATEWAY_API_KEY Scenario.env0 = Some key
      /\ key <> []
      /\ HSingle (lit "Bearer k") = HSingle (scheme ++ spaces ++ key)
      /\ toUpperCase scheme = lit "BEARER"
      /\ spaces <> []
      /\ forallb is_space spaces = true)
  /\ authenticate Scenario.env0 (HSingle (lit "bearer" ++ lit "  " ++ lit "k")) = AuthOk.
Proof.
  split.
  - apply (proj1 (X9_bearer_authentication Scenario.env0)). reflexivity.
  - apply (proj2 (X9_bearer_authentication Scenario.env0) 107%N [] (lit "bearer") (lit "  "));
      try reflexivity. discriminate.
Defined.

(* ================================================================== *)
(** * What validation guarantees *)
(* ================================================================== *)

Lemma is_str_eq v s : is_str v s = true -> v = VStr s.
Proof.
  destruct v; simpl; try discriminate. intros H. apply jseqb_eq in H. now subst.
Qed.

Lemma check_target_none it : check_target it = None -> valid_target (snd it).
Proof.
  unfold check_target, valid_target. set (t := snd it).
  destruct (negb (truthy t) || negb (typeof_object t)) eqn:Hshape; [discriminate|].
  apply orb_false_iff in Hshape. destruct Hshape as [Ht Ho].
  apply negb_false_iff in Ht, Ho.
  destruct (negb (is_str (prop t (lit "type")) (lit "page"))
            && negb (is_str (prop t (lit "type")) (lit "database"))) eqn:Htype;
    [discriminate|].
  destruct (negb (truthy (prop t (lit "id"))) || negb (typeof_string (prop t (lit "id"))))
    eqn:Hid; [discriminate|].
  intros _. split; [exact Ht|]. split; [exact Ho|]. split.
  - apply andb_false_iff in Htype.
    destruct Htype as [H|H]; apply negb_false_iff, is_str_eq in H; auto.
  - apply orb_false_iff in Hid. destruct Hid as [H1 H2].
    apply negb_false_iff in H1, H2.
    destruct (prop t (lit "id")) as [| | | | |[|c id]| |]; try discriminate. eauto.
Qed.

Lemma first_failure_none ts :
  first_failure ts = None -> Forall (fun it => valid_target (snd it)) ts.
Proof.
  induction ts as [|t ts IH]; simpl; intros H; [constructor|].
  destruct (check_target t) eqn:Hc; [discriminate|].
  constructor; [now apply check_target_none | now apply IH].
Qed.

Lemma Forall_snd_combine {A B} (P : B -> Prop) (xs : list A) (ys : list B) :
  List.length xs = List.length ys ->
  Forall (fun it => P (snd it)) (combine xs ys) -> Forall P ys.
Proof.
  revert ys. induction xs as [|x xs IH]; destruct ys as [|y ys]; simpl;
    intros Hlen H; try discriminate; [constructor|].
  inversion H; subst. constructor; [assumption|]. apply IH; [lia | assumption].
Qed.

(** What is known of a request that validation accepted. *)
Lemma validateRequest_valid body data :
  validateRequest body = Ok (Valid data) ->
  is_object body = true
  /\ prop body (lit "targets") = VArr (targets data)
  /\ targets data <> []
  /\ Forall valid_target (targets data)
  /\ mode data = orElse (prop body (lit "mode")) (VStr (lit "project"))
  /\ (mode data = VStr (lit "project") \/ mode data = VStr (lit "generic"))
  /\ instructions data = prop body (lit "instructions")
  /\ (instructions data = VUndefined \/ typeof_string (instructions data) = true)
  /\ focus data = prop body (lit "focus")
  /\ (focus data = VUndefined
      \/ exists fs, focus data = VArr fs /\ forallb typeof_string fs = true)
  /\ (forall serialized keyword,
        JSON_stringify body = Some serialized ->
        In keyword WRITE_KEYWORDS ->
        includes (quoted keyword) (toLowerCase serialized) = false).
Proof.
  unfold validateRequest, is_object.
  destruct (negb (truthy body) || negb (typeof_object body)) eqn:Hshape; [discriminate|].
  apply orb_false_iff in Hshape. destruct Hshape as [Ht Ho].
  apply negb_false_iff in Ht, Ho. rewrite Ht, Ho.
  destruct (JSON_stringify body) as [serialized|]; [|discriminate].
  destruct (first_keyword (toLowerCase serialized)) eqn:Hkw; [discriminate|].
  destruct (prop body (lit "targets")) as [| | | | | |[|t ts]|]; try discriminate.
  destruct (first_failure (indexed (t :: ts))) eqn:Hfail; [discriminate|].
  set (m := prop body (lit "mode")). set (i := prop body (lit "instructions")).
  set (f := prop body (lit "focus")).
  destruct (negb (is_undefined m) && negb (is_str m (lit "project"))
            && negb (is_str m (lit "generic"))) eqn:Hmode; [discriminate|].
  destruct (negb (is_undefined i) && negb (typeof_string i)) eqn:Hins; [discriminate|].
  destruct (negb (is_undefined f)
            && negb match f with VArr fs => forallb typeof_string fs | _ => false end)
    eqn:Hfocus; [discriminate|].
  intros E. inversion E; subst data; clear E. simpl.
  split; [reflexivity|]. split; [reflexivity|]. split; [discriminate|].
  split.
  { apply first_failure_none in Hfail.
    eapply Forall_snd_combine; [|exact Hfail].
    rewrite length_map, length_seq. reflexivity. }
  split; [reflexivity|]. split.
  { destruct m; simpl in *; auto; try discriminate.
    destruct (jseqb s (lit "project")) eqn:E1.
    - apply jseqb_eq in E1. subst. auto.
    - destruct (jseqb s (lit "generic")) eqn:E2; [|discriminate].
      apply jseqb_eq in E2. subst. auto. }
  split; [reflexivity|]. split.
  { destruct i; simpl in *; auto; discriminate. }
  split; [reflexivity|]. split.
  { destruct f as [| | | | | |fs|]; simpl in *; auto; try discriminate.
    right. exists fs. split; [reflexivity|].
    now destruct (forallb typeof_string fs). }
  intros s' keyword Hs Hin. inversion Hs; subst s'.
  unfold first_keyword in Hkw. apply (find_none _ _ Hkw) in Hin. exact Hin.
Qed.

(** X10. A body that validation accepts is an object whose [targets] is a
    non-empty array of records, each of type [page] or [database] with a
    non-empty string id, and the accepted request carries that very array;
    its mode is [project] or [generic], [project] when none was given; its
    instructions are absent or a string, its focus absent or an array of
    strings; and no keyword of the write vocabulary occurs between double
    quotes in the lower-cased serialisation of the body. *)
Theorem X10_validation_guarantees :
  forall (body : Value) (data : AnalyzeRequest),
    validateRequest body = Ok (Valid data) ->
    is_object body = true
    /\ prop body (lit "targets") = VArr (targets data)
    /\ targets data <> []
    /\ Forall valid_target (targets data)
    /\ mode data = orElse (prop body (lit "mode")) (VStr (lit "project"))
    /\ (mode data = VStr (lit "project") \/ mode data = VStr (lit "generic"))
    /\ instructions data = prop body (lit "instructions")
    /\ (instructions data = VUndefined \/ typeof_string (instructions data) = true)
    /\ focus data = prop body (lit "focus")
    /\ (focus data = VUndefined
        \/ exists fs, focus data = VArr fs /\ forallb typeof_string fs = true)
    /\ (forall serialized keyword,
          JSON_stringify body = Some serialized ->
          In keyword WRITE_KEYWORDS ->
          includes (quoted keyword) (toLowerCase serialized) = false).
Proof. exact validateRequest_valid. Qed.

(** The request for the two pages of [Scenario.two_pages]. *)
Lemma X10_validation_guarantees_witness :
  exists data,
    validateRequest Scenario.two_pages = Ok (Valid data)
    /\ targets data = [Scenario.page_target "root"; Scenario.page_target "a"]
    /\ Forall valid_target (targets data)
    /\ mode data = VStr (lit "project").
Proof.
  destruct (validateRequest Scenario.two_pages) as [[data|m]|e] eqn:Hv;
    try (exfalso; vm_compute in Hv; discriminate Hv).
  exists data. split; [reflexivity|].
  destruct (X10_validation_guarantees _ Hv) as (_ & Hts & _ & Hvalid & Hmode & _).
  split; [|split; [exact Hvalid|]].
  - change (prop Scenario.two_pages (lit "targets"))
      with (VArr [Scenario.page_target "root"; Scenario.page_target "a"]) in Hts.
    now inversion Hts.
  - rewrite Hmode. reflexivity.
Defined.

(* ================================================================== *)
(** * What the handler answers *)
(* ================================================================== *)

Section HandlerAnswers.

Variable env : Env.
Variable upstream : Upstream.
Variable buildAnalysis : list NormalizedTarget -> Value -> Value -> Value.

Lemma process_target_answers t log pushed log' :
  valid_target t ->
  process_target env upstream t log = (Ok pushed, log') ->
  exists nt, pushed = [nt] /\ answers t nt.
Proof.
  intros (_ & _ & Htype & _) H. unfold process_target, bindM, retM in H.
  destruct Htype as [Htype|Htype]; rewrite Htype in H; simpl in H.
  - destruct (normalizePageTarget env upstream (prop t (lit "id")) log)
      as [[nt|e] log1] eqn:Hrun; [|discriminate].
    inversion H; subst. exists nt. split; [reflexivity|].
    apply normalizePageTarget_ok in Hrun.
    destruct Hrun as (page & log0 & blocks & tt' & props & text & _ & _ & _ & ->).
    split; [exact Htype | reflexivity].
  - destruct (normalizeDatabaseTarget env upstream t log) as [[nt|e] log1] eqn:Hrun;
      [|discriminate].
    inversion H; subst. exists nt. split; [reflexivity|].
    apply normalizeDatabaseTarget_ok in Hrun.
    destruct Hrun as (response & results & its & _ & _ & _ & ->).
    split; [exact Htype | reflexivity].
Qed.

Lemma process_targets_answers ts :
  forall acc log out log',
    Forall valid_target ts ->
    process_targets env upstream ts acc log = (Ok out, log') ->
    exists new, out = acc ++ new /\ Forall2 answers ts new.
Proof.
  induction ts as [|t ts IH]; intros acc log out log' Hvalid H; simpl in H.
  - inversion H; subst. exists []. rewrite app_nil_r. split; [reflexivity | constructor].
  - inversion Hvalid as [|? ? Ht Hts]; subst. unfold bindM in H.
    destruct (process_target env upstream t log) as [[pushed|e] log1] eqn:Hone;
      [|discriminate].
    destruct (@process_target_answers t log pushed log1 Ht Hone) as (nt & -> & Hnt).
    destruct (IH (acc ++ [nt]) log1 out log' Hts H) as (new & -> & Hnew).
    exists (nt :: new). rewrite <- app_assoc. split; [reflexivity|].
    constructor; assumption.
Qed.

(** The handler's answer when validation has accepted the body, seen from
    its result. *)
Lemma handler_success req log summary analysis snapshot log' :
  handler env upstream buildAnalysis req log = (JsonOk summary analysis snapshot, log') ->
  exists request,
    validateRequest (req_body req) = Ok (Valid request)
    /\ process_targets env upstream (targets request) [] log = (Ok snapshot, log').
Proof.
  unfold handler. intros H.
  destruct (jseqb (req_method req) (lit "OPTIONS")); [discriminate|].
  destruct (negb (jseqb (req_method req) (lit "POST"))); [discriminate|].
  destruct (authenticate env (req_authorization req)); [|discriminate].
  destruct (validateRequest (req_body req)) as [[request|message]|e]; try discriminate.
  exists request. split; [reflexivity|].
  destruct (process_targets env upstream (targets request) [] log) as [[ts|e] log1];
    [|discriminate].
  now inversion H.
Qed.

End HandlerAnswers.

(** X11. A successful answer of the handler holds exactly one normalised
    target for each target of the request, in the order of the request, and
    each of them names the type and the id of the target it stands for. *)
Theorem X11_snapshot_follows_request :
  forall (env : Env) (upstream : Upstream)
         (buildAnalysis : list NormalizedTarget -> Value -> Value -> Value)
         (req : VercelRequest) (log : Log)
         (summary : jsstring) (analysis : Value) (snapshot : list NormalizedTarget)
         (log' : Log),
    handler env upstream buildAnalysis req log = (JsonOk summary analysis snapshot, log') ->
    exists ts,
      prop (req_body req) (lit "targets") = VArr ts
      /\ Forall2 answers ts snapshot
      /\ List.length snapshot = List.length ts.
Proof.
  intros env upstream buildAnalysis req log summary analysis snapshot log' H.
  apply handler_success in H. destruct H as (request & Hv & Hrun).
  apply validateRequest_valid in Hv.
  destruct Hv as (_ & Hts & _ & Hvalid & _).
  destruct (@process_targets_answers env upstream (targets request) [] log snapshot log'
              Hvalid Hrun) as (new & Hnew & Hall).
  simpl in Hnew. subst new.
  exists (targets request). split; [exact Hts|]. split; [exact Hall|].
  symmetry. eapply Forall2_length; eauto.
Qed.

(** The two pages of [Scenario.two_pages], answered in order. *)
Lemma X11_snapshot_follows_request_witness :
  exists summary analysis snapshot log' ts,
    handler Scenario.env0 Scenario.small_store Scenario.no_analysis
      (Scenario.post Scenario.two_pages) [] = (JsonOk summary analysis snapshot, log')
    /\ prop (req_body (Scenario.post Scenario.two_pages)) (lit "targets") = VArr ts
    /\ Forall2 answers ts snapshot
    /\ List.length snapshot = List.length ts.
Proof.
  destruct (handler Scenario.env0 Scenario.small_store Scenario.no_analysis
              (Scenario.post Scenario.two_pages) []) as [response log'] eqn:Hrun.
  assert (Hok : exists summary analysis snapshot, response = JsonOk summary analysis snapshot).
  { vm_compute in Hrun. inversion Hrun. eexists _, _, _. reflexivity. }
  destruct Hok as (summary & analysis & snapshot & ->).
  destruct (@X11_snapshot_follows_request Scenario.env0 Scenario.small_store
              Scenario.no_analysis (Scenario.post Scenario.two_pages) []
              summary analysis snapshot log' Hrun) as (ts & H1 & H2 & H3).
  exists summary, analysis, snapshot, log', ts. auto.
Defined.

(** X12. Without an upstream credential (the variable unset or empty), a
    request that passes authentication and validation is answered 500 with
    the misconfiguration message, and nothing is sent to the external
    store. *)
Theorem X12_no_token_no_call :
  forall (env : Env) (upstream : Upstream)
         (buildAnalysis : list NormalizedTarget -> Value -> Value -> Value)
         (req : VercelRequest) (request : AnalyzeRequest) (log : Log),
    (NOTION_TOKEN env = None \/ NOTION_TOKEN env = Some []) ->
    req_method req = lit "POST" ->
    authenticate env (req_authorization req) = AuthOk ->
    validateRequest (req_body req) = Ok (Valid request) ->
    handler env upstream buildAnalysis req log = (JsonError 500 no_token_message, log).
Proof.
  intros env upstream buildAnalysis req request log Htoken Hm Ha Hv.
  erewrite handler_validated by eassumption. cbv beta iota.
  apply validateRequest_valid in Hv.
  destruct Hv as (_ & _ & Hne & Hvalid & _).
  destruct (targets request) as [|t ts]; [contradiction|].
  inversion Hvalid as [|? ? (_ & _ & Htype & _) _]; subst.
  assert (Hfetch : forall path options l,
             isWriteCall (toUpperCase (env_or (opt_method options) (lit "GET"))) path
             = false ->
             notionFetch env upstream path options l
             = (Throw (Error no_token_message), l)).
  { intros path options l Hguard. unfold notionFetch. rewrite Hguard.
    destruct Htoken as [-> | ->]; reflexivity. }
  simpl. unfold bindM, process_target.
  destruct Htype as [Htype|Htype]; rewrite Htype; simpl.
  - unfold normalizePageTarget, bindM, retrievePage.
    rewrite Hfetch by reflexivity. reflexivity.
  - unfold normalizeDatabaseTarget, bindM, queryDatabase.
    rewrite Hfetch by reflexivity. reflexivity.
Qed.

(** [env0] without its credential. *)
Lemma X12_no_token_no_call_witness :
  handler Sample.env_no_token Scenario.small_store Scenario.no_analysis
    (Scenario.post Scenario.two_pages) []
  = (JsonError 500 no_token_message, []).
Proof.
  destruct (validateRequest Scenario.two_pages) as [[data|m]|e] eqn:Hv;
    try (exfalso; vm_compute in Hv; discriminate Hv).
  exact (@X12_no_token_no_call Sample.env_no_token Scenario.small_store Scenario.no_analysis
           (Scenario.post Scenario.two_pages) data [] (or_introl eq_refl)
           eq_refl eq_refl Hv).
Defined.

(** After its query, a database target sends nothing. *)
Lemma normalizeDatabaseTarget_log env upstream target log :
  snd (normalizeDatabaseTarget env upstream target log)
  = snd (queryDatabase env upstream (prop target (lit "id"))
           (orElse (prop target (lit "query")) (VObj [])) log).
Proof.
  unfold normalizeDatabaseTarget, bindM, liftR, retM.
  destruct (queryDatabase env upstream _ _ log) as [[response|e] log1]; [|reflexivity].
  destruct (get response (lit "results")) as [results|e]; [|reflexivity].
  destruct (mapArray normalize_item _) as [its|e]; reflexivity.
Qed.

(** X13. A database target costs one call at most: a POST for the URL that
    the platform makes of the query path of its id.  Whatever the answer
    is, also one that announces more rows, no second call follows.  With a
    credential configured, a plain id and a platform that refuses nothing,
    the call is made, and it goes to that very query path below the base,
    without a query string. *)
Theorem X13_database_single_call :
  forall (env : Env) (upstream : Upstream) (target : Value) (log : Log),
    (exists new,
        snd (normalizeDatabaseTarget env upstream target log) = log ++ new
        /\ (List.length new <= 1)%nat
        /\ Forall (fun rq =>
                     rq_method rq = lit "POST"
                     /\ request_for upstream (query_path (prop target (lit "id")))
                          None rq) new)
    /\ (token_set env ->
        resolves_plain upstream ->
        plain_path (query_path (prop target (lit "id"))) = true ->
        (forall rq, respond upstream log rq <> Refused) ->
        exists rq,
          snd (normalizeDatabaseTarget env upstream target log) = log ++ [rq]
          /\ rq_method rq = lit "POST"
          /\ rq_origin rq = NOTION_BASE
          /\ rq_path rq = query_path (prop target (lit "id"))
          /\ rq_params rq = []).
Proof.
  intros env upstream target log.
  rewrite normalizeDatabaseTarget_log. unfold queryDatabase.
  match goal with
  | |- context [notionFetch env upstream ?path ?options log] =>
      set (path0 := path); set (options0 := options)
  end.
  assert (Hsent : exists new,
             snd (notionFetch env upstream path0 options0 log) = log ++ new
             /\ (List.length new <= 1)%nat
             /\ Forall (fun rq =>
                          rq_method rq = lit "POST"
                          /\ request_for upstream path0 None rq) new).
  { destruct (notionFetch_sent env upstream path0 options0 log)
      as [[Hlog _] | (rq & Hlog & Hm & Hp & _)].
    - exists []. rewrite app_nil_r. repeat split; auto.
    - exists [rq]. split; [exact Hlog|]. split; [simpl; lia|].
      constructor; [|constructor]. split; [exact Hm | exact Hp]. }
  split; [exact Hsent|].
  intros Ht Hplain Hpath Hresp.
  destruct (@notionFetch_forwarded env upstream path0 options0 log Ht eq_refl)
    as (_ & new & Hlog & Hlen & Hall & Htaken).
  assert (Hnew : new <> []).
  { apply Htaken. split; [|split; [|exact Hresp]].
    - eexists. apply Hplain. exact Hpath.
    - intros _. split; discriminate. }
  destruct new as [|rq [|rq' new]]; [contradiction | | simpl in Hlen; lia].
  exists rq. split; [exact Hlog|].
  inversion Hall as [|? ? [Hm Hp] _]; subst.
  destruct (request_for_plain Hplain Hpath Hp) as (Ho & Hq & Hps).
  repeat split; assumption.
Qed.

(** A store that announces more rows than it returns. *)
Lemma X13_database_single_call_witness :
  exists rq,
    snd (normalizeDatabaseTarget Scenario.env0 Sample.paged_store
           (Scenario.database_target "db1" []) []) = [] ++ [rq]
    /\ rq_method rq = lit "POST"
    /\ rq_origin rq = NOTION_BASE
    /\ rq_path rq = lit "/v1/databases/db1/query"
    /\ rq_params rq = [].
Proof.
  apply (proj2 (@X13_database_single_call Scenario.env0 Sample.paged_store
                  (Scenario.database_target "db1" []) [])).
  - exists 115%N, (lit "ecret"). reflexivity.
  - apply parse_url_plain.
  - reflexivity.
  - intros rq. discriminate.
Defined.

(* ================================================================== *)
(** * The body of a database query *)
(* ================================================================== *)

Lemma lookup_obj_set_eq k v o : lookup k (obj_set k v o) = v.
Proof.
  induction o as [|[k' v'] o IH]; simpl.
  - now rewrite jseqb_refl.
  - destruct (jseqb k' k) eqn:E; simpl; rewrite E; [reflexivity | exact IH].
Qed.

Lemma lookup_obj_set_ne k0 k v o : k0 <> k -> lookup k0 (obj_set k v o) = lookup k0 o.
Proof.
  intros Hne. induction o as [|[k' v'] o IH]; simpl.
  - rewrite jseqb_neq by congruence. reflexivity.
  - destruct (jseqb k' k) eqn:E; simpl.
    + apply jseqb_eq in E. subst k'. rewrite jseqb_neq by congruence. reflexivity.
    + destruct (jseqb k' k0); [reflexivity | exact IH].
Qed.

Lemma keys_obj_set k0 k v o : In k0 (keys (obj_set k v o)) <-> k0 = k \/ In k0 (keys o).
Proof.
  induction o as [|[k' v'] o IH]; simpl.
  - intuition.
  - destruct (jseqb k' k) eqn:E; simpl.
    + apply jseqb_eq in E. subst k'. intuition.
    + rewrite IH. intuition.
Qed.

Lemma lookup_head k v es : lookup k ((k, v) :: es) = v.
Proof. simpl. now rewrite jseqb_refl. Qed.

Lemma lookup_tail k0 k v es : k0 <> k -> lookup k0 ((k, v) :: es) = lookup k0 es.
Proof. intros Hne. simpl. rewrite jseqb_neq by congruence. reflexivity. Qed.

(** Spreading the entries of one object over another. *)
Lemma spread_lookup es :
  NoDup (keys es) ->
  forall base k,
    lookup k (fold_left (fun o kv => obj_set (fst kv) (snd kv) o) es base)
    = (if in_dec (list_eq_dec N.eq_dec) k (keys es) then lookup k es else lookup k base).
Proof.
  induction es as [|[k1 v1] es IH]; intros Hnd base k; simpl fold_left.
  - reflexivity.
  - inversion Hnd as [|? ? Hfresh Hnd']; subst.
    rewrite (IH Hnd'). simpl keys.
    destruct (in_dec (list_eq_dec N.eq_dec) k (keys es)) as [Hin|Hout].
    + destruct (in_dec (list_eq_dec N.eq_dec) k (k1 :: keys es)) as [_|Hno];
        [|exfalso; apply Hno; now right].
      rewrite lookup_tail; [reflexivity|]. intros ->. contradiction.
    + destruct (in_dec (list_eq_dec N.eq_dec) k (k1 :: keys es)) as [[->|Hin]|Hno].
      * simpl fst. simpl snd. now rewrite lookup_obj_set_eq, lookup_head.
      * contradiction.
      * simpl fst. simpl snd. apply lookup_obj_set_ne. intros ->. apply Hno. now left.
Qed.

Lemma spread_keys es :
  forall base k,
    In k (keys (fold_left (fun o kv => obj_set (fst kv) (snd kv) o) es base))
    <-> In k (keys base) \/ In k (keys es).
Proof.
  induction es as [|[k1 v1] es IH]; intros base k; simpl fold_left.
  - simpl. tauto.
  - rewrite IH, keys_obj_set. simpl. intuition congruence.
Qed.

(** X14. The body of a database query has a [page_size] and, besides it,
    exactly the fields of the user's query object; every field of the
    query is forwarded with its own value; and when the query has no
    [page_size] of its own, the body carries the configured page limit. *)
Theorem X14_query_body_forwards_query :
  forall (env : Env) (query : list (jsstring * Value)),
    NoDup (keys query) ->
    exists body,
      query_body env (VObj query) = VObj body
      /\ (forall k, In k (keys body) <-> k = lit "page_size" \/ In k (keys query))
      /\ (forall k, In k (keys query) -> lookup k body = lookup k query)
      /\ (~ In (lit "page_size") (keys query) ->
          lookup (lit "page_size") body = num_value (dbPageLimit env)).
Proof.
  intros env query Hnd. eexists. split; [reflexivity|].
  unfold spread_into. cbn [entries_of]. split; [|split].
  - intros k. rewrite spread_keys. simpl. intuition congruence.
  - intros k Hin. rewrite (@spread_lookup query Hnd).
    destruct (in_dec (list_eq_dec N.eq_dec) k (keys query)); [reflexivity | contradiction].
  - intros Hout. rewrite (@spread_lookup query Hnd).
    destruct (in_dec (list_eq_dec N.eq_dec) (lit "page_size") (keys query));
      [contradiction | reflexivity].
Qed.

(** A query with a filter and no page size. *)
Lemma X14_query_body_forwards_query_witness :
  exists body,
    query_body Scenario.env0 (VObj [(lit "filter", VObj [])]) = VObj body
    /\ (forall k, In k (keys body) <-> k = lit "page_size" \/ In k [lit "filter"])
    /\ (forall k, In k [lit "filter"] -> lookup k body = lookup k [(lit "filter", VObj [])])
    /\ (~ In (lit "page_size") [lit "filter"] ->
        lookup (lit "page_size") body = VNum 50).
Proof.
  apply (@X14_query_body_forwards_query Scenario.env0 [(lit "filter", VObj [])]).
  repeat constructor. simpl. tauto.
Defined.

(* ================================================================== *)
(** * Rich text *)
(* ================================================================== *)

Lemma join_empty_app (l1 l2 : list jsstring) :
  join [] (l1 ++ l2) = join [] l1 ++ join [] l2.
Proof.
  induction l1 as [|x l1 IH]; [reflexivity|].
  assert (Hcons : forall y (l : list jsstring), join [] (y :: l) = y ++ join [] l).
  { intros y [|z l]; simpl; [now rewrite app_nil_r | reflexivity]. }
  change ((x :: l1) ++ l2) with (x :: (l1 ++ l2)).
  rewrite !Hcons, IH. apply app_assoc.
Qed.

Lemma mapR_app {A B} (f : A -> result B) xs ys xs' ys' :
  mapR f xs = Ok xs' -> mapR f ys = Ok ys' -> mapR f (xs ++ ys) = Ok (xs' ++ ys').
Proof.
  revert xs'. induction xs as [|x xs IH]; intros xs' Hx Hy; simpl in *.
  - inversion Hx; subst. exact Hy.
  - destruct (f x) as [y|e]; [|discriminate]. simpl in *.
    destruct (mapR f xs) as [l|e]; [|discriminate]. simpl in Hx.
    inversion Hx; subst. rewrite (IH l eq_refl Hy). reflexivity.
Qed.

(** X15. Rich text is the concatenation of its spans, in order: the text
    of two lists of spans put together is the text of the first followed by
    the text of the second.  A span gives its [plain_text], or the
    [content] of its [text] when it has no [plain_text]; anything that is
    not an array gives the empty string. *)
Theorem X15_rich_text_concatenates :
  (forall spans1 spans2 s1 s2,
      richTextToPlain (VArr spans1) = Ok s1 ->
      richTextToPlain (VArr spans2) = Ok s2 ->
      richTextToPlain (VArr (spans1 ++ spans2)) = Ok (s1 ++ s2))
  /\ (forall span s,
        nullish span = false ->
        prop span (lit "plain_text") = VStr s ->
        richTextToPlain (VArr [span]) = Ok s)
  /\ (forall span s,
        nullish span = false ->
        nullish (prop span (lit "plain_text")) = true ->
        getOpt (prop span (lit "text")) (lit "content") = VStr s ->
        richTextToPlain (VArr [span]) = Ok s)
  /\ (forall v, isArray v = false -> richTextToPlain v = Ok []).
Proof.
  split; [|split; [|split]].
  - intros spans1 spans2 s1 s2 H1 H2. simpl in *.
    destruct (mapR span_text spans1) as [p1|e] eqn:E1; [|discriminate].
    destruct (mapR span_text spans2) as [p2|e] eqn:E2; [|discriminate].
    simpl in *. inversion H1; inversion H2; subst.
    rewrite (mapR_app _ _ _ E1 E2). simpl. unfold joinValues.
    now rewrite map_app, join_empty_app.
  - intros span s Hspan Hplain. simpl. unfold span_text.
    rewrite Hspan, Hplain. reflexivity.
  - intros span s Hspan Hplain Htext. simpl. unfold span_text.
    rewrite Hspan. unfold orElse at 2. rewrite Hplain, Htext. reflexivity.
  - intros v Harr. destruct v; simpl in *; try reflexivity. discriminate.
Qed.

(** Two spans, one with plain text and one with nested text only. *)
Lemma X15_rich_text_concatenates_witness :
  richTextToPlain
    (VArr ([VObj [(lit "plain_text", VStr (lit "Ship "))]]
           ++ [VObj [(lit "text", VObj [(lit "content", VStr (lit "it"))])]]))
  = Ok (lit "Ship " ++ lit "it").
Proof.
  destruct X15_rich_text_concatenates as (Happ & Hplain & Htext & _).
  apply Happ.
  - apply Hplain; reflexivity.
  - apply Htext; reflexivity.
Defined.

(* ================================================================== *)
(** * Rendering blocks *)
(* ================================================================== *)

Lemma indent_is_spaces n : repeat_str (lit "  ") n = List.repeat 32%N (2 * n).
Proof.
  induction n as [|n IH]; [reflexivity|].
  replace (2 * S n)%nat with (S (S (2 * n))) by lia.
  simpl repeat_str. rewrite IH. reflexivity.
Qed.

(** X16. Every line that [blockToText] renders for a block at depth [d] is
    either empty or begins with the indentation of its depth, two blanks
    for each level; the hierarchy of the page is kept in the text. *)
Theorem X16_lines_are_indented :
  forall (block : Value) (depth : Z) (line : jsstring),
    blockToText block depth = Ok line ->
    line = [] \/ exists rest, line = indentation depth ++ rest.
Proof.
  intros block depth line H. unfold indentation. rewrite <- indent_is_spaces.
  unfold blockToText, repeat_count, tag_line in H. cbv zeta in H.
  destruct (depth <? 0); [discriminate|]. cbn [bindR] in H.
  destruct (get block (lit "type")) as [type|e]; [|discriminate]. cbn [bindR] in H.
  repeat match type of H with
         | context [if ?c then _ else _] => destruct c
         | context [bindR ?r _] => destruct r; cbn [bindR] in H
         | context [match ?t with [] => _ | _ :: _ => _ end] => destruct t
         end;
    try discriminate; inversion H; subst; auto; right; eexists; reflexivity.
Qed.

(** A to-do item two levels down. *)
Lemma X16_lines_are_indented_witness :
  blockToText Sample.todo_block 2 = Ok (lit "    [x] Ship")
  /\ (lit "    [x] Ship" = []
      \/ exists rest, lit "    [x] Ship" = indentation 2 ++ rest).
Proof.
  assert (H : blockToText Sample.todo_block 2 = Ok (lit "    [x] Ship"))
    by (vm_compute; reflexivity).
  split; [exact H|].
  exact (@X16_lines_are_indented Sample.todo_block 2 (lit "    [x] Ship") H).
Defined.


Lemma repeat_count_ok s n : 0 <= n -> repeat_count s n = Ok (repeat_str s (Z.to_nat n)).
Proof.
  intros Hn. unfold repeat_count.
  destruct (n <? 0) eqn:E; [apply Z.ltb_lt in E; lia | reflexivity].
Qed.




(* ================================================================== *)
(** * Titles *)
(* ================================================================== *)

Lemma mapR_records {B} (g : Value -> B) (l : list Value) :
  Forall (fun t => nullish t = false) l ->
  mapR (fun t => if nullish t then Throw TypeError else Ok (g t)) l = Ok (map g l).
Proof.
  induction 1 as [|t l Ht _ IH]; simpl; [reflexivity|]. now rewrite Ht, IH.
Qed.

Lemma title_of_title_property p spans :
  title_property p spans -> title_of_property p = Ok (Some (title_text spans)).
Proof.
  intros (Hp & Htype & Htitle & Hne & Hspans). unfold title_of_property, getOpt.
  rewrite Hp, Htype, Htitle.
  replace (is_str (VStr (lit "title")) (lit "title")) with true by reflexivity.
  assert (Hpos : truthy (VArr spans) && gt_zero (prop (VArr spans) (lit "length")) = true).
  { destruct spans as [|s spans]; [contradiction|]. simpl. reflexivity. }
  rewrite Hpos. simpl mapArray. rewrite mapR_records by assumption. reflexivity.
Qed.

Lemma title_of_other p : not_a_title p -> title_of_property p = Ok None.
Proof. intros H. unfold title_of_property. unfold not_a_title in H. now rewrite H. Qed.

Lemma first_title_others l :
  Forall not_a_title l -> first_title l = Ok None.
Proof.
  induction 1 as [|x l Hx _ IH]; simpl; [reflexivity|].
  now rewrite (title_of_other Hx).
Qed.

Lemma first_title_sole p T l :
  title_of_property p = Ok (Some T) ->
  (forall x, In x l -> x = p \/ not_a_title x) ->
  (first_title l = Ok (Some T) \/ first_title l = Ok None)
  /\ (In p l -> first_title l = Ok (Some T)).
Proof.
  intros Hp. induction l as [|x l IH]; intros Hall; simpl.
  - split; [now right | contradiction].
  - destruct (Hall x (or_introl eq_refl)) as [-> | Hx].
    + rewrite Hp. simpl. auto.
    + rewrite (title_of_other Hx). simpl.
      destruct IH as [IH1 IH2]; [intros y Hy; apply Hall; now right|].
      split; [exact IH1|]. intros [-> | Hin]; [|now apply IH2].
      unfold not_a_title in Hx. exfalso.
      unfold title_of_property in Hp. rewrite Hx in Hp. discriminate.
Qed.

Lemma lookup_in_nodup k p es :
  NoDup (keys es) -> In (k, p) es -> lookup k es = p.
Proof.
  induction es as [|[k' p'] es IH]; intros Hnd Hin; [contradiction|].
  inversion Hnd as [|? ? Hfresh Hnd']; subst. simpl.
  destruct Hin as [E | Hin].
  - inversion E; subst. now rewrite jseqb_refl.
  - rewrite jseqb_neq; [now apply IH|].
    intros ->. apply Hfresh. unfold keys. now apply (in_map fst) in Hin.
Qed.

Lemma lookup_found k es : lookup k es = VUndefined \/ In (k, lookup k es) es.
Proof.
  induction es as [|[k' p'] es IH]; simpl; [now left|].
  destruct (jseqb k' k) eqn:E.
  - apply jseqb_eq in E. subst. right. now left.
  - destruct IH as [IH|IH]; [now left | right; now right].
Qed.

(** X18. The title of a record.  When exactly one of its properties is of
    type [title], whatever that property is called, the title is the text
    of that property's spans, one after the other.  When the record has no
    properties, or none of them is of type [title], the title is
    [Untitled]. *)
Theorem X18_title_found_under_any_name :
  (forall page es k p spans,
      nullish page = false ->
      prop page (lit "properties") = VObj es ->
      NoDup (keys es) ->
      In (k, p) es ->
      title_property p spans ->
      (forall k' p', In (k', p') es -> k' <> k -> not_a_title p') ->
      extractPageTitle page = Ok (title_text spans))
  /\ (forall page,
        nullish page = false ->
        truthy (prop page (lit "properties")) = false ->
        extractPageTitle page = Ok (lit "Untitled"))
  /\ (forall page es,
        nullish page = false ->
        prop page (lit "properties") = VObj es ->
        (forall k p, In (k, p) es -> not_a_title p) ->
        extractPageTitle page = Ok (lit "Untitled")).
Proof.
  split; [|split].
  - intros page es k p spans Hpage Hprops Hnd Hin Htitle Hothers.
    unfold extractPageTitle. rewrite get_record by assumption. cbn [bindR].
    rewrite Hprops. simpl truthy. simpl negb. cbv iota.
    pose proof (title_of_title_property Htitle) as Hp.
    assert (Hnamed : forall x, In x (map (prop (VObj es)) title_keys) ->
                               x = p \/ not_a_title x).
    { intros x Hx. apply in_map_iff in Hx. destruct Hx as (key & <- & _). simpl.
      destruct (lookup_found key es) as [-> | Hfound]; [now right|].
      destruct (list_eq_dec N.eq_dec key k) as [-> | Hne].
      - left. now apply lookup_in_nodup.
      - right. eapply Hothers; eauto. }
    assert (Hscan : forall x, In x (map snd (entries_of (VObj es))) ->
                              x = p \/ not_a_title x).
    { intros x Hx. simpl in Hx. apply in_map_iff in Hx.
      destruct Hx as ([k' p'] & <- & Hin'). simpl.
      destruct (list_eq_dec N.eq_dec k' k) as [-> | Hne].
      - left. rewrite <- (@lookup_in_nodup k p' es Hnd Hin').
        now apply lookup_in_nodup.
      - right. eapply Hothers; eauto. }
    destruct (first_title_sole _ Hp Hnamed) as [[-> | ->] _]; cbn [bindR];
      [reflexivity|].
    destruct (first_title_sole _ Hp Hscan) as [_ Hfound].
    rewrite Hfound; [reflexivity|].
    simpl. apply in_map_iff. exists (k, p). auto.
  - intros page Hpage Hfalsy. unfold extractPageTitle.
    rewrite get_record by assumption. cbn [bindR]. now rewrite Hfalsy.
  - intros page es Hpage Hprops Hnone. unfold extractPageTitle.
    rewrite get_record by assumption. cbn [bindR].
    rewrite Hprops. simpl truthy. simpl negb. cbv iota.
    rewrite first_title_others.
    + cbn [bindR]. rewrite first_title_others; [reflexivity|].
      apply Forall_forall. intros x Hx. simpl in Hx. apply in_map_iff in Hx.
      destruct Hx as ([k p] & <- & Hin). eapply Hnone; eauto.
    + apply Forall_forall. intros x Hx. apply in_map_iff in Hx.
      destruct Hx as (key & <- & _). simpl.
      destruct (lookup_found key es) as [-> | Hfound]; [reflexivity|].
      eapply Hnone; eauto.
Qed.

(** A title property called [Task], after a select property. *)
Lemma X18_title_found_under_any_name_witness :
  extractPageTitle Sample.task_page = Ok (lit "Fix login").
Proof.
  apply (proj1 X18_title_found_under_any_name Sample.task_page Sample.task_properties
           (lit "Task") Sample.task_title
           [VObj [(lit "plain_text", VStr (lit "Fix "))];
            VObj [(lit "plain_text", VStr (lit "login"))]]).
  - reflexivity.
  - reflexivity.
  - repeat constructor; simpl; intuition discriminate.
  - simpl. tauto.
  - repeat split; try reflexivity; try discriminate. repeat constructor.
  - intros k' p' [E | [E | []]] Hne; inversion E; subst.
    + reflexivity.
    + now contradiction Hne.
Defined.

(* ================================================================== *)
(** * The analysis builder *)
(* ================================================================== *)

Lemma dot_run_prefix s :
  Forall (fun c => is_line_terminator c = false) (dot_run s)
  /\ exists after, s = dot_run s ++ after.
Proof.
  induction s as [|c s [IH1 [after IH2]]]; simpl.
  - split; [constructor | now exists []].
  - destruct (is_line_terminator c) eqn:E.
    + split; [constructor | now exists (c :: s)].
    + split; [now constructor|]. exists after. simpl. now rewrite <- IH2.
Qed.

Lemma dots_some s group :
  dots s = Some group ->
  group <> []
  /\ Forall (fun c => is_line_terminator c = false) group
  /\ exists after, s = group ++ after.
Proof.
  unfold dots. intros H. destruct (dot_run_prefix s) as [H1 H2].
  destruct (dot_run s) as [|c run]; [discriminate|].
  inversion H; subst. split; [discriminate | now split].
Qed.

Lemma blanks_then_dots_some s blanks group :
  blanks_then_dots s = Some (blanks, group) ->
  Forall (fun c => is_space c = true) blanks
  /\ group <> []
  /\ Forall (fun c => is_line_terminator c = false) group
  /\ exists after, s = blanks ++ group ++ after.
Proof.
  assert (Hhere : forall s blanks group,
             option_map (fun g : jsstring => (@nil N, g)) (dots s) = Some (blanks, group) ->
             Forall (fun c => is_space c = true) blanks
             /\ group <> []
             /\ Forall (fun c => is_line_terminator c = false) group
             /\ exists after, s = blanks ++ group ++ after).
  { intros s0 b g H. destruct (dots s0) as [g0|] eqn:E; [|discriminate].
    simpl in H. inversion H; subst. apply dots_some in E.
    destruct E as (E1 & E2 & E3). repeat split; auto. }
  revert blanks group. induction s as [|c s IH]; intros blanks group H.
  - now apply Hhere.
  - simpl in H. destruct (is_space c) eqn:Ec; [|now apply Hhere].
    destruct (blanks_then_dots s) as [[blanks' group']|] eqn:E; [|now apply Hhere].
    inversion H; subst.
    destruct (IH _ _ eq_refl) as (I1 & I2 & I3 & after & I4).
    repeat split; auto. exists after. simpl. now rewrite <- I4.
Qed.

Lemma match_here_some s whole group :
  match_here s = Some (whole, group) ->
  exists after box blanks,
    s = whole ++ after
    /\ whole = [91%N; box; 93%N] ++ blanks ++ group
    /\ (box = 32%N \/ box = 120%N)
    /\ blanks <> []
    /\ Forall (fun c => is_space c = true) blanks
    /\ group <> []
    /\ Forall (fun c => is_line_terminator c = false) group.
Proof.
  unfold match_here. intros H.
  destruct s as [|opening [|box [|closing [|c s]]]]; try discriminate.
  destruct ((opening =? 91)%N && ((box =? 32)%N || (box =? 120)%N) && (closing =? 93)%N
            && is_space c) eqn:Htest; [|discriminate].
  apply andb_true_iff in Htest. destruct Htest as [Htest Hc].
  apply andb_true_iff in Htest. destruct Htest as [Htest Hclosing].
  apply andb_true_iff in Htest. destruct Htest as [Hopening Hbox].
  apply N.eqb_eq in Hopening, Hclosing. subst.
  destruct (blanks_then_dots s) as [[blanks group']|] eqn:E; [|discriminate].
  inversion H; subst. apply blanks_then_dots_some in E.
  destruct E as (E1 & E2 & E3 & after & E4).
  exists after, box, (c :: blanks). repeat split; auto.
  - simpl. rewrite E4. now rewrite <- app_assoc.
  - apply orb_true_iff in Hbox. destruct Hbox as [Hb|Hb]; apply N.eqb_eq in Hb; auto.
  - discriminate.
Qed.

Lemma box_mark box rest :
  box = 32%N \/ box = 120%N ->
  (startsWith (lit "[x]") ([91%N; box; 93%N] ++ rest) = true <-> box = 120%N).
Proof.
  intros [-> | ->]; simpl; split; auto; discriminate.
Qed.

Lemma matches_sound s : forall skip m, In m (matches skip s) -> box_match s m.
Proof.
  assert (Hshift : forall c s m, box_match s m -> box_match (c :: s) m).
  { intros c s0 m (before & after & box & blanks & H1 & H2).
    exists (c :: before), after, box, blanks. split; [|exact H2].
    simpl. now rewrite <- H1. }
  induction s as [|c s IH]; intros skip m Hin; [contradiction|].
  destruct skip as [|k]; cbn [matches] in Hin.
  - destruct (match_here (c :: s)) as [[whole group]|] eqn:E.
    + destruct Hin as [<- | Hin]; [|apply Hshift; eapply IH; eauto].
      apply match_here_some in E.
      destruct E as (after & box & blanks & E1 & E2 & E3 & E4 & E5 & E6 & E7).
      exists [], after, box, blanks. simpl fst. simpl snd.
      repeat split; auto.
      * rewrite E2. now apply box_mark.
      * rewrite E2. now apply box_mark.
    + apply Hshift. eapply IH; eauto.
  - apply Hshift. eapply IH; eauto.
Qed.

(** X19. Every task that the analysis finds in a text stands there behind a
    check box: the text holds [[ ]] or [[x]], then at least one blank, then
    the task, which is not empty and stays on one line; the task counts as
    done exactly when the box holds an [x].  A text without an opening
    bracket yields no task. *)
Theorem X19_tasks_come_from_check_boxes :
  (forall (text : jsstring) (m : jsstring * jsstring),
      In m (matches 0 text) -> box_match text m)
  /\ (forall text, ~ In 91%N text -> tasks_in text = []).
Proof.
  split.
  - intros text m. apply matches_sound.
  - intros text Hno. unfold tasks_in.
    destruct (matches 0 text) as [|m ms] eqn:E; [reflexivity|]. exfalso.
    assert (Hm : In m (matches 0 text)) by (rewrite E; now left).
    apply matches_sound in Hm.
    destruct Hm as (before & after & box & blanks & H1 & H2 & _).
    apply Hno. rewrite H1, H2. apply in_or_app. right. simpl. now left.
Qed.

(** A bulleted line that quotes a check box is read as a task as well. *)
Lemma X19_tasks_come_from_check_boxes_witness :
  matches 0 ([8226%N] ++ lit " see [x] done") = [(lit "[x] done", lit "done")]
  /\ box_match ([8226%N] ++ lit " see [x] done") (lit "[x] done", lit "done").
Proof.
  assert (H : matches 0 ([8226%N] ++ lit " see [x] done") = [(lit "[x] done", lit "done")])
    by (vm_compute; reflexivity).
  split; [exact H|].
  apply (proj1 X19_tasks_come_from_check_boxes).
  rewrite H. now left.
Defined.

(** ** From to-do blocks to tasks *)

Lemma match_here_other c s : c <> 91%N -> match_here (c :: s) = None.
Proof.
  intros Hc. unfold match_here.
  destruct s as [|box [|closing [|c' s]]]; try reflexivity.
  apply N.eqb_neq in Hc. now rewrite Hc.
Qed.

Lemma matches_other c s : c <> 91%N -> matches 0 (c :: s) = matches 0 s.
Proof. intros Hc. cbn [matches]. now rewrite match_here_other. Qed.

Lemma matches_indent n s :
  matches 0 (repeat_str (lit "  ") n ++ s) = matches 0 s.
Proof.
  induction n as [|n IH]; [reflexivity|].
  change (repeat_str (lit "  ") (S n) ++ s)
    with (32%N :: 32%N :: repeat_str (lit "  ") n ++ s).
  rewrite !matches_other by discriminate. exact IH.
Qed.

Lemma matches_skip p rest : matches (List.length p) (p ++ rest) = matches 0 rest.
Proof.
  induction p as [|c p IH]; simpl; [|exact IH].
  destruct rest; reflexivity.
Qed.

Lemma dot_run_line text rest :
  forallb (fun c => negb (is_line_terminator c)) text = true ->
  rest = [] \/ (exists more, rest = 10%N :: more) ->
  dot_run (text ++ rest) = text.
Proof.
  intros Htext Hrest. induction text as [|c text IH]; simpl.
  - destruct Hrest as [-> | [more ->]]; reflexivity.
  - simpl in Htext. apply andb_true_iff in Htext. destruct Htext as [Hc Htext].
    apply negb_true_iff in Hc. rewrite Hc. now rewrite IH.
Qed.

Lemma blanks_then_dots_line text rest :
  one_line text = true ->
  rest = [] \/ (exists more, rest = 10%N :: more) ->
  blanks_then_dots (text ++ rest) = Some ([], text).
Proof.
  unfold one_line. intros Hline Hrest.
  apply andb_true_iff in Hline. destruct Hline as [Hhead Hall].
  destruct text as [|c text]; [discriminate|].
  apply negb_true_iff in Hhead.
  assert (Hdots : dots ((c :: text) ++ rest) = Some (c :: text)).
  { unfold dots. now rewrite dot_run_line. }
  change ((c :: text) ++ rest) with (c :: (text ++ rest)) in *.
  simpl blanks_then_dots. rewrite Hhead.
  change (c :: (text ++ rest)) with ((c :: text) ++ rest).
  change (c :: text ++ rest) with ((c :: text) ++ rest) in Hdots.
  now rewrite Hdots.
Qed.

Lemma matches_todo_line depth task rest :
  one_line (fst task) = true ->
  rest = [] \/ (exists more, rest = 10%N :: more) ->
  map task_of (matches 0 (todo_line depth task ++ rest))
  = task_value task :: map task_of (matches 0 (behind rest)).
Proof.
  intros Hline Hrest. destruct task as [text checked]. simpl fst in *.
  unfold todo_line. simpl fst. simpl snd.
  rewrite <- app_assoc. rewrite matches_indent.
  set (box := if checked then 120%N else 32%N).
  assert (Hbox : ((box =? 32)%N || (box =? 120)%N) = true)
    by (unfold box; destruct checked; reflexivity).
  assert (Hhere : match_here (([91; box; 93; 32]%N ++ text) ++ rest)
                  = Some ([91; box; 93; 32]%N ++ text, text)).
  { rewrite <- app_assoc. simpl. rewrite Hbox. simpl.
    now rewrite blanks_then_dots_line. }
  change (([91; box; 93; 32]%N ++ text) ++ rest)
    with (91%N :: ([box; 93; 32]%N ++ text) ++ rest) in *.
  cbn [matches]. rewrite Hhere.
  change (Nat.pred (List.length ([91; box; 93; 32]%N ++ text)))
    with (List.length ([box; 93; 32]%N ++ text)).
  rewrite matches_skip. cbn [map]. f_equal.
  - unfold task_of, task_value. simpl fst. simpl snd.
    unfold box. destruct checked; reflexivity.
  - destruct Hrest as [-> | [more ->]]; [reflexivity|].
    simpl behind. now rewrite matches_other by discriminate.
Qed.

Lemma join_lines line next lines :
  join newline (line :: next :: lines) = line ++ 10%N :: join newline (next :: lines).
Proof. reflexivity. Qed.

Lemma matches_todo_lines (depths : list nat) :
  forall tasks,
    List.length depths = List.length tasks ->
    Forall (fun task => one_line (fst task) = true) tasks ->
    tasks_in (join newline (map (fun dt => todo_line (fst dt) (snd dt)) (combine depths tasks)))
    = map task_value tasks.
Proof.
  unfold tasks_in.
  induction depths as [|d depths IH]; intros [|task tasks] Hlen Hall;
    try discriminate; [reflexivity|].
  inversion Hall as [|? ? Htask Hrest]; subst.
  destruct depths as [|d' depths]; destruct tasks as [|task' tasks]; try discriminate.
  - simpl combine. simpl map at 2. simpl join.
    rewrite <- (app_nil_r (todo_line d task)).
    rewrite matches_todo_line; auto.
  - simpl combine. cbn [map fst snd]. rewrite join_lines.
    rewrite matches_todo_line; eauto.
    f_equal. simpl behind.
    apply (IH (task' :: tasks)); [simpl in Hlen |- *; congruence | exact Hrest].
Qed.

Lemma blockToText_todo block depth text checked :
  0 <= depth ->
  todo_item block text checked ->
  blockToText block depth = Ok (todo_line (Z.to_nat depth) (text, checked)).
Proof.
  intros Hdepth (Hblock & Htype & Hcontent & Htext & Hchecked).
  unfold blockToText. rewrite repeat_count_ok by assumption. cbn [bindR].
  cbv zeta. rewrite get_record by assumption. cbn [bindR].
  rewrite Htype. change (toStringJS (VStr (lit "to_do"))) with (lit "to_do").
  rewrite Hcontent. cbn [negb]. rewrite Htext. cbn [bindR].
  rewrite Hchecked. unfold todo_line. destruct checked; reflexivity.
Qed.

Lemma blockToText_depth block depth line :
  blockToText block depth = Ok line -> 0 <= depth.
Proof.
  unfold blockToText, repeat_count. intros H.
  destruct (depth <? 0) eqn:E; [discriminate|]. now apply Z.ltb_ge in E.
Qed.

Lemma todo_line_filled depth task : (len (todo_line depth task) >? 0) = true.
Proof.
  unfold todo_line, len. rewrite length_app. simpl List.length.
  apply Z.gtb_lt. lia.
Qed.

Lemma page_text_todos blocks :
  forall tasks text,
    Forall2 (fun b task => todo_item (fb_data b) (fst task) (snd task)) blocks tasks ->
    page_text blocks = Ok text ->
    text
    = join newline
        (map (fun dt => todo_line (fst dt) (snd dt))
             (combine (map (fun b => Z.to_nat (fb_depth b)) blocks) tasks)).
Proof.
  intros tasks text H.
  assert (Hlines : forall lines,
             mapR (fun b => blockToText (fb_data b) (fb_depth b)) blocks = Ok lines ->
             lines = map (fun dt => todo_line (fst dt) (snd dt))
                       (combine (map (fun b => Z.to_nat (fb_depth b)) blocks) tasks)).
  { induction H as [|b [text0 checked] blocks tasks Hb _ IH]; intros lines Hrun.
    - simpl in Hrun. now inversion Hrun.
    - simpl mapR in Hrun.
      destruct (blockToText (fb_data b) (fb_depth b)) as [line|e] eqn:Hline;
        [|discriminate].
      pose proof (blockToText_depth _ _ Hline) as Hdepth.
      rewrite (blockToText_todo Hdepth Hb) in Hline. inversion Hline; subst line.
      cbn [bindR] in Hrun.
      destruct (mapR (fun b => blockToText (fb_data b) (fb_depth b)) blocks)
        as [rest|e]; [|discriminate].
      cbn [bindR] in Hrun. inversion Hrun; subst lines.
      simpl. f_equal. now apply IH. }
  intros Htext. unfold page_text in Htext.
  destruct (mapR (fun b => blockToText (fb_data b) (fb_depth b)) blocks)
    as [lines|e]; [|discriminate].
  cbn [bindR] in Htext. inversion Htext; subst text.
  rewrite (Hlines lines eq_refl). f_equal.
  apply forallb_filter_id. apply forallb_forall.
  intros line Hin. apply in_map_iff in Hin. destruct Hin as ([d task] & <- & _).
  apply todo_line_filled.
Qed.

(** X20. The to-do items of a page come back as tasks.  When every block of
    a page is a to-do item whose text fills one line, the analysis of the
    page's text finds exactly these items, in the order of the page, each
    with its text and with [done] set as the item is checked, at whatever
    depth the items stand. *)
Theorem X20_todo_items_become_tasks :
  forall (blocks : list FlatBlock) (tasks : list (jsstring * bool)) (text : jsstring),
    Forall2 (fun b task => todo_item (fb_data b) (fst task) (snd task)) blocks tasks ->
    Forall (fun task => one_line (fst task) = true) tasks ->
    page_text blocks = Ok text ->
    tasks_in text = map task_value tasks.
Proof.
  intros blocks tasks text Hitems Hlines Htext.
  rewrite (page_text_todos Hitems Htext).
  apply matches_todo_lines; [|exact Hlines].
  rewrite length_map. eapply Forall2_length; eauto.
Qed.

(** A checked item and, one level down, an open one. *)
Lemma X20_todo_items_become_tasks_witness :
  page_text Sample.todo_page = Ok Sample.todo_page_text
  /\ tasks_in Sample.todo_page_text
     = [task_value (lit "Ship", true); task_value (lit "Test it", false)].
Proof.
  assert (H : page_text Sample.todo_page = Ok Sample.todo_page_text)
    by (vm_compute; reflexivity).
  split; [exact H|].
  apply (@X20_todo_items_become_tasks Sample.todo_page
           [(lit "Ship", true); (lit "Test it", false)] Sample.todo_page_text).
  - repeat constructor.
  - repeat constructor.
  - exact H.
Defined.

(** ** The shape of the analysis *)

Lemma total_items_count targets : total_items targets = count (all_items targets).
Proof.
  unfold total_items, count.
  assert (H : forall ts acc,
             fold_left (fun sum t => items_length t + sum) ts acc
             = acc + Z.of_nat (List.length (all_items ts))).
  { induction ts as [|t ts IH]; intros acc; simpl; [lia|].
    rewrite IH, length_app, Nat2Z.inj_add. unfold items_length.
    destruct (items t); simpl; lia. }
  rewrite H. lia.
Qed.

Lemma count_firstn {A} n (xs : list A) :
  count (firstn n xs) <= Z.of_nat n /\ count (firstn n xs) <= count xs.
Proof.
  unfold count. rewrite length_firstn. lia.
Qed.

(** X21. The task section of the analysis.  When the focus names [tasks] or
    [sprint], [tasks_found] counts every to-do item of the texts and every
    database item, the same number of database items as the summary
    reports, while [tasks_sample] lists twenty entries at most and never
    more than were found.  When the focus names neither, the analysis has
    no task section. *)
Theorem X21_task_section :
  forall (targets : list NormalizedTarget) (focus : list jsstring)
         (instructions : option jsstring),
    let analysis := buildAnalysis targets focus instructions in
    let found := count (tasks_in (join newline (map content_text targets)))
                 + total_items targets in
    (focus_includes focus (lit "tasks") || focus_includes focus (lit "sprint") = true ->
     prop analysis (lit "tasks_found") = VNum found
     /\ exists sample,
         prop analysis (lit "tasks_sample") = VArr sample
         /\ count sample <= 20
         /\ count sample <= found)
    /\ (focus_includes focus (lit "tasks") || focus_includes focus (lit "sprint") = false ->
        prop analysis (lit "tasks_found") = VUndefined
        /\ prop analysis (lit "tasks_sample") = VUndefined).
Proof.
  intros targets focus instructions analysis found. subst analysis found.
  rewrite total_items_count. unfold buildAnalysis. cbv zeta. split; intros H; rewrite H.
  - split.
    + unfold count. rewrite !length_map. reflexivity.
    + eexists. split; [reflexivity|].
      pose proof (count_firstn 10 (tasks_in (join newline (map content_text targets)))) as [A1 A2].
      pose proof (count_firstn 10 (map db_task_of (all_items targets))) as [B1 B2].
      unfold count in *. rewrite length_app, Nat2Z.inj_add.
      rewrite length_map in B2. lia.
  - destruct (focus_includes focus (lit "risks")),
             (focus_includes focus (lit "open_questions")),
             (focus_includes focus (lit "next_actions")),
             instructions as [[|c s]|]; split; reflexivity.
Qed.

(** Two to-do items on a page and three rows of a database. *)
Lemma X21_task_section_witness :
  prop (buildAnalysis [Sample.todo_target; Sample.rows_target] [lit "tasks"] None)
       (lit "tasks_found") = VNum 5.
Proof.
  apply (proj1 (@X21_task_section [Sample.todo_target; Sample.rows_target]
                  [lit "tasks"] None)).
  reflexivity.
Defined.

(* ================================================================== *)
(** * Properties, one by one *)
(* ================================================================== *)

Lemma simple_entries_lookup es :
  forall acc out,
    simple_entries es acc = Ok out ->
    NoDup (keys es) ->
    (forall k p, In (k, p) es -> k <> lit "__proto__" ->
                 simple_property p = Ok (lookup k out))
    /\ (forall k, ~ In k (keys es) -> lookup k out = lookup k acc)
    /\ lookup (lit "__proto__") out = lookup (lit "__proto__") acc.
Proof.
  induction es as [|[key val] es IH]; intros acc out H Hnd.
  - simpl in H. inversion H; subst. split; [contradiction | split; reflexivity].
  - cbn [simple_entries] in H.
    destruct (simple_property val) as [v|e] eqn:Hv; [|discriminate]. cbn [bindR] in H.
    inversion Hnd as [|? ? Hfresh Hnd']; subst.
    destruct (IH _ _ H Hnd') as (IH1 & IH2 & IH3).
    unfold assign in IH2, IH3.
    destruct (jseqb key (lit "__proto__")) eqn:Hproto.
    + apply jseqb_eq in Hproto. subst key. split; [|split].
      * intros k p [E | Hin] Hk; [inversion E; subst; contradiction|].
        now apply IH1.
      * intros k Hk. apply IH2. simpl in Hk. tauto.
      * exact IH3.
    + assert (Hkey : key <> lit "__proto__").
      { intros ->. now rewrite jseqb_refl in Hproto. }
      split; [|split].
      * intros k p [E | Hin] Hk; [|now apply IH1].
        inversion E; subst. rewrite IH2 by exact Hfresh.
        now rewrite lookup_obj_set_eq.
      * intros k Hk. simpl in Hk.
        rewrite IH2 by tauto. apply lookup_obj_set_ne.
        intros ->. apply Hk. now left.
      * rewrite IH3. apply lookup_obj_set_ne. congruence.
Qed.

Lemma lookup_absent k es : ~ In k (keys es) -> lookup k es = VUndefined.
Proof.
  intros Hk. destruct (lookup_found k es) as [H | H]; [exact H|].
  exfalso. apply Hk. unfold keys. now apply (in_map fst) in H.
Qed.

Lemma properties_pointwise props out :
  NoDup (keys props) ->
  extractSimpleProperties (VObj props) = Ok out ->
  (forall k p, In (k, p) props -> k <> lit "__proto__" ->
               simple_property p = Ok (lookup k out))
  /\ (forall k, ~ In k (keys props) -> lookup k out = VUndefined)
  /\ lookup (lit "__proto__") out = VUndefined.
Proof.
  intros Hnd H. unfold extractSimpleProperties in H. simpl entries_of in H.
  destruct (simple_entries_lookup _ _ H Hnd) as (H1 & H2 & H3).
  split; [exact H1|]. split; [|exact H3].
  intros k Hk. rewrite H2 by exact Hk. reflexivity.
Qed.

(** X22. The simplified properties, entry by entry.  When the property
    normaliser returns on a property map, the value under each key of the
    result, other than [__proto__], is what the switch yields for the
    property of that name alone, whatever the other properties are; a name
    that the map does not have is absent from the result; and the result
    never has a property named [__proto__], also when the map has one. *)
Theorem X22_properties_pointwise :
  forall (props out : list (jsstring * Value)),
    NoDup (keys props) ->
    extractSimpleProperties (VObj props) = Ok out ->
    (forall k p, In (k, p) props -> k <> lit "__proto__" ->
                 simple_property p = Ok (lookup k out))
    /\ (forall k, ~ In k (keys props) -> lookup k out = VUndefined)
    /\ lookup (lit "__proto__") out = VUndefined.
Proof.
  intros props out. apply properties_pointwise.
Qed.

(** A select and a title. *)
Lemma X22_properties_pointwise_witness :
  simple_property Sample.task_title = Ok (VStr (lit "Fix login"))
  /\ lookup (lit "Owner") [(lit "Status", VStr (lit "Done"));
                           (lit "Task", VStr (lit "Fix login"))] = VUndefined.
Proof.
  destruct (@X22_properties_pointwise Sample.task_properties
              [(lit "Status", VStr (lit "Done")); (lit "Task", VStr (lit "Fix login"))])
    as (H1 & H2 & _).
  - repeat constructor; simpl; intuition discriminate.
  - vm_compute. reflexivity.
  - split.
    + apply (H1 (lit "Task") Sample.task_title); [simpl; tauto | discriminate].
    + apply H2. simpl. intuition discriminate.
Defined.



Lemma normalize_item_properties row props item :
  prop row (lit "properties") = VObj props ->
  normalize_item row = Ok item ->
  extractSimpleProperties (VObj props) = Ok (item_properties item).
Proof.
  intros Hprops H. unfold normalize_item in H.
  unfold get in H. destruct (nullish row); [discriminate|]. cbn [bindR] in H.
  rewrite Hprops in H. change (orElse (VObj props) (VObj [])) with (VObj props) in H.
  destruct (extractPageTitle row) as [t|e]; [|discriminate]. cbn [bindR] in H.
  destruct (extractSimpleProperties (VObj props)) as [simple|e]; [|discriminate].
  cbn [bindR] in H. inversion H; subst. reflexivity.
Qed.

Lemma status_property p v :
  prop p (lit "type") = VStr (lit "status") ->
  simple_property p = Ok v ->
  v = orElse (getOpt (prop p (lit "status")) (lit "name")) VNull.
Proof.
  intros Htype H. unfold simple_property, get in H.
  destruct (nullish p); [discriminate|]. cbn [bindR] in H.
  rewrite Htype in H.
  change (is_str (VStr (lit "status")) (lit "title")) with false in H.
  change (is_str (VStr (lit "status")) (lit "rich_text")) with false in H.
  change (is_str (VStr (lit "status")) (lit "number")) with false in H.
  change (is_str (VStr (lit "status")) (lit "select")) with false in H.
  change (is_str (VStr (lit "status")) (lit "multi_select")) with false in H.
  change (is_str (VStr (lit "status")) (lit "status")) with true in H.
  cbv iota in H. now inversion H.
Qed.

(** X23. The status of a database row in the task list.  For a row that is
    normalised, a [Status] property of type [status] whose option is set
    gives the task that option's name; when the option is not set, or the
    row has no [Status], and the row has no [status] either, the task's
    status is [unknown]. *)
Theorem X23_row_status_in_tasks :
  forall (row : Value) (props : list (jsstring * Value)) (item : NormalizedDatabaseItem),
    prop row (lit "properties") = VObj props ->
    NoDup (keys props) ->
    normalize_item row = Ok item ->
    (forall p name,
        In (lit "Status", p) props ->
        prop p (lit "type") = VStr (lit "status") ->
        getOpt (prop p (lit "status")) (lit "name") = VStr name ->
        prop (db_task_of item) (lit "status") = VStr name)
    /\ (forall p,
          In (lit "Status", p) props ->
          prop p (lit "type") = VStr (lit "status") ->
          nullish (prop p (lit "status")) = true ->
          ~ In (lit "status") (keys props) ->
          prop (db_task_of item) (lit "status") = VStr (lit "unknown"))
    /\ (~ In (lit "Status") (keys props) ->
        ~ In (lit "status") (keys props) ->
        prop (db_task_of item) (lit "status") = VStr (lit "unknown")).
Proof.
  intros row props item Hprops Hnd Hitem.
  pose proof (normalize_item_properties _ Hprops Hitem) as Hsimple.
  destruct (@properties_pointwise props (item_properties item) Hnd Hsimple)
    as (H1' & H2 & _).
  assert (H1 : forall p, In (lit "Status", p) props ->
                         simple_property p = Ok (lookup (lit "Status") (item_properties item))).
  { intros p Hin. apply H1'; [exact Hin | discriminate]. }
  assert (Hstatus : prop (db_task_of item) (lit "status")
                    = orElse (orElse (lookup (lit "Status") (item_properties item))
                                     (lookup (lit "status") (item_properties item)))
                             (VStr (lit "unknown"))) by reflexivity.
  rewrite Hstatus. split; [|split].
  - intros p name Hin Htype Hname.
    pose proof (@status_property p _ Htype (H1 _ Hin)) as Hv.
    rewrite Hname in Hv. change (orElse (VStr name) VNull) with (VStr name) in Hv.
    rewrite Hv. reflexivity.
  - intros p Hin Htype Hunset Hlower.
    pose proof (@status_property p _ Htype (H1 _ Hin)) as Hv.
    unfold getOpt in Hv. rewrite Hunset in Hv.
    change (orElse VUndefined VNull) with VNull in Hv.
    rewrite Hv, (H2 _ Hlower). reflexivity.
  - intros Hupper Hlower. rewrite (H2 _ Hupper), (H2 _ Hlower). reflexivity.
Qed.

(** A row whose status is [Done]. *)
Lemma X23_row_status_in_tasks_witness :
  prop (db_task_of Sample.done_item) (lit "status") = VStr (lit "Done").
Proof.
  apply (proj1 (@X23_row_status_in_tasks Sample.done_row
                  [(lit "Name", Sample.task_title); (lit "Status", Sample.status_done)]
                  Sample.done_item eq_refl
                  ltac:(repeat constructor; simpl; intuition discriminate)
                  ltac:(vm_compute; reflexivity))
           Sample.status_done (lit "Done")).
  - simpl. tauto.
  - reflexivity.
  - reflexivity.
Defined.

(* ================================================================== *)
(** * The guard and the resolved URL *)
(* ================================================================== *)

(** X25. The guard does not cover the URL that is sent.  When the platform
    makes of the path of a call a URL whose own path the guard would have
    blocked under the method of the call, the call still passes, the guard
    having seen the path as written, and once the platform takes the call
    the request goes out to the blocked path.  The query path of a database
    whose id is [../pages?x=] is such a path: it resolves to [/v1/pages],
    and the POST of the query arrives there. *)
Theorem X25_guard_misses_resolved_path :
  forall (env : Env) (upstream : Upstream) (path : jsstring)
         (options : NotionFetchOptions) (log : Log) (url : Url),
    token_set env ->
    isWriteCall (method_of options) path = false ->
    resolve upstream path = Some url ->
    isWriteCall (method_of options) (url_pathname url) = true ->
    taken upstream path options log ->
    exists rq,
      snd (notionFetch env upstream path options log) = log ++ [rq]
      /\ rq_method rq = method_of options
      /\ rq_origin rq = url_origin url
      /\ rq_path rq = url_pathname url
      /\ isWriteCall (rq_method rq) (rq_path rq) = true.
Proof.
  intros env upstream path options log url Ht Hguard Hurl Hwrite Htaken.
  destruct (@notionFetch_forwarded env upstream path options log Ht Hguard)
    as (_ & new & Hlog & Hlen & Hall & Hsent).
  specialize (Hsent Htaken).
  destruct new as [|rq [|rq' new]]; [contradiction | | simpl in Hlen; lia].
  exists rq. split; [exact Hlog|].
  inversion Hall as [|? ? [Hm (url' & Hurl' & Ho & Hp & _)] _]; subst.
  rewrite Hurl in Hurl'. inversion Hurl'; subst url'.
  repeat split; try assumption. now rewrite Hm, Hp.
Qed.

(** The query of the database [../pages?x=] against [db_store]. *)
Lemma X25_guard_misses_resolved_path_witness :
  isWriteCall (lit "POST") (query_path Sample.dotted_id) = false
  /\ resolve Scenario.db_store (query_path Sample.dotted_id) = Some Sample.dotted_url
  /\ exists rq,
      snd (notionFetch Scenario.env0 Scenario.db_store (query_path Sample.dotted_id)
             (with_method (lit "POST") (VObj []) None) []) = [] ++ [rq]
      /\ rq_method rq = lit "POST"
      /\ rq_origin rq = NOTION_BASE
      /\ rq_path rq = lit "/v1/pages"
      /\ isWriteCall (rq_method rq) (rq_path rq) = true.
Proof.
  split; [reflexivity|]. split; [reflexivity|].
  apply (@X25_guard_misses_resolved_path Scenario.env0 Scenario.db_store
           (query_path Sample.dotted_id) (with_method (lit "POST") (VObj []) None) []
           Sample.dotted_url).
  - exists 115%N, (lit "ecret"). reflexivity.
  - reflexivity.
  - reflexivity.
  - reflexivity.
  - split; [eexists; reflexivity|]. split.
    + intros _. split; discriminate.
    + intros rq. unfold Scenario.db_store, Scenario.small_store, Scenario.listing.
      cbn [respond].
      repeat match goal with
             | |- context [if ?c then _ else _] => destruct c
             end; discriminate.
Defined.
